(** * Weather client and QR generator: a shallow embedding and its properties

    The development follows the two programs of the repository:

    - [Weather]: the forecast aggregation of [WeatherClient.forecast_5day],
      the alert fallback of [WeatherClient.alerts], [WeatherClient.geocode],
      [WeatherClient.ip_location], and the task boundary [FetchThread.run]
      with the two fetch sequences of [WeatherApp];
    - [QR]: the conflict-free file naming of [QRCodeGenerator.save_qr].

    Python exceptions are values of an error monad; HTTP replies are inputs
    of the functions that issue the requests. *)

From Stdlib Require Import ZArith QArith Qround List String Ascii Bool Lia Lqa.
From Stdlib Require Import Sorting.Sorted Sorting.Permutation OrderedTypeEx.
From Stdlib Require Import Decimal DecimalString DecimalNat FinFun.
Import ListNotations.

Local Open Scope string_scope.
Local Open Scope list_scope.
Local Open Scope Z_scope.

(* ------------------------------------------------------------------ *)
(** ** Exceptions as values *)
(* ------------------------------------------------------------------ *)

(** The exception classes that the modelled code can raise, each with the
    text [str(e)] shows. *)
Inductive exn_class : Set :=
| RuntimeError | KeyError | IndexError | TypeError | ValueError
| AttributeError | HTTPError | RequestException | JSONDecodeError.

Record exn : Set := Exn { exn_cls : exn_class; exn_msg : string }.

Inductive result (A : Type) : Type :=
| Ok (a : A)
| Raise (e : exn).
Arguments Ok {A} a.
Arguments Raise {A} e.

Definition bind {A B} (c : result A) (k : A -> result B) : result B :=
  match c with
  | Ok a => k a
  | Raise e => Raise e
  end.

Declare Scope result_scope.
Delimit Scope result_scope with result.
Notation "x <- c ;; k" := (bind c (fun x => k))
  (at level 61, c at next level, right associativity) : result_scope.
Notation "' p <- c ;; k" := (bind c (fun x => let p := x in k))
  (at level 61, p pattern, c at next level, right associativity) : result_scope.
Local Open Scope result_scope.

(** [try: c  except Exception: h] *)
Definition try_except {A} (c : result A) (h : exn -> result A) : result A :=
  match c with
  | Ok a => Ok a
  | Raise e => h e
  end.

(** A list comprehension whose element expression can raise. *)
Fixpoint traverse {A B} (f : A -> result B) (l : list A) : result (list B) :=
  match l with
  | [] => Ok []
  | x :: r => y <- f x ;; ys <- traverse f r ;; Ok (y :: ys)
  end.

(* ------------------------------------------------------------------ *)
(** ** Strings: decimal digits, ordering, [str.title] *)
(* ------------------------------------------------------------------ *)

Definition digit_char (n : Z) : ascii := ascii_of_N (Z.to_N (48 + n mod 10)).

(** [n] written with exactly [width] decimal digits (zero padded). *)
Fixpoint dec_fixed (width : nat) (n : Z) : string :=
  match width with
  | O => ""
  | S w => (dec_fixed w (n / 10) ++ String (digit_char n) "")%string
  end.

(** Python compares [str] values by code point, lexicographically. *)
Definition str_lt (a b : string) : bool := String.ltb a b.

Definition is_upper (c : ascii) : bool :=
  let n := N_of_ascii c in (65 <=? n)%N && (n <=? 90)%N.
Definition is_lower (c : ascii) : bool :=
  let n := N_of_ascii c in (97 <=? n)%N && (n <=? 122)%N.
Definition is_cased (c : ascii) : bool := is_upper c || is_lower c.
Definition to_upper (c : ascii) : ascii :=
  if is_lower c then ascii_of_N (N_of_ascii c - 32) else c.
Definition to_lower (c : ascii) : ascii :=
  if is_upper c then ascii_of_N (N_of_ascii c + 32) else c.

(** [str.title()]: a cased character is upper-cased when the character
    before it is not cased, and lower-cased otherwise.  Characters are the
    code points of the provider's English descriptions (ASCII); other
    bytes are uncased and kept. *)
Fixpoint title_from (previous_is_cased : bool) (s : string) : string :=
  match s with
  | EmptyString => EmptyString
  | String c r =>
      String (if previous_is_cased then to_lower c else to_upper c)
             (title_from (is_cased c) r)
  end.
Definition title (s : string) : string := title_from false s.

(* ------------------------------------------------------------------ *)
(** ** Numbers: [min], [max], [round] *)
(* ------------------------------------------------------------------ *)

(** Temperatures are JSON numbers.  Every finite double is a rational and
    [min], [max] and [round] are exact on doubles, so they are modelled on
    [Q]. *)

(** [min(xs)]: the first smallest element; [ValueError] on an empty list. *)
Fixpoint min_from (m : Q) (xs : list Q) : Q :=
  match xs with
  | [] => m
  | x :: r => min_from (match x ?= m with Lt => x | _ => m end)%Q r
  end.
Definition py_min (xs : list Q) : result Q :=
  match xs with
  | [] => Raise (Exn ValueError "min() arg is an empty sequence")
  | x :: r => Ok (min_from x r)
  end.

(** [max(xs)]: the first largest element. *)
Fixpoint max_from (m : Q) (xs : list Q) : Q :=
  match xs with
  | [] => m
  | x :: r => max_from (match x ?= m with Gt => x | _ => m end)%Q r
  end.
Definition py_max (xs : list Q) : result Q :=
  match xs with
  | [] => Raise (Exn ValueError "max() arg is an empty sequence")
  | x :: r => Ok (max_from x r)
  end.

(** [round(x)] with one argument: the nearest integer, a tie going to the
    even neighbour. *)
Definition py_round (x : Q) : Z :=
  let f := Qfloor x in
  match (x - inject_Z f ?= 1 # 2)%Q with
  | Lt => f
  | Gt => f + 1
  | Eq => if Z.even f then f else f + 1
  end.

(** Rounding to the nearest integer with ties away from zero, as the
    specification words it; compared with [py_round] below. *)
Definition round_half_away_from_zero (x : Q) : Z :=
  match (x ?= 0)%Q with
  | Lt => Qceiling (x - (1 # 2))
  | _ => Qfloor (x + (1 # 2))
  end.

(* ------------------------------------------------------------------ *)
(** ** [datetime.utcfromtimestamp] and [strftime("%Y-%m-%d")] *)
(* ------------------------------------------------------------------ *)

Record datetime : Set := Datetime { year : Z; month : Z; mday : Z; hour : Z }.

(** Proleptic Gregorian date of a day number counted from 1970-01-01. *)
Definition civil_from_days (days : Z) : Z * Z * Z :=
  let z := days + 719468 in
  let era := z / 146097 in
  let doe := z - era * 146097 in
  let yoe := (doe - doe / 1460 + doe / 36524 - doe / 146096) / 365 in
  let doy := doe - (365 * yoe + yoe / 4 - yoe / 100) in
  let mp := (5 * doy + 2) / 153 in
  let d := doy - (153 * mp + 2) / 5 + 1 in
  let m := if mp <? 10 then mp + 3 else mp - 9 in
  (yoe + era * 400 + (if m <=? 2 then 1 else 0), m, d).

(** First and last second that [datetime] represents: 0001-01-01 00:00:00
    and 9999-12-31 23:59:59. *)
Definition min_timestamp : Z := -62135596800.
Definition max_timestamp : Z := 253402300799.

(** [datetime.utcfromtimestamp(t)] for an integer number of seconds, as
    on Linux, where negative timestamps are accepted; a year outside
    1..9999 raises. *)
Definition utcfromtimestamp (t : Z) : result datetime :=
  if (min_timestamp <=? t) && (t <=? max_timestamp) then
    let '(y, m, d) := civil_from_days (t / 86400) in
    Ok (Datetime y m d ((t mod 86400) / 3600))
  else Raise (Exn ValueError "year is out of range").

(** ["%Y"] as the C library of Linux prints it: the year in decimal, not
    padded (the years from 1000 on have their four digits on every
    platform). *)
Definition format_year (y : Z) : string :=
  if y <? 10 then dec_fixed 1 y
  else if y <? 100 then dec_fixed 2 y
  else if y <? 1000 then dec_fixed 3 y
  else dec_fixed 4 y.

(** [strftime("%Y-%m-%d")] *)
Definition strftime_ymd (d : datetime) : string :=
  (format_year (year d) ++ "-" ++ dec_fixed 2 (month d) ++ "-"
     ++ dec_fixed 2 (mday d))%string.

(* ------------------------------------------------------------------ *)
(** ** [collections.Counter] and [most_common(1)] on strings *)
(* ------------------------------------------------------------------ *)

(** A [Counter] keeps its keys in the order of their first occurrence. *)
Fixpoint counter_add (k : string) (c : list (string * nat)) : list (string * nat) :=
  match c with
  | [] => [(k, 1%nat)]
  | (k', n) :: r =>
      if String.eqb k k' then (k', S n) :: r else (k', n) :: counter_add k r
  end.

Definition Counter (xs : list string) : list (string * nat) :=
  fold_left (fun c k => counter_add k c) xs [].

(** [max(items, key=itemgetter(1))]: the first entry with the largest
    count. *)
Fixpoint max_count_from (best : string * nat) (c : list (string * nat)) : string * nat :=
  match c with
  | [] => best
  | x :: r => max_count_from (if (snd best <? snd x)%nat then x else best) r
  end.

(** [c.most_common(1)] *)
Definition most_common_1 (c : list (string * nat)) : list (string * nat) :=
  match c with
  | [] => []
  | x :: r => [max_count_from x r]
  end.

(** [xs[0]] on a list *)
Definition index0 {A} (xs : list A) : result A :=
  match xs with
  | [] => Raise (Exn IndexError "list index out of range")
  | x :: _ => Ok x
  end.

Module Weather.

(* ------------------------------------------------------------------ *)
(** ** Forecast aggregation ([WeatherClient.forecast_5day]) *)
(* ------------------------------------------------------------------ *)

(** One entry of a sample's ["weather"] list. *)
Record condition : Set := Condition { icon_code : string; description : string }.

(** A raw 3-hour sample, with the fields that the aggregation reads:
    [item["dt"]], [item["main"]["temp_min"]], [item["main"]["temp_max"]]
    and [item["weather"]]. *)
Record sample : Type := Sample {
  dt : Z;
  temp_min : Q;
  temp_max : Q;
  weather : list condition
}.

(** One daily entry of the result. *)
Record day : Type := Day {
  date : string;
  tmin : Z;
  tmax : Z;
  icon : option string;
  desc : string
}.

(** [datetime.utcfromtimestamp(item["dt"]).strftime("%Y-%m-%d")] *)
Definition date_key (it : sample) : result string :=
  d <- utcfromtimestamp (dt it) ;; Ok (strftime_ymd d).

(** [datetime.utcfromtimestamp(it["dt"]).hour] *)
Definition hour_of (it : sample) : result Z :=
  d <- utcfromtimestamp (dt it) ;; Ok (hour d).

(** [buckets[date_key].append(item)] on a [defaultdict(list)], whose keys
    stay in insertion order. *)
Fixpoint bucket_append (k : string) (it : sample)
  (buckets : list (string * list sample)) : list (string * list sample) :=
  match buckets with
  | [] => [(k, [it])]
  | (k', its) :: r =>
      if String.eqb k k' then (k', its ++ [it]) :: r
      else (k', its) :: bucket_append k it r
  end.

(** The grouping loop, from the buckets built so far. *)
Fixpoint group_into (buckets : list (string * list sample)) (items : list sample)
  : result (list (string * list sample)) :=
  match items with
  | [] => Ok buckets
  | item :: rest =>
      k <- date_key item ;;
      group_into (bucket_append k item buckets) rest
  end.

Definition group_by_date (items : list sample) : result (list (string * list sample)) :=
  group_into [] items.

(** The search for the noon item: the loop leaves at the first item whose
    hour is 12. *)
Fixpoint find_noon (items : list sample) : result (option sample) :=
  match items with
  | [] => Ok None
  | it :: rest =>
      h <- hour_of it ;;
      if h =? 12 then Ok (Some it) else find_noon rest
  end.

(** [it["weather"][0]] *)
Definition weather0 (it : sample) : result condition := index0 (weather it).

(** [Counter(xs).most_common(1)[0][0]] *)
Definition most_common_key (xs : list string) : result string :=
  p <- index0 (most_common_1 (Counter xs)) ;; Ok (fst p).

(** The body of the loop over the buckets: one daily entry. *)
Definition summarise (k : string) (items : list sample) : result day :=
  let temps_min := map temp_min items in
  let temps_max := map temp_max items in
  noon_item <- find_noon items ;;
  '(icon, desc) <-
    match noon_item with
    | None =>
        icons <- traverse (fun it => c <- weather0 it ;; Ok (icon_code c)) items ;;
        icon <- match icons with
                | [] => Ok None
                | _ => i <- most_common_key icons ;; Ok (Some i)
                end ;;
        desc <- match items with
                | [] => Ok ""
                | _ =>
                    ds <- traverse
                            (fun it => c <- weather0 it ;; Ok (title (description c)))
                            items ;;
                    most_common_key ds
                end ;;
        Ok (icon, desc)
    | Some it =>
        c <- weather0 it ;;
        Ok (Some (icon_code c), title (description c))
    end ;;
  lo <- py_min temps_min ;;
  hi <- py_max temps_max ;;
  Ok (Day k (py_round lo) (py_round hi) icon desc).

(** [days.sort(key=lambda d: d["date"])]: a stable sort on the date
    strings. *)
Fixpoint insert_by_date (d : day) (sorted : list day) : list day :=
  match sorted with
  | [] => [d]
  | e :: r =>
      if str_lt (date d) (date e) then d :: e :: r
      else e :: insert_by_date d r
  end.

Definition sort_by_date (days : list day) : list day :=
  fold_left (fun acc d => insert_by_date d acc) days [].

(** The aggregation of [forecast_5day], from the decoded ["list"] of the
    forecast payload to the value it returns. *)
Definition aggregate (items : list sample) : result (list day) :=
  buckets <- group_by_date items ;;
  days <- traverse (fun b => summarise (fst b) (snd b)) buckets ;;
  Ok (firstn 5 (sort_by_date days)).

(* ------------------------------------------------------------------ *)
(** ** JSON payloads as Python values *)
(* ------------------------------------------------------------------ *)

(** What [r.json()] returns: [None], [bool], [int], [float], [str], [list]
    and [dict] (keys in insertion order). *)
#[warnings="-register-all"]
Inductive json : Type :=
| JNull
| JBool (b : bool)
| JInt (z : Z)
| JFloat (q : Q)
| JStr (s : string)
| JArr (l : list json)
| JObj (kv : list (string * json)).

(** [bool(v)] *)
Definition truthy (v : json) : bool :=
  match v with
  | JNull => false
  | JBool b => b
  | JInt z => negb (z =? 0)
  | JFloat q => negb (Qeq_bool q 0)
  | JStr s => negb (String.eqb s "")
  | JArr l => match l with [] => false | _ => true end
  | JObj kv => match kv with [] => false | _ => true end
  end.

Fixpoint dict_get (kv : list (string * json)) (k : string) : option json :=
  match kv with
  | [] => None
  | (k', v) :: r => if String.eqb k k' then Some v else dict_get r k
  end.

(** [isinstance(v, dict)] *)
Definition is_dict (v : json) : bool :=
  match v with JObj _ => true | _ => false end.

(** [v.get(k, default)]; only a [dict] has the method. *)
Definition py_get (v : json) (k : string) (default : json) : result json :=
  match v with
  | JObj kv => Ok (match dict_get kv k with Some x => x | None => default end)
  | _ => Raise (Exn AttributeError "object has no attribute 'get'")
  end.

(** [v[k]] with a string key *)
Definition subscript (v : json) (k : string) : result json :=
  match v with
  | JObj kv =>
      match dict_get kv k with
      | Some x => Ok x
      | None => Raise (Exn KeyError ("'" ++ k ++ "'")%string)
      end
  | JArr _ => Raise (Exn TypeError "list indices must be integers or slices, not str")
  | JStr _ => Raise (Exn TypeError "string indices must be integers, not 'str'")
  | _ => Raise (Exn TypeError "object is not subscriptable")
  end.

(** [v[0]] *)
Definition subscript0 (v : json) : result json :=
  match v with
  | JArr l => index0 l
  | JStr s =>
      match s with
      | EmptyString => Raise (Exn IndexError "string index out of range")
      | String c _ => Ok (JStr (String c ""))
      end
  | JObj _ => Raise (Exn KeyError "0")
  | _ => Raise (Exn TypeError "object is not subscriptable")
  end.

(** [v == []] *)
Definition eq_empty_list (v : json) : bool :=
  match v with JArr [] => true | _ => false end.

(** [v is None] *)
Definition is_none (v : json) : bool :=
  match v with JNull => true | _ => false end.

(** [v == n] for an integer literal [n]: numbers compare by value, and
    [True] and [False] are the integers 1 and 0. *)
Definition eq_int (v : json) (n : Z) : bool :=
  match v with
  | JInt z => z =? n
  | JFloat q => Qeq_bool q (inject_Z n)
  | JBool b => (if b then 1 else 0) =? n
  | _ => false
  end.

(** [v == s] for a string literal [s] *)
Definition eq_str (v : json) (s : string) : bool :=
  match v with JStr t => String.eqb t s | _ => false end.

(* ------------------------------------------------------------------ *)
(** ** HTTP replies *)
(* ------------------------------------------------------------------ *)

(** A response of [requests.get]: its status, the text of the [HTTPError]
    that [raise_for_status] builds for it, and what [r.json()] gives (a
    body that is not JSON raises there). *)
Record response : Type := Response {
  status_code : Z;
  status_text : string;
  json_body : result json
}.

(** What a request meets: an exception of the transport (timeout, DNS,
    refused connection), or a response. *)
Inductive reply : Type :=
| Failed (e : exn)
| Replied (r : response).

(** [requests.get(url, params=..., timeout=TIMEOUT)] *)
Definition requests_get (w : reply) : result response :=
  match w with
  | Failed e => Raise e
  | Replied r => Ok r
  end.

(** [r.raise_for_status()]: raises for the 4xx and 5xx statuses. *)
Definition raise_for_status (r : response) : result unit :=
  if (400 <=? status_code r) && (status_code r <? 600)
  then Raise (Exn HTTPError (status_text r))
  else Ok tt.

(* ------------------------------------------------------------------ *)
(** ** Alerts ([WeatherClient.alerts]) *)
(* ------------------------------------------------------------------ *)

(** The body of one [try] block: [Some v] when it executes [return v],
    [None] when control reaches the end of the block. *)
Definition alerts_attempt (w : reply) : result (option json) :=
  r <- requests_get w ;;
  if status_code r =? 200 then
    j <- json_body r ;;
    c1 <- (if is_dict j then a <- py_get j "alerts" JNull ;; Ok (truthy a)
           else Ok false) ;;
    if c1 : bool then a <- subscript j "alerts" ;; Ok (Some a)
    else
      c2 <- (if is_dict j then a <- py_get j "alerts" (JArr []) ;; Ok (eq_empty_list a)
             else Ok false) ;;
      if c2 : bool then Ok (Some (JArr [])) else Ok None
  else Ok None.

(** [alerts]: the One Call 3.0 endpoint, then 2.5, then [None].  The
    second request is issued only when the first block returns nothing.
    [onecall30] and [onecall25] are what the two endpoints answer. *)
Definition alerts (onecall30 onecall25 : reply) : result json :=
  first <- try_except (alerts_attempt onecall30) (fun _ => Ok None) ;;
  match first with
  | Some v => Ok v
  | None =>
      second <- try_except (alerts_attempt onecall25) (fun _ => Ok None) ;;
      match second with
      | Some v => Ok v
      | None => Ok JNull
      end
  end.

(** The three states in which [update_ui] reads the value: [None],
    [[]], anything else. *)
Inductive alert_state : Type :=
| Present (v : json)
| Empty
| Unavailable.

Definition state_of (v : json) : alert_state :=
  if is_none v then Unavailable
  else if eq_empty_list v then Empty
  else Present v.

(* ------------------------------------------------------------------ *)
(** ** Geocoding, current conditions, forecast request, IP location *)
(* ------------------------------------------------------------------ *)

Section Client.

(** [str(v)] of a value that is not a [str] (numbers, [None], containers):
    the text Python prints for it. *)
Variable str_of_value : json -> string.

(** The typed reading of the forecast payload's ["list"]: the samples that
    the aggregation iterates over. *)
Variable decode_samples : json -> result (list sample).

(** [str(v)], and the formatting of [v] by an f-string field. *)
Definition py_str (v : json) : string :=
  match v with
  | JStr s => s
  | _ => str_of_value v
  end.

(** [', ' + v]: only a [str] can be appended to a [str]. *)
Definition comma_then (v : json) : result string :=
  match v with
  | JStr s => Ok (", " ++ s)%string
  | _ => Raise (Exn TypeError "can only concatenate str to str")
  end.

(** [geocode]: [w] is what the geocoding endpoint answers. *)
Definition geocode (w : reply) : result (json * json * string) :=
  r <- requests_get w ;;
  _ <- raise_for_status r ;;
  items <- json_body r ;;
  if negb (truthy items) then Raise (Exn RuntimeError "Location not found.")
  else
    g <- subscript0 items ;;
    lat <- subscript g "lat" ;;
    lon <- subscript g "lon" ;;
    name <- py_get g "name" (JStr "") ;;
    country <- py_get g "country" JNull ;;
    suffix <- (if truthy country
               then c <- py_get g "country" (JStr "") ;; comma_then c
               else Ok "") ;;
    Ok (lat, lon, (py_str name ++ suffix)%string).

(** [current] *)
Definition current (w : reply) : result json :=
  r <- requests_get w ;;
  _ <- raise_for_status r ;;
  j <- json_body r ;;
  cod <- py_get j "cod" JNull ;;
  if negb (eq_int cod 200 || eq_str cod "200" || is_none cod) then
    m <- py_get j "message" (JStr "Failed to fetch current weather") ;;
    Raise (Exn RuntimeError (py_str m))
  else Ok j.

(** [forecast_5day]: the request, then the aggregation of its list. *)
Definition forecast_5day (w : reply) : result (list day) :=
  r <- requests_get w ;;
  _ <- raise_for_status r ;;
  j <- json_body r ;;
  cod <- py_get j "cod" JNull ;;
  if negb (eq_str cod "200" || eq_int cod 200) then
    m <- py_get j "message" (JStr "Failed to fetch forecast") ;;
    Raise (Exn RuntimeError (py_str m))
  else
    l <- py_get j "list" (JArr []) ;;
    items <- decode_samples l ;;
    aggregate items.

(** The [try] block of [ip_location]. *)
Definition ip_location_body (w : reply) : result json :=
  r <- requests_get w ;;
  _ <- raise_for_status r ;;
  data <- json_body r ;;
  lat0 <- py_get data "lat" JNull ;;
  if is_none lat0 then Ok JNull
  else
    lat <- subscript data "lat" ;;
    lon <- subscript data "lon" ;;
    city0 <- py_get data "city" JNull ;;
    country <- py_get data "country" (JStr "") ;;
    timezone <- py_get data "timezone" (JStr "UTC") ;;
    Ok (JObj [("lat", lat); ("lon", lon);
              ("city", if truthy city0 then city0 else JStr "My location");
              ("country", country); ("timezone", timezone)]).

(** [ip_location]: [except Exception: return None]. *)
Definition ip_location (w : reply) : result json :=
  try_except (ip_location_body w) (fun _ => Ok JNull).

(* ------------------------------------------------------------------ *)
(** ** The fetch sequences and the task boundary *)
(* ------------------------------------------------------------------ *)

(** What the network answers to each request of a fetch. *)
Record network : Type := Network {
  geo_reply : string -> reply;
  current_reply : json -> json -> string -> reply;
  forecast_reply : json -> json -> string -> reply;
  onecall30_reply : json -> json -> reply;
  onecall25_reply : json -> json -> reply;
  ipinfo_reply : reply
}.

(** The methods of [self.client] that the tasks call. *)
Record client : Type := Client_ {
  c_geocode : string -> result (json * json * string);
  c_current : json -> json -> string -> result json;
  c_forecast_5day : json -> json -> string -> result (list day);
  c_alerts : json -> json -> result json;
  c_ip_location : result json
}.

Definition weather_client (net : network) : client :=
  {| c_geocode := fun q => geocode (geo_reply net q);
     c_current := fun lat lon units => current (current_reply net lat lon units);
     c_forecast_5day := fun lat lon units => forecast_5day (forecast_reply net lat lon units);
     c_alerts := fun lat lon => alerts (onecall30_reply net lat lon) (onecall25_reply net lat lon);
     c_ip_location := ip_location (ipinfo_reply net) |}.

(** The dictionary that a task returns. *)
Record payload : Type := Payload {
  p_lat : json;
  p_lon : json;
  p_label : string;
  p_current : json;
  p_forecast : list day;
  p_alerts : json;
  p_tz : option json
}.

(** [task] of [on_search] *)
Definition search_task (c : client) (units q : string) : result payload :=
  '(lat, lon, label) <- c_geocode c q ;;
  curr <- c_current c lat lon units ;;
  fc <- c_forecast_5day c lat lon units ;;
  alerts <- c_alerts c lat lon ;;
  Ok (Payload lat lon label curr fc alerts None).

(** [task] of [on_my_location] *)
Definition location_task (c : client) (units : string) : result payload :=
  loc <- c_ip_location c ;;
  if negb (truthy loc)
  then Raise (Exn RuntimeError "Couldn't detect your location. Try searching a city.")
  else
    lat <- subscript loc "lat" ;;
    lon <- subscript loc "lon" ;;
    city <- subscript loc "city" ;;
    country <- subscript loc "country" ;;
    suffix <- (if truthy country
               then c' <- subscript loc "country" ;; comma_then c'
               else Ok "") ;;
    let label := (py_str city ++ suffix)%string in
    curr <- c_current c lat lon units ;;
    fc <- c_forecast_5day c lat lon units ;;
    alerts <- c_alerts c lat lon ;;
    tz <- py_get loc "timezone" (JStr "UTC") ;;
    Ok (Payload lat lon label curr fc alerts (Some tz)).

(** The two signals of [WorkerSignals]. *)
Inductive signal : Type :=
| result_emit (res : payload)
| error_emit (msg : string).

(** [FetchThread.run]: the signals it emits, in order. *)
Definition run (fn : result payload) : list signal :=
  match fn with
  | Ok res => [result_emit res]
  | Raise e => [error_emit (exn_msg e)]
  end.

End Client.

End Weather.

Module QR.

(* ------------------------------------------------------------------ *)
(** ** Saving a QR image ([QRCodeGenerator.save_qr]) *)
(* ------------------------------------------------------------------ *)

(** [str(n)] of a counter *)
Definition dec (n : nat) : string := NilEmpty.string_of_uint (Nat.to_uint n).

Definition starts_with_sep (s : string) : bool :=
  match s with
  | String c _ => Ascii.eqb c "/"
  | EmptyString => false
  end.

Fixpoint ends_with_sep (s : string) : bool :=
  match s with
  | EmptyString => false
  | String c EmptyString => Ascii.eqb c "/"
  | String _ r => ends_with_sep r
  end.

(** [os.path.join(a, b)] (POSIX) *)
Definition join (a b : string) : string :=
  if starts_with_sep b then b
  else if String.eqb a "" || ends_with_sep a then (a ++ b)%string
  else (a ++ "/" ++ b)%string.

(** [os.path.basename(p)]: what follows the last separator. *)
Fixpoint basename (p : string) : string :=
  match p with
  | EmptyString => EmptyString
  | String c r =>
      if Ascii.eqb c "/" then basename r
      else if existsb (Ascii.eqb "/") (list_ascii_of_string r) then basename r
      else p
  end.

(** [s.lower()] on ASCII *)
Fixpoint lower (s : string) : string :=
  match s with
  | EmptyString => EmptyString
  | String c r => String (to_lower c) (lower r)
  end.

(** The characters that [str.strip()] removes (ASCII). *)
Definition is_space (c : ascii) : bool :=
  let n := N_of_ascii c in
  ((9 <=? n) && (n <=? 13) || (28 <=? n) && (n <=? 32))%N.

Fixpoint lstrip (s : string) : string :=
  match s with
  | EmptyString => EmptyString
  | String c r => if is_space c then lstrip r else s
  end.

Fixpoint rstrip (s : string) : string :=
  match s with
  | EmptyString => EmptyString
  | String c r =>
      match rstrip r with
      | EmptyString => if is_space c then EmptyString else String c EmptyString
      | r' => String c r'
      end
  end.

Definition strip (s : string) : string := rstrip (lstrip s).

Section Save.

(** The image held in [current_qr], and its encoding in a format
    (["PNG"], or ["JPEG"] after [convert('RGB')], quality 95). *)
Variable image : Type.
Variable encode : string -> image -> string.

(** The files that exist, with their contents. *)
Definition filesystem : Type := list (string * string).

(** [os.path.exists(p)] *)
Definition path_exists (fs : filesystem) (p : string) : bool :=
  existsb (fun f => String.eqb (fst f) p) fs.

Fixpoint read_file (fs : filesystem) (p : string) : option string :=
  match fs with
  | [] => None
  | (p', c) :: r => if String.eqb p' p then Some c else read_file r p
  end.

(** Writing a file creates it or replaces its content. *)
Fixpoint write_file (fs : filesystem) (p : string) (c : string) : filesystem :=
  match fs with
  | [] => [(p, c)]
  | (p', c') :: r =>
      if String.eqb p' p then (p', c) :: r else (p', c') :: write_file r p c
  end.

(** The widgets and fields that [save_qr] reads. *)
Record app : Type := App {
  current_qr : option image;
  auto_name : bool;
  filename_edit : string;
  format_combo : string;
  current_save_dir : string
}.

(** [generate_filename]; [now] is [datetime.now().strftime("%Y%m%d_%H%M%S")]. *)
Definition generate_filename (a : app) (now : string) : string :=
  if auto_name a then ("qrcode_" ++ now)%string
  else
    let filename := strip (filename_edit a) in
    if String.eqb filename "" then "qrcode" else filename.

(** The path tried for a counter value. *)
Definition numbered_path (dir base_filename file_ext : string) (counter : nat) : string :=
  join dir (base_filename ++ "_" ++ dec counter ++ "." ++ file_ext)%string.

(** The [while os.path.exists(file_path)] loop, for [fuel] iterations at
    most: [None] when the loop has not left by then. *)
Fixpoint resolve_conflicts (fuel : nat) (fs : filesystem)
  (dir base_filename file_ext file_path : string) (counter : nat) : option string :=
  if path_exists fs file_path then
    match fuel with
    | O => None
    | S fuel' =>
        resolve_conflicts fuel' fs dir base_filename file_ext
          (numbered_path dir base_filename file_ext counter) (S counter)
    end
  else Some file_path.

(** The path that [save_qr] writes to.  Among the paths of the counters
    [1 .. length fs + 1] one does not exist, so [length fs + 1] iterations
    are enough (see [save_path_total]). *)
Definition save_path (fs : filesystem) (dir base_filename file_ext : string) : option string :=
  resolve_conflicts (S (List.length fs)) fs dir base_filename file_ext
    (join dir (base_filename ++ "." ++ file_ext)%string) 1%nat.

Inductive dialog : Type :=
| information (title text : string)
| critical (title text : string).

(** What one call of [save_qr] leaves: the files, the status label when
    it is set, and the message box shown. *)
Record outcome : Type := Outcome {
  files : filesystem;
  status_label : option string;
  shown : option dialog
}.

Definition newline : string := String (ascii_of_nat 10) EmptyString.

(** [save_qr].  [io_error] is the exception that writing the file meets,
    if any.  [None] only when the naming loop has not left within its
    fuel. *)
Definition save_qr (a : app) (now : string) (io_error : option exn)
  (fs : filesystem) : option outcome :=
  match current_qr a with
  | None => Some (Outcome fs None None)
  | Some qr =>
      let base_filename := generate_filename a now in
      let format_name := format_combo a in
      let file_ext := lower format_name in
      match save_path fs (current_save_dir a) base_filename file_ext with
      | None => None
      | Some file_path =>
          match io_error with
          | Some e =>
              Some (Outcome fs (Some "Error saving QR code.")
                      (Some (critical "Save Error"
                               ("An error occurred while saving: " ++ exn_msg e)%string)))
          | None =>
              let data := if String.eqb format_name "JPEG"
                          then encode "JPEG" qr else encode "PNG" qr in
              Some (Outcome (write_file fs file_path data)
                      (Some ("QR code saved to: " ++ basename file_path)%string)
                      (Some (information "Success"
                               ("QR code saved successfully to:" ++ newline ++ file_path)%string)))
          end
      end
  end.

(** What [save_qr_as] hands to the file dialog: the suggested path and
    the name filter. *)
Definition save_as_suggestion (a : app) (now : string) : string * string :=
  let format_name := format_combo a in
  let file_ext := lower format_name in
  let base_filename := generate_filename a now in
  (join (current_save_dir a) (base_filename ++ "." ++ file_ext)%string,
   (format_name ++ " Files (*." ++ file_ext ++ ");;All Files (*)")%string).

(** A write that fails: the exception, and what it leaves at the path.
    [Image.save] opens the file for writing before it encodes the image:
    a failure before the file is opened leaves the files as they were
    ([None]); a failure after it leaves at the path what was written
    until then ([Some] of it), also where a file existed before. *)
Record write_failure : Type := Write_failure {
  raised : exn;
  left_at_path : option string
}.

(** [save_qr_as].  [file_path] is what the dialog returns (the empty
    string when it is cancelled), [io_error] the failure that writing
    the file meets, if any. *)
Definition save_qr_as (a : app) (file_path : string) (io_error : option write_failure)
  (fs : filesystem) : outcome :=
  match current_qr a with
  | None => Outcome fs None None
  | Some qr =>
      let format_name := format_combo a in
      if String.eqb file_path "" then Outcome fs None None
      else
        match io_error with
        | Some f =>
            Outcome (match left_at_path f with
                     | None => fs
                     | Some written => write_file fs file_path written
                     end)
              (Some "Error saving QR code.")
              (Some (critical "Save Error"
                       ("An error occurred while saving: " ++ exn_msg (raised f))%string))
        | None =>
            let data := if String.eqb format_name "JPEG"
                        then encode "JPEG" qr else encode "PNG" qr in
            Outcome (write_file fs file_path data)
              (Some ("QR code saved to: " ++ basename file_path)%string)
              (Some (information "Success"
                       ("QR code saved successfully as " ++ basename file_path)%string))
        end
  end.

End Save.

(* ------------------------------------------------------------------ *)
(** ** Module styles ([apply_rounded_style], [apply_dots_style]) *)
(* ------------------------------------------------------------------ *)

Definition rgb : Set := (Z * Z * Z)%type.

Definition rgb_eqb (a b : rgb) : bool :=
  let '(r, g, b') := a in
  let '(r', g', b'') := b in
  (r =? r') && (g =? g') && (b' =? b'').

(** An RGB image as the styles read it: [img.size] and the pixel access
    of [img.load()]. *)
Record picture : Type := Picture {
  width : Z;
  height : Z;
  pixels : Z -> Z -> rgb
}.

(** The calls on [ImageDraw.Draw(new_img)]. *)
Inductive shape : Set :=
| rounded_rectangle (x0 y0 x1 y1 radius : Z) (fill : rgb)
| ellipse (x0 y0 x1 y1 : Z) (fill : rgb).

(** [Image.new('RGB', (width, height), background)] and the shapes drawn
    on it, in the order of the calls. *)
Record canvas : Type := Canvas {
  canvas_width : Z;
  canvas_height : Z;
  background : rgb;
  drawn : list shape
}.

(** The length of [range(0, stop, step)]. *)
Definition range_length (stop step : Z) : Z :=
  if 0 <? step then (if 0 <? stop then (stop + step - 1) / step else 0)
  else (if stop <? 0 then (- stop - step - 1) / (- step) else 0).

(** [range(0, stop, step)]; a zero step raises. *)
Definition py_range (stop step : Z) : result (list Z) :=
  if step =? 0 then Raise (Exn ValueError "range() arg 3 must not be zero")
  else Ok (map (fun i => Z.of_nat i * step) (seq 0 (Z.to_nat (range_length stop step)))).

Definition black : rgb := (0, 0, 0).

(** The two nested loops of a style: [cell x y] is what the body draws
    at a grid position whose pixel is black. *)
Definition draw_modules (img : picture) (module_size : Z) (cell : Z -> Z -> shape)
  : result (list shape) :=
  ys <- py_range (height img) module_size ;;
  rows <- traverse
            (fun y =>
               xs <- py_range (width img) module_size ;;
               Ok (flat_map
                     (fun x =>
                        if (x <? width img) && (y <? height img)
                           && rgb_eqb (pixels img x y) black
                        then [cell x y] else [])
                     xs))
            ys ;;
  Ok (List.concat rows).

(** [apply_rounded_style] *)
Definition apply_rounded_style (bg_color qr_color : rgb) (img : picture) : result canvas :=
  let module_size := Z.max 1 (width img / 21) in
  shapes <- draw_modules img module_size
              (fun x y =>
                 rounded_rectangle x y (x + module_size - 1) (y + module_size - 1)
                   (module_size / 3) qr_color) ;;
  Ok (Canvas (width img) (height img) bg_color shapes).

(** [apply_dots_style] *)
Definition apply_dots_style (bg_color qr_color : rgb) (img : picture) : result canvas :=
  let module_size := Z.max 3 (width img / 30) in
  shapes <- draw_modules img module_size
              (fun x y =>
                 let center_x := x + module_size / 2 in
                 let center_y := y + module_size / 2 in
                 let radius := module_size / 2 - 1 in
                 ellipse (center_x - radius) (center_y - radius)
                         (center_x + radius) (center_y + radius) qr_color) ;;
  Ok (Canvas (width img) (height img) bg_color shapes).

End QR.

Module WeatherUI.

Import Weather.

(* ------------------------------------------------------------------ *)
(** ** [datetime.strptime(s, "%Y-%m-%d")] *)
(* ------------------------------------------------------------------ *)

Definition digit_value (c : ascii) : option Z :=
  let n := N_of_ascii c in
  if (48 <=? n)%N && (n <=? 57)%N then Some (Z.of_N n - 48) else None.

(** ["%Y"]: four digits. *)
Definition parse_year (s : string) : option (Z * string) :=
  match s with
  | String a (String b (String c (String d r))) =>
      match digit_value a, digit_value b, digit_value c, digit_value d with
      | Some a, Some b, Some c, Some d => Some (1000 * a + 100 * b + 10 * c + d, r)
      | _, _, _, _ => None
      end
  | _ => None
  end.

Definition digit_between (lo hi : Z) (c : ascii) : option Z :=
  match digit_value c with
  | Some v => if (lo <=? v) && (v <=? hi) then Some v else None
  | None => None
  end.

(** ["%m"]: [1[0-2]], or [0[1-9]], or [[1-9]], the first that matches. *)
Definition parse_month (s : string) : option (Z * string) :=
  match s with
  | String a r =>
      let two :=
        match r with
        | String b r' =>
            match digit_between 1 1 a, digit_between 0 2 b with
            | Some _, Some v => Some (10 + v, r')
            | _, _ =>
                match digit_between 0 0 a, digit_between 1 9 b with
                | Some _, Some v => Some (v, r')
                | _, _ => None
                end
            end
        | EmptyString => None
        end in
      match two with
      | Some p => Some p
      | None =>
          match digit_between 1 9 a with
          | Some v => Some (v, r)
          | None => None
          end
      end
  | EmptyString => None
  end.

(** ["%d"]: [3[01]], or [[12]\d], or [0[1-9]], or [[1-9]], or a space
    and [[1-9]], the first that matches. *)
Definition parse_day (s : string) : option (Z * string) :=
  match s with
  | String a r =>
      let two :=
        match r with
        | String b r' =>
            match digit_between 3 3 a, digit_between 0 1 b with
            | Some _, Some v => Some (30 + v, r')
            | _, _ =>
                match digit_between 1 2 a, digit_between 0 9 b with
                | Some u, Some v => Some (10 * u + v, r')
                | _, _ =>
                    match digit_between 0 0 a, digit_between 1 9 b with
                    | Some _, Some v => Some (v, r')
                    | _, _ => None
                    end
                end
            end
        | EmptyString => None
        end in
      match two with
      | Some p => Some p
      | None =>
          match digit_between 1 9 a with
          | Some v => Some (v, r)
          | None =>
              match r with
              | String b r' =>
                  if Ascii.eqb a " " then
                    match digit_between 1 9 b with
                    | Some v => Some (v, r')
                    | None => None
                    end
                  else None
              | EmptyString => None
              end
          end
      end
  | EmptyString => None
  end.

Definition is_leap (y : Z) : bool :=
  (y mod 4 =? 0) && (negb (y mod 100 =? 0) || (y mod 400 =? 0)).

Definition days_in_month (y m : Z) : Z :=
  if m =? 2 then (if is_leap y then 29 else 28)
  else if (m =? 4) || (m =? 6) || (m =? 9) || (m =? 11) then 30
  else 31.

(** [datetime.strptime(s, "%Y-%m-%d")]: the year, month and day of the
    result.  The text must match the pattern to its end, and the date
    must exist. *)
Definition strptime_ymd (s : string) : result (Z * Z * Z) :=
  let no_match := Raise (Exn ValueError "time data does not match format '%Y-%m-%d'") in
  match parse_year s with
  | Some (y, String sep1 r1) =>
      if Ascii.eqb sep1 "-" then
        match parse_month r1 with
        | Some (m, String sep2 r2) =>
            if Ascii.eqb sep2 "-" then
              match parse_day r2 with
              | Some (d, EmptyString) =>
                  if y <? 1 then Raise (Exn ValueError "year 0 is out of range")
                  else if days_in_month y m <? d
                  then Raise (Exn ValueError "day is out of range for month")
                  else Ok (y, m, d)
              | Some (_, String _ _) => Raise (Exn ValueError "unconverted data remains")
              | None => no_match
              end
            else no_match
        | _ => no_match
        end
      else no_match
  | _ => no_match
  end.

(* ------------------------------------------------------------------ *)
(** ** The sections of [WeatherApp.update_ui] *)
(* ------------------------------------------------------------------ *)

(** [str(n)] of an [int] *)
Definition str_int (z : Z) : string :=
  if z <? 0 then ("-" ++ QR.dec (Z.to_nat (- z)))%string else QR.dec (Z.to_nat z).

(** [isinstance(v, (int, float))]; a [bool] is an [int]. *)
Definition is_number (v : json) : bool :=
  match v with
  | JInt _ | JFloat _ | JBool _ => true
  | _ => false
  end.

(** [round(v)] of a number *)
Definition round_number (v : json) : Z :=
  match v with
  | JInt z => z
  | JFloat q => py_round q
  | JBool b => if b then 1 else 0
  | _ => 0
  end.

(** [v.title()]; only a [str] has the method. *)
Definition py_title (v : json) : result string :=
  match v with
  | JStr s => Ok (title s)
  | _ => Raise (Exn AttributeError "object has no attribute 'title'")
  end.

(** [QLabel(v)]: the text of the label.  A [str] is its text; [None] is
    taken for the parent argument and leaves the label empty; no
    constructor accepts another value. *)
Definition qlabel_text (v : json) : result string :=
  match v with
  | JStr s => Ok s
  | JNull => Ok ""
  | _ => Raise (Exn TypeError "QLabel called with wrong argument types")
  end.

(** [for a in v]: the items that the loop visits. *)
Definition py_iter (v : json) : result (list json) :=
  match v with
  | JArr l => Ok l
  | JObj kv => Ok (map (fun p => JStr (fst p)) kv)
  | JStr s => Ok (map (fun c => JStr (String c EmptyString)) (list_ascii_of_string s))
  | _ => Raise (Exn TypeError "object is not iterable")
  end.

Definition dash : string := "—".

Definition deg_of (units : string) : string :=
  if String.eqb units "metric" then "°C" else "°F".

Definition spd_of (units : string) : string :=
  if String.eqb units "metric" then "m/s" else "mph".

(** The name of the time zone that [update_ui] keeps in [self.tzname]:
    [tz] is the payload's ["tz"] when it has the key, [curr] its
    current conditions. *)
Definition tzname_of (tz : option json) (curr : json) : result string :=
  let tzname0 := match tz with Some v => v | None => JNull end in
  tzname <- (if is_none tzname0 then py_get curr "timezone" JNull else Ok tzname0) ;;
  Ok (match tzname with JStr s => s | _ => "UTC" end).

Section View.

(** [str(v)] of a value that is not a [str], as in [Weather.py_str]. *)
Variable str_of_value : json -> string.

(** [datetime.fromtimestamp(ts, tz).strftime('%Y-%m-%d %H:%M')] in the
    time zone of the window. *)
Variable local_time : json -> result string.

(** The texts of the "Current" section, and the icon code handed to
    [_set_icon]. *)
Record current_labels : Type := Current_labels {
  lbl_temp : string;
  lbl_desc : string;
  lbl_feels : string;
  lbl_misc : string;
  current_icon : json
}.

(** The "Current" section of [update_ui]. *)
Definition current_section (units : string) (curr : json) : result current_labels :=
  main <- py_get curr "main" (JObj []) ;;
  wind <- py_get curr "wind" (JObj []) ;;
  w <- py_get curr "weather" JNull ;;
  weather0 <- subscript0 (if truthy w then w else JArr [JObj []]) ;;
  temp <- py_get main "temp" JNull ;;
  feels <- py_get main "feels_like" JNull ;;
  humidity <- py_get main "humidity" JNull ;;
  pressure <- py_get main "pressure" JNull ;;
  wind_speed <- py_get wind "speed" JNull ;;
  d <- py_get weather0 "description" (JStr dash) ;;
  desc <- py_title d ;;
  icon <- py_get weather0 "icon" JNull ;;
  let deg := deg_of units in
  let spd := spd_of units in
  Ok {| lbl_temp :=
          ((if is_number temp then str_int (round_number temp) else dash) ++ deg)%string;
        lbl_desc := desc;
        lbl_feels :=
          (if is_number feels
           then "Feels like " ++ str_int (round_number feels) ++ deg
           else "Feels like " ++ dash)%string;
        lbl_misc :=
          ("Humidity " ++ py_str str_of_value humidity ++ "%   •   Wind "
             ++ py_str str_of_value wind_speed ++ " " ++ spd ++ "   •   Pressure "
             ++ py_str str_of_value pressure ++ " hPa")%string;
        current_icon := icon |}.

(** One card of the "Forecast" section: the date that [strptime] reads
    from the entry (the title is its ["%a %d %b"] text), the icon code
    handed to [_set_icon], the description and the temperatures. *)
Record forecast_card : Type := Forecast_card {
  card_date : Z * Z * Z;
  card_icon : option string;
  card_desc : string;
  card_temps : string
}.

Definition forecast_card_of (units : string) (d : day) : result forecast_card :=
  dt <- strptime_ymd (date d) ;;
  let deg := deg_of units in
  Ok {| card_date := dt;
        card_icon := icon d;
        card_desc := desc d;
        card_temps := (str_int (tmin d) ++ deg ++ " / " ++ str_int (tmax d) ++ deg)%string |}.

(** A loop that adds one widget per item: the widgets added, and the
    exception that ended the loop, if any. *)
Fixpoint add_widgets {A W} (make : A -> result W) (items : list A) : list W * option exn :=
  match items with
  | [] => ([], None)
  | a :: r =>
      match make a with
      | Ok w => let '(ws, e) := add_widgets make r in (w :: ws, e)
      | Raise e => ([], Some e)
      end
  end.

(** The "Forecast" section of [update_ui]. *)
Definition forecast_section (units : string) (fc : list day)
  : list forecast_card * option exn :=
  add_widgets (forecast_card_of units) fc.

(** The widgets of the "Alerts" section. *)
Inductive alert_widget : Type :=
| muted (text : string)
| alert_card (title timing body : string).

Definition alert_time (ts : json) : result string :=
  if truthy ts then local_time ts else Ok dash.

Definition alert_card_of (a : json) : result alert_widget :=
  sender <- py_get a "sender_name" (JStr "Alert") ;;
  event <- py_get a "event" (JStr "Weather Alert") ;;
  start_ts <- py_get a "start" JNull ;;
  end_ts <- py_get a "end" JNull ;;
  '(start, finish) <-
    try_except
      (s <- alert_time start_ts ;; e <- alert_time end_ts ;; Ok (s, e))
      (fun _ => Ok (dash, dash)) ;;
  d <- py_get a "description" (JStr "") ;;
  body <- qlabel_text d ;;
  Ok (alert_card (py_str str_of_value event ++ " " ++ dash ++ " " ++ py_str str_of_value sender)
                 ("From " ++ start ++ " to " ++ finish) body)%string.

(** The "Alerts" section of [update_ui]. *)
Definition alerts_section (alerts : json) : list alert_widget * option exn :=
  if is_none alerts
  then ([muted "Alerts not available on this API plan for this location."], None)
  else if eq_empty_list alerts
  then ([muted "No active alerts for this area."], None)
  else
    match py_iter alerts with
    | Ok l => add_widgets alert_card_of l
    | Raise e => ([], Some e)
    end.

End View.

End WeatherUI.

(* ================================================================== *)
(** * Definitions of the statements *)
(* ================================================================== *)

Import Weather.

(** ** Definitions used by the statements *)

(** The samples of [items] whose UTC date is [k], in input order. *)
Definition date_is (k : string) (it : sample) : bool :=
  match date_key it with
  | Ok k' => String.eqb k' k
  | Raise _ => false
  end.

Definition date_group (k : string) (items : list sample) : list sample :=
  filter (date_is k) items.

(** A sample that the aggregation can read: a timestamp that [datetime]
    represents, and a first weather condition. *)
Definition readable (it : sample) : Prop :=
  min_timestamp <= dt it <= max_timestamp /\ weather it <> [].

(** The date strings increase strictly, in the order in which Python
    compares them. *)
Definition dates_increasing (days : list day) : Prop :=
  StronglySorted (fun a b => str_lt (date a) (date b) = true) days.

Definition least (m : Q) (xs : list Q) : Prop :=
  In m xs /\ forall x, In x xs -> (m <= x)%Q.

Definition greatest (m : Q) (xs : list Q) : Prop :=
  In m xs /\ forall x, In x xs -> (x <= m)%Q.

(** [z] is an integer nearest to [x], and is even when [x] lies halfway
    between two integers. *)
Definition nearest_ties_even (x : Q) (z : Z) : Prop :=
  (-(1 # 2) <= x - inject_Z z <= 1 # 2)%Q /\
  ((x - inject_Z z == 1 # 2)%Q \/ (x - inject_Z z == -(1 # 2))%Q -> Z.even z = true).

Definition count (a : string) (xs : list string) : nat := count_occ string_dec xs a.

(** [a] is a most frequent value of [xs], and every value that occurs
    before the first [a] is strictly less frequent. *)
Definition most_frequent_first (a : string) (xs : list string) : Prop :=
  exists pre post,
    xs = pre ++ a :: post /\ ~ In a pre /\
    (forall b, (count b xs <= count a xs)%nat) /\
    (forall b, In b pre -> (count b xs < count a xs)%nat).

(** ** Definitions used by the proofs *)

(** The order that the sort establishes on the entries. *)
Definition date_le (a b : day) : Prop := str_lt (date b) (date a) = false.

(** The items of the bucket of key [k] ([[]] when there is none). *)
Fixpoint bucket_of (buckets : list (string * list sample)) (k : string) : list sample :=
  match buckets with
  | [] => []
  | (k', its) :: r => if String.eqb k k' then its else bucket_of r k
  end.

(** The count that a counter holds for [k] (0 when there is none). *)
Fixpoint count_of (c : list (string * nat)) (k : string) : nat :=
  match c with
  | [] => 0%nat
  | (k', n) :: r => if String.eqb k k' then n else count_of r k
  end.

(** Counting the elements of [xs] into the counter [c]. *)
Definition add_all (xs : list string) (c : list (string * nat)) : list (string * nat) :=
  fold_left (fun c k => counter_add k c) xs c.

(** ** Example inputs *)

Definition sample_at (t : Z) (lo hi : Q) (i d : string) : sample :=
  Sample t lo hi [Condition i d].

(** Samples of six consecutive days, out of order. *)
Definition six_days : list sample :=
  [ sample_at 1700049600 (1 # 2) (9 # 2) "10d" "light rain";
    sample_at 1700000000 (5 # 2) (7 # 2) "04d" "broken clouds";
    sample_at 1700136000 3 4 "01d" "clear sky";
    sample_at 1700222400 3 4 "01d" "clear sky";
    sample_at 1699900000 (-3) (-1) "13d" "snow";
    sample_at 1700308800 3 4 "01d" "clear sky";
    sample_at 1700010000 2 8 "04d" "broken clouds" ].

(** One sample whose temperatures lie halfway between two integers. *)
Definition tie_sample : sample := sample_at 0 (5 # 2) (7 # 2) "01d" "clear sky".
Definition tie_day : day := Day "1970-01-01" 2 4 (Some "01d") "Clear Sky".

(** One day with samples at 09:00, 12:00, 12:30, 15:00 and 18:00. *)
Definition noon_group : list sample :=
  [ sample_at 32400 1 2 "02d" "few clouds";
    sample_at 43200 1 2 "10d" "light rain";
    sample_at 45000 1 2 "01d" "clear sky";
    sample_at 54000 1 2 "02d" "few clouds";
    sample_at 64800 1 2 "02d" "few clouds" ].
Definition noon_day : day := Day "1970-01-01" 1 2 (Some "10d") "Light Rain".

(** One day with samples at 00:00, 03:00, 06:00 and 09:00. *)
Definition morning_group : list sample :=
  [ sample_at 0 1 2 "02d" "few clouds";
    sample_at 10800 1 2 "01d" "clear sky";
    sample_at 21600 1 2 "01d" "clear sky";
    sample_at 32400 1 2 "02d" "few clouds" ].
Definition morning_day : day := Day "1970-01-01" 1 2 (Some "02d") "Few Clouds".

(** ** What an alerts endpoint answers *)

(** One [try] block of [alerts] with its [except: pass]. *)
Definition attempt (w : reply) : result (option json) :=
  try_except (alerts_attempt w) (fun _ => Ok None).

(** The endpoint answers 200 with an object whose ["alerts"] is the
    truthy value [v]. *)
Definition answers_present (w : reply) (v : json) : Prop :=
  exists r kv,
    w = Replied r /\ status_code r = 200 /\ json_body r = Ok (JObj kv) /\
    dict_get kv "alerts" = Some v /\ truthy v = true.

(** The endpoint answers 200 with an object that carries an empty
    ["alerts"] list. *)
Definition answers_empty_list (w : reply) : Prop :=
  exists r kv,
    w = Replied r /\ status_code r = 200 /\ json_body r = Ok (JObj kv) /\
    dict_get kv "alerts" = Some (JArr []).

(** The endpoint answers 200 with an object that has no ["alerts"]. *)
Definition answers_without_alerts (w : reply) : Prop :=
  exists r kv,
    w = Replied r /\ status_code r = 200 /\ json_body r = Ok (JObj kv) /\
    dict_get kv "alerts" = None.

(** Every other answer: a transport error, a status other than 200, a
    body that is not JSON or not an object, or an ["alerts"] that is
    falsy without being the empty list. *)
Definition answers_nothing (w : reply) : Prop :=
  (forall v, ~ answers_present w v) /\
  ~ answers_empty_list w /\ ~ answers_without_alerts w.

(** A One Call answer of the provider for a place without alerts. *)
Definition no_alerts_reply : reply :=
  Replied (Response 200 "OK"
    (Ok (JObj [("lat", JFloat (4885 # 100)); ("lon", JFloat (235 # 100));
               ("timezone", JStr "Europe/Paris"); ("timezone_offset", JInt 3600)]))).

(** ** The failures of the IP lookup *)

Inductive ip_failure : reply -> Prop :=
| ip_network_error e : ip_failure (Failed e)
| ip_error_status r :
    400 <= status_code r < 600 -> ip_failure (Replied r)
| ip_malformed_body r e :
    json_body r = Raise e -> ip_failure (Replied r)
| ip_not_an_object r j :
    json_body r = Ok j -> is_dict j = false -> ip_failure (Replied r)
| ip_missing_lat r kv :
    json_body r = Ok (JObj kv) -> dict_get kv "lat" = None -> ip_failure (Replied r)
| ip_null_lat r kv :
    json_body r = Ok (JObj kv) -> dict_get kv "lat" = Some JNull -> ip_failure (Replied r)
| ip_missing_lon r kv :
    json_body r = Ok (JObj kv) -> dict_get kv "lon" = None -> ip_failure (Replied r).

(** ** A failing step of a fetch sequence *)

(** The first step of [search_task] that raises, raises [e]. *)
Inductive search_step_raises (c : client) (units q : string) (e : exn) : Prop :=
| geocode_raises :
    c_geocode c q = Raise e -> search_step_raises c units q e
| current_raises lat lon label :
    c_geocode c q = Ok (lat, lon, label) ->
    c_current c lat lon units = Raise e -> search_step_raises c units q e
| forecast_raises lat lon label curr :
    c_geocode c q = Ok (lat, lon, label) ->
    c_current c lat lon units = Ok curr ->
    c_forecast_5day c lat lon units = Raise e -> search_step_raises c units q e
| alerts_raises lat lon label curr fc :
    c_geocode c q = Ok (lat, lon, label) ->
    c_current c lat lon units = Ok curr ->
    c_forecast_5day c lat lon units = Ok fc ->
    c_alerts c lat lon = Raise e -> search_step_raises c units q e.

(** Example replies. *)
Definition paris : list (string * json) :=
  [("name", JStr "Paris"); ("lat", JFloat (4885 # 100));
   ("lon", JFloat (235 # 100)); ("country", JStr "FR")].

Definition paris_no_country : list (string * json) :=
  [("name", JStr "Paris"); ("lat", JFloat (4885 # 100)); ("lon", JFloat (235 # 100))].

Definition paris_response : response :=
  Response 200 "OK" (Ok (JArr [JObj paris])).

Definition paris_no_country_response : response :=
  Response 200 "OK" (Ok (JArr [JObj paris_no_country])).

Definition no_match_response : response := Response 200 "OK" (Ok (JArr [])).

Definition paris_reply : reply := Replied paris_response.

Definition timeout_reply : reply := Failed (Exn RequestException "Read timed out.").

(** A network on which the geocoding answers and the current-conditions
    request times out. *)
Definition current_down : network :=
  {| geo_reply := fun _ => paris_reply;
     current_reply := fun _ _ _ => timeout_reply;
     forecast_reply := fun _ _ _ => timeout_reply;
     onecall30_reply := fun _ _ => timeout_reply;
     onecall25_reply := fun _ _ => timeout_reply;
     ipinfo_reply := timeout_reply |}.

(** ** Example files *)

Definition demo_app : QR.app nat :=
  QR.App nat (Some 7%nat) false " code " "PNG" "/out".

Definition demo_encode (format : string) (qr : nat) : string :=
  (format ++ " image")%string.

Definition demo_files : QR.filesystem :=
  [("/out/code.png", "first"); ("/out/code_1.png", "second");
   ("/out/code_3.png", "third")].

(** ** The calendar behind the date strings *)

(** The parts of [civil_from_days] within one 400-year era that starts on
    a 1 March: the year of the era that holds the day [doe], the first
    day of a year of the era, and the month and day of the month of the
    day [doy] of such a year. *)
Definition era_scaled (doe : Z) : Z := doe - doe / 1460 + doe / 36524 - doe / 146096.
Definition yoe_of (doe : Z) : Z := era_scaled doe / 365.
Definition start_of (yoe : Z) : Z := 365 * yoe + yoe / 4 - yoe / 100.
Definition md_of_doy (doy : Z) : Z * Z :=
  let mp := (5 * doy + 2) / 153 in
  (if mp <? 10 then mp + 3 else mp - 9, doy - (153 * mp + 2) / 5 + 1).

(** January and February belong to the next civil year. *)
Definition carry (m : Z) : Z := if m <=? 2 then 1 else 0.

Definition ymd_of_doe (doe : Z) : Z * Z * Z :=
  let yoe := yoe_of doe in
  let '(m, d) := md_of_doy (doe - start_of yoe) in
  (yoe + carry m, m, d).

(** Dates in chronological order. *)
Definition ymd_lt (a b : Z * Z * Z) : Prop :=
  let '(y, m, d) := a in
  let '(y', m', d') := b in
  y < y' \/ (y = y' /\ (m < m' \/ (m = m' /\ d < d'))).

Definition ymd_compare (a b : Z * Z * Z) : comparison :=
  let '(y, m, d) := a in
  let '(y', m', d') := b in
  match y ?= y' with
  | Eq => match m ?= m' with Eq => d ?= d' | c => c end
  | c => c
  end.

(** [P] on each of [lo, lo + 1, ..., lo + 2^depth - 1]. *)
Fixpoint all_in (depth : nat) (lo : Z) (P : Z -> bool) : bool :=
  match depth with
  | O => P lo
  | S n => all_in n lo P && all_in n (lo + 2 ^ Z.of_nat n) P
  end.

(** The first and the last day of the year [y] of an era are in year
    [y]. *)
Definition year_ends_ok (y : Z) : bool :=
  if y <? 400
  then (yoe_of (start_of y) =? y) && (yoe_of (start_of (y + 1) - 1) =? y)
  else true.

(** Months and days of the month have their ranges, and within a year of
    the era the next day is later in the civil calendar. *)
Definition year_day_ok (doy : Z) : bool :=
  if doy <? 366 then
    let '(m, d) := md_of_doy doy in
    (1 <=? m) && (m <=? 12) && (1 <=? d) && (d <=? 31) &&
    (if doy <? 365 then
       let '(m', d') := md_of_doy (doy + 1) in
       match ymd_compare (carry m, m, d) (carry m', m', d') with
       | Lt => true
       | _ => false
       end
     else true)
  else true.

(** The UTC day number of a sample. *)
Definition utc_day (it : sample) : Z := dt it / 86400.

(** The first second of the year 1000: from then on the year has four
    digits. *)
Definition year_1000_timestamp : Z := -30610224000.

Definition four_digit_year (it : sample) : Prop := year_1000_timestamp <= dt it.

(** The samples of an earlier entry all lie on earlier UTC days than the
    samples of a later entry. *)
Definition chronological (items : list sample) (days : list day) : Prop :=
  StronglySorted
    (fun a b => forall s1 s2,
       In s1 (date_group (date a) items) -> In s2 (date_group (date b) items) ->
       utc_day s1 < utc_day s2)
    days.

(** A sample whose timestamp [datetime] does not represent. *)
Definition out_of_range (it : sample) : Prop :=
  dt it < min_timestamp \/ max_timestamp < dt it.

(** Samples of seven days, the last of them out of range. *)
Definition seven_days_one_unreadable : list sample :=
  six_days ++ [sample_at (max_timestamp + 1) 3 4 "01d" "clear sky"].

(** Two of four samples are clear, two have few clouds. *)
Definition mixed_group : list sample :=
  [ sample_at 0 1 2 "01d" "clear sky";
    sample_at 10800 1 2 "02d" "few clouds";
    sample_at 21600 1 2 "01n" "clear sky";
    sample_at 32400 1 2 "02d" "few clouds" ].

(** A current-conditions or forecast answer that carries no ["cod"]. *)
Definition no_cod_response : response :=
  Response 200 "OK" (Ok (JObj [("main", JObj [("temp", JFloat (45 # 10))])])).

(** A network whose geocoding endpoint refuses the key. *)
Definition unauthorized : network :=
  {| geo_reply := fun _ => Replied (Response 401 "401 Client Error: Unauthorized" (Raise (Exn ValueError "")));
     current_reply := fun _ _ _ => timeout_reply;
     forecast_reply := fun _ _ _ => timeout_reply;
     onecall30_reply := fun _ _ => timeout_reply;
     onecall25_reply := fun _ _ => timeout_reply;
     ipinfo_reply := timeout_reply |}.

(** A network on which every endpoint answers; the forecast payload is
    decoded to [six_days]. *)
Definition all_up : network :=
  {| geo_reply := fun _ => paris_reply;
     current_reply := fun _ _ _ => Replied no_cod_response;
     forecast_reply := fun _ _ _ =>
       Replied (Response 200 "OK" (Ok (JObj [("cod", JStr "200"); ("list", JArr [])])));
     onecall30_reply := fun _ _ => no_alerts_reply;
     onecall25_reply := fun _ _ => timeout_reply;
     ipinfo_reply := timeout_reply |}.

(** ** The window *)

(** An alert as the provider sends it: an object whose description, when
    it has one, is a text. *)
Definition alert_object (a : json) : Prop :=
  exists kv, a = JObj kv /\
    (dict_get kv "description" = None \/ exists s, dict_get kv "description" = Some (JStr s)).

(** A field of the current conditions that is missing or an object. *)
Definition absent_or_object (v : option json) : Prop :=
  match v with
  | None | Some (JObj _) => True
  | Some _ => False
  end.

(** The ["weather"] field is missing or falsy, or a list whose first
    element is an object with a textual description or none. *)
Definition absent_or_conditions (v : option json) : Prop :=
  match v with
  | None => True
  | Some w =>
      truthy w = false \/
      exists wkv rest, w = JArr (JObj wkv :: rest) /\
        (dict_get wkv "description" = None \/
         exists s, dict_get wkv "description" = Some (JStr s))
  end.

(** Current conditions that carry a temperature only. *)
Definition temp_only : list (string * json) :=
  [("main", JObj [("temp", JFloat (45 # 10))])].

(** February has 28 days, and a 29th on the last day of a year of the
    era only; the days of the other months are those of their month. *)
Definition month_length_ok (doy : Z) : bool :=
  if doy <? 366 then
    let '(m, d) := md_of_doy doy in
    if m =? 2 then (if doy <? 365 then d <=? 28 else d =? 29)
    else d <=? WeatherUI.days_in_month 1 m
  else true.

(** ** Saving and styling a QR image *)

(** [save_qr] called [n] times in a row, with the widgets unchanged and,
    at worst, within the same second. *)
Fixpoint save_times {image : Type} (encode : string -> image -> string)
  (a : QR.app image) (now : string) (n : nat) (fs : QR.filesystem) : option QR.filesystem :=
  match n with
  | O => Some fs
  | S k =>
      match QR.save_qr image encode a now None fs with
      | Some out => save_times encode a now k (QR.files out)
      | None => None
      end
  end.

(** [(x, y)] is a position that the loops of a style visit on [img]. *)
Definition grid_position (img : QR.picture) (module_size x y : Z) : Prop :=
  (0 <= x < QR.width img /\ x mod module_size = 0) /\
  (0 <= y < QR.height img /\ y mod module_size = 0).

(** The colours that the window starts with. *)
Definition default_qr_color : QR.rgb := (231, 76, 60).
Definition default_bg_color : QR.rgb := (255, 255, 255).

(** An image of 9 by 9 pixels in the default colours: three modules of
    3 by 3 pixels on the diagonal, in the QR colour. *)
Definition red_diagonal : QR.picture :=
  QR.Picture 9 9 (fun x y => if x / 3 =? y / 3 then default_qr_color else default_bg_color).

(** The same image drawn in black. *)
Definition black_diagonal : QR.picture :=
  QR.Picture 9 9 (fun x y => if x / 3 =? y / 3 then QR.black else default_bg_color).

(** The samples of [morning_group] in another order. *)
Definition morning_group_reordered : list sample :=
  [ sample_at 10800 1 2 "01d" "clear sky";
    sample_at 0 1 2 "02d" "few clouds";
    sample_at 21600 1 2 "01d" "clear sky";
    sample_at 32400 1 2 "02d" "few clouds" ].

(** A network on which the two alert endpoints time out. *)
Definition alerts_down : network :=
  {| geo_reply := fun _ => paris_reply;
     current_reply := fun _ _ _ => Replied (Response 200 "OK" (Ok (JObj temp_only)));
     forecast_reply := fun _ _ _ =>
       Replied (Response 200 "OK" (Ok (JObj [("cod", JStr "200"); ("list", JArr [])])));
     onecall30_reply := fun _ _ => timeout_reply;
     onecall25_reply := fun _ _ => timeout_reply;
     ipinfo_reply := timeout_reply |}.

Definition tie_group : list sample := [tie_sample].

(** A network whose current conditions carry the time zone as the
    provider sends it: an offset in seconds. *)
Definition offset_zone : network :=
  {| geo_reply := fun _ => paris_reply;
     current_reply := fun _ _ _ =>
       Replied (Response 200 "OK"
                  (Ok (JObj [("timezone", JInt 3600); ("cod", JInt 200)])));
     forecast_reply := fun _ _ _ =>
       Replied (Response 200 "OK" (Ok (JObj [("cod", JStr "200"); ("list", JArr [])])));
     onecall30_reply := fun _ _ => no_alerts_reply;
     onecall25_reply := fun _ _ => timeout_reply;
     ipinfo_reply := timeout_reply |}.

(** ** Replies that the IP lookup takes for a location *)

(** A 200 answer whose longitude is null. *)
Definition null_longitude_reply : reply :=
  Replied (Response 200 "OK"
    (Ok (JObj [("lat", JFloat (4885 # 100)); ("lon", JNull); ("city", JStr "Paris")]))).

(** A 302 answer, a redirection that is not followed, with coordinates
    in its body. *)
Definition redirected_reply : reply :=
  Replied (Response 302 "Found"
    (Ok (JObj [("lat", JFloat (4885 # 100)); ("lon", JFloat (235 # 100))]))).

(** ** The ends of a file name *)

Definition first_char (s : string) : option ascii :=
  match s with
  | String c _ => Some c
  | EmptyString => None
  end.

Fixpoint last_char (s : string) : option ascii :=
  match s with
  | EmptyString => None
  | String c EmptyString => Some c
  | String _ r => last_char r
  end.

(** Nothing but white space. *)
Definition blank (s : string) : Prop :=
  Forall (fun c => QR.is_space c = true) (list_ascii_of_string s).

(** A text of ASCII characters, on which [str.strip] removes the
    characters of [QR.is_space] and no other. *)
Definition ascii_text (s : string) : Prop :=
  Forall (fun c => (N_of_ascii c < 128)%N) (list_ascii_of_string s).

(** ** The order of the drawing *)

(** The order in which the loops of a style visit the positions
    [(x, y)] of the grid: row by row, and from left to right within a
    row. *)
Definition row_major (p q : Z * Z) : Prop :=
  snd p < snd q \/ (snd p = snd q /\ fst p < fst q).

(* ================================================================== *)
(** * Proofs *)
(* ================================================================== *)

(** ** The error monad *)

Lemma bind_ok {A B} (c : result A) (k : A -> result B) (b : B) :
  bind c k = Ok b -> exists a, c = Ok a /\ k a = Ok b.
Proof.
  destruct c as [a|e]; simpl; intros H; [exists a; auto | discriminate].
Qed.

(** Split a hypothesis [x <- c ;; k = Ok v] into its two steps. *)
Ltac bind_inv H :=
  let a := fresh "a" in
  let Ha := fresh "Hstep" in
  apply bind_ok in H; destruct H as (a & Ha & H).

Lemma traverse_ok {A B} (f : A -> result B) (l : list A) (ys : list B) :
  traverse f l = Ok ys -> Forall2 (fun x y => f x = Ok y) l ys.
Proof.
  revert ys; induction l as [|x r IH]; simpl; intros ys H.
  - injection H as <-. constructor.
  - bind_inv H. bind_inv H. injection H as <-. constructor; auto.
Qed.

Lemma traverse_total {A B} (f : A -> result B) (l : list A) :
  Forall (fun x => exists y, f x = Ok y) l -> exists ys, traverse f l = Ok ys.
Proof.
  induction 1 as [|x r (y & Hy) _ (ys & Hys)]; simpl.
  - now exists [].
  - exists (y :: ys). now rewrite Hy, Hys.
Qed.

(** ** The order on date strings *)

Lemma str_lt_trans a b c : str_lt a b = true -> str_lt b c = true -> str_lt a c = true.
Proof.
  unfold str_lt, String.ltb. intros H1 H2.
  assert (L1 : String.compare a b = Lt) by (destruct (String.compare a b); congruence).
  assert (L2 : String.compare b c = Lt) by (destruct (String.compare b c); congruence).
  apply String_as_OT.cmp_lt in L1, L2.
  assert (L3 := String_as_OT.lt_trans _ _ _ L1 L2).
  apply String_as_OT.cmp_lt in L3. unfold String_as_OT.cmp in L3. now rewrite L3.
Qed.

Lemma str_lt_irrefl a : str_lt a a = false.
Proof.
  unfold str_lt, String.ltb.
  assert (H := String.compare_antisym a a).
  destruct (String.compare a a); simpl in H; congruence.
Qed.

Lemma str_lt_connex a b : str_lt a b = false -> str_lt b a = false -> a = b.
Proof.
  unfold str_lt, String.ltb. rewrite (String.compare_antisym a b).
  destruct (String.compare b a) eqn:E; simpl; try discriminate.
  intros _ _. symmetry. now apply String.compare_eq_iff.
Qed.

(** ** Examples *)

Example title_examples :
  title "light rain" = "Light Rain" /\ title "they're HERE" = "They'Re Here".
Proof. split; reflexivity. Qed.

Example py_round_examples :
  py_round (5 # 2) = 2 /\ py_round (7 # 2) = 4 /\ py_round (-5 # 2) = -2 /\
  py_round (26 # 10) = 3 /\ py_round (-1 # 2) = 0 /\ py_round 3 = 3.
Proof. repeat split; reflexivity. Qed.

Example date_key_examples :
  date_key (sample_at 1700000000 0 0 "" "") = Ok "2023-11-14" /\
  hour_of (sample_at 1700000000 0 0 "" "") = Ok 22 /\
  date_key (sample_at 951782400 0 0 "" "") = Ok "2000-02-29" /\
  date_key (sample_at 4107542400 0 0 "" "") = Ok "2100-03-01" /\
  date_key (sample_at (-1) 0 0 "" "") = Ok "1969-12-31" /\
  date_key (sample_at min_timestamp 0 0 "" "") = Ok "1-01-01" /\
  date_key (sample_at max_timestamp 0 0 "" "") = Ok "9999-12-31".
Proof. repeat split; vm_compute; reflexivity. Qed.

Example most_common_examples :
  most_common_key ["02d"; "01d"; "01d"; "02d"] = Ok "02d" /\
  most_common_key ["02d"; "01d"; "01d"] = Ok "01d".
Proof. split; reflexivity. Qed.

(** Six dates in the input, the five earliest in the result. *)
Example aggregate_six_days :
  aggregate six_days =
  Ok [ Day "2023-11-13" (-3) (-1) (Some "13d") "Snow";
       Day "2023-11-14" 2 4 (Some "04d") "Broken Clouds";
       Day "2023-11-15" 0 8 (Some "10d") "Light Rain";
       Day "2023-11-16" 3 4 (Some "01d") "Clear Sky";
       Day "2023-11-17" 3 4 (Some "01d") "Clear Sky" ].
Proof. vm_compute. reflexivity. Qed.

Example aggregate_empty : aggregate [] = Ok [].
Proof. reflexivity. Qed.

Example alerts_examples :
  alerts timeout_reply timeout_reply = Ok JNull /\
  alerts timeout_reply no_alerts_reply = Ok (JArr []) /\
  alerts (Replied (Response 200 "OK" (Ok (JObj [("alerts", JArr [JStr "storm"])]))))
         timeout_reply = Ok (JArr [JStr "storm"]) /\
  alerts (Replied (Response 200 "OK" (Ok (JObj [("alerts", JNull)]))))
         (Replied (Response 401 "Unauthorized" (Ok (JObj [])))) = Ok JNull.
Proof. repeat split; reflexivity. Qed.

Example join_examples :
  QR.join "/home/u" "a.png" = "/home/u/a.png" /\
  QR.join "/home/u/" "a.png" = "/home/u/a.png" /\
  QR.join "" "a.png" = "a.png" /\
  QR.join "/home/u" "/tmp/a.png" = "/tmp/a.png".
Proof. repeat split; reflexivity. Qed.

Example save_qr_example :
  QR.save_qr nat demo_encode demo_app "20250101_120000" None demo_files =
  Some (QR.Outcome
          (demo_files ++ [("/out/code_2.png", "PNG image")])
          (Some "QR code saved to: code_2.png")
          (Some (QR.information "Success"
                   ("QR code saved successfully to:" ++ QR.newline ++ "/out/code_2.png")%string))).
Proof. vm_compute. reflexivity. Qed.

(** ** Sorting by date *)

Lemma insert_by_date_perm d l : Permutation (insert_by_date d l) (d :: l).
Proof.
  induction l as [|e r IH]; simpl.
  - reflexivity.
  - destruct (str_lt (date d) (date e)).
    + reflexivity.
    + rewrite IH. apply perm_swap.
Qed.

Lemma insert_by_date_sorted d l :
  StronglySorted date_le l -> StronglySorted date_le (insert_by_date d l).
Proof.
  induction 1 as [|e r Hr IH He]; simpl.
  - repeat constructor.
  - destruct (str_lt (date d) (date e)) eqn:E.
    + constructor; [constructor; assumption|].
      constructor.
      * unfold date_le. destruct (str_lt (date e) (date d)) eqn:E'; [|reflexivity].
        rewrite <- (str_lt_irrefl (date d)). symmetry.
        now apply str_lt_trans with (date e).
      * rewrite Forall_forall in *. intros x Hx. specialize (He x Hx).
        unfold date_le in *. destruct (str_lt (date x) (date d)) eqn:E'; [|reflexivity].
        rewrite <- He. symmetry. now apply str_lt_trans with (date d).
    + constructor; [assumption|].
      rewrite Forall_forall in *. intros x Hx.
      apply (Permutation_in _ (insert_by_date_perm d r)) in Hx.
      destruct Hx as [<-|Hx]; [exact E | now apply He].
Qed.

Lemma sort_from_perm l acc :
  Permutation (fold_left (fun acc d => insert_by_date d acc) l acc) (l ++ acc).
Proof.
  revert acc; induction l as [|d r IH]; simpl; intros acc.
  - reflexivity.
  - rewrite IH, insert_by_date_perm. symmetry. apply Permutation_middle.
Qed.

Lemma sort_from_sorted l acc :
  StronglySorted date_le acc ->
  StronglySorted date_le (fold_left (fun acc d => insert_by_date d acc) l acc).
Proof.
  revert acc; induction l as [|d r IH]; simpl; intros acc H.
  - assumption.
  - apply IH. now apply insert_by_date_sorted.
Qed.

Lemma sort_by_date_perm l : Permutation (sort_by_date l) l.
Proof.
  unfold sort_by_date. rewrite sort_from_perm. now rewrite app_nil_r.
Qed.

Lemma sort_by_date_sorted l : StronglySorted date_le (sort_by_date l).
Proof. apply sort_from_sorted. constructor. Qed.

Lemma sorted_distinct_increasing l :
  NoDup (map date l) -> StronglySorted date_le l -> dates_increasing l.
Proof.
  unfold dates_increasing.
  induction 2 as [|e r Hr IH He]; [constructor|].
  simpl in H. apply NoDup_cons_iff in H as [Hne Hnd].
  constructor; [now apply IH|].
  rewrite Forall_forall in *. intros x Hx. specialize (He x Hx). unfold date_le in He.
  destruct (str_lt (date e) (date x)) eqn:E; [reflexivity|].
  exfalso. apply Hne. rewrite (str_lt_connex _ _ E He). now apply in_map.
Qed.

Lemma In_firstn {A} n (l : list A) x : In x (firstn n l) -> In x l.
Proof.
  revert n; induction l as [|y r IH]; intros [|n]; simpl; try tauto.
  intros [->|H]; [now left | right; eauto].
Qed.

Lemma firstn_increasing n l : dates_increasing l -> dates_increasing (firstn n l).
Proof.
  unfold dates_increasing. intros H; revert n.
  induction H as [|e r Hr IH He]; intros [|n]; simpl; try constructor.
  - apply IH.
  - rewrite Forall_forall in *. intros x Hx. apply He.
    now apply (In_firstn n).
Qed.

Lemma firstn_NoDup {A} n (l : list A) : NoDup l -> NoDup (firstn n l).
Proof.
  intros H. rewrite <- (firstn_skipn n l) in H. now apply NoDup_app_remove_r in H.
Qed.

(** ** Grouping by date *)

Lemma bucket_append_keys k it b k' :
  In k' (map fst (bucket_append k it b)) <-> k' = k \/ In k' (map fst b).
Proof.
  induction b as [|[k0 its] r IH]; simpl.
  - intuition.
  - destruct (String.eqb k k0) eqn:E; simpl.
    + apply String.eqb_eq in E. subst. intuition.
    + rewrite IH. intuition.
Qed.

Lemma bucket_append_NoDup k it b :
  NoDup (map fst b) -> NoDup (map fst (bucket_append k it b)).
Proof.
  induction b as [|[k0 its] r IH]; simpl; intros H.
  - repeat constructor. intros [].
  - destruct (String.eqb k k0) eqn:E; simpl; [assumption|].
    apply NoDup_cons_iff in H as [Hn Hd]. constructor; [|now apply IH].
    rewrite bucket_append_keys. intros [->|Hin]; [|contradiction].
    now rewrite String.eqb_refl in E.
Qed.

Lemma bucket_of_append k it b k' :
  bucket_of (bucket_append k it b) k' =
  if String.eqb k k' then bucket_of b k' ++ [it] else bucket_of b k'.
Proof.
  induction b as [|[k0 its] r IH]; simpl.
  - rewrite (String.eqb_sym k' k). now destruct (String.eqb k k').
  - destruct (String.eqb k k0) eqn:E; simpl.
    + apply String.eqb_eq in E. subst k0.
      rewrite (String.eqb_sym k' k). now destruct (String.eqb k k').
    + destruct (String.eqb k' k0) eqn:E'; [|apply IH].
      apply String.eqb_eq in E'. subst k0. now rewrite E.
Qed.

Lemma bucket_of_In b k its :
  NoDup (map fst b) -> In (k, its) b -> bucket_of b k = its.
Proof.
  induction b as [|[k0 its0] r IH]; simpl; intros Hd H; [contradiction|].
  destruct H as [H|H].
  - injection H as -> ->. now rewrite String.eqb_refl.
  - apply NoDup_cons_iff in Hd as [Hn Hd].
    destruct (String.eqb k k0) eqn:E; [|now apply IH].
    apply String.eqb_eq in E. subst k0. exfalso. apply Hn.
    now apply (in_map fst) in H.
Qed.

Lemma date_group_cons k it items k0 :
  date_key it = Ok k0 ->
  date_group k (it :: items) =
  if String.eqb k0 k then it :: date_group k items else date_group k items.
Proof. unfold date_group, date_is; simpl. now intros ->. Qed.

Lemma group_into_spec items : forall b b',
  group_into b items = Ok b' ->
  NoDup (map fst b) ->
  NoDup (map fst b') /\
  (forall k, bucket_of b' k = bucket_of b k ++ date_group k items) /\
  (forall k, In k (map fst b') -> In k (map fst b) \/ date_group k items <> []).
Proof.
  induction items as [|it rest IH]; intros b b' H Hd; cbn [group_into] in H.
  - injection H as <-. repeat split; auto. intros k. cbn. now rewrite app_nil_r.
  - bind_inv H. rename a into k0.
    destruct (IH _ _ H (bucket_append_NoDup k0 it b Hd)) as (Hd' & Hb & Hk).
    repeat split; [assumption| |].
    + intros k. rewrite Hb, bucket_of_append, (date_group_cons _ _ _ _ Hstep).
      destruct (String.eqb k0 k); [now rewrite <- app_assoc | reflexivity].
    + intros k Hin. rewrite (date_group_cons _ _ _ _ Hstep).
      destruct (Hk k Hin) as [Hin'|Hne].
      * apply bucket_append_keys in Hin' as [->|Hin']; [|now left].
        right. now rewrite String.eqb_refl.
      * right. destruct (String.eqb k0 k); [discriminate | assumption].
Qed.

Lemma summarise_date k its d : summarise k its = Ok d -> date d = k.
Proof.
  unfold summarise. intros H.
  bind_inv H. bind_inv H. destruct a0 as [i ds].
  bind_inv H. bind_inv H. now injection H as <-.
Qed.

Lemma Forall2_In_r {A B} (R : A -> B -> Prop) l l' y :
  Forall2 R l l' -> In y l' -> exists x, In x l /\ R x y.
Proof.
  induction 1 as [|x y' l l' Hxy _ IH]; simpl; [tauto|].
  intros [<-|Hin]; [exists x; auto|].
  destruct (IH Hin) as (x' & ? & ?). exists x'; auto.
Qed.

Lemma summarised_dates buckets days :
  Forall2 (fun b d => summarise (fst b) (snd b) = Ok d) buckets days ->
  map date days = map fst buckets.
Proof.
  induction 1 as [|b d l l' H _ IH]; simpl; [reflexivity|].
  now rewrite IH, (summarise_date _ _ _ H).
Qed.

(** Every entry that [aggregate] returns is the summary of the samples
    of its date, and that group is not empty. *)
Lemma aggregate_entry items days d :
  aggregate items = Ok days -> In d days ->
  date_group (date d) items <> [] /\
  summarise (date d) (date_group (date d) items) = Ok d.
Proof.
  unfold aggregate, group_by_date. intros H Hin.
  bind_inv H. rename a into buckets. bind_inv H. rename a into days0.
  injection H as <-.
  apply (In_firstn 5 (sort_by_date days0)) in Hin. apply (Permutation_in _ (sort_by_date_perm days0)) in Hin.
  apply traverse_ok in Hstep0.
  destruct (Forall2_In_r _ _ _ _ Hstep0 Hin) as ([k its] & Hb & Hs). simpl in Hs.
  assert (Hk := summarise_date _ _ _ Hs). subst k.
  destruct (group_into_spec _ _ _ Hstep (NoDup_nil _)) as (Hd & Hbk & Hne).
  assert (E : its = date_group (date d) items).
  { rewrite <- (bucket_of_In _ _ _ Hd Hb). now rewrite Hbk. }
  subst its. split; [|assumption].
  destruct (Hne (date d)) as [[]|]; [|assumption].
  now apply (in_map fst) in Hb.
Qed.

Lemma aggregate_dates_NoDup items days :
  aggregate items = Ok days -> NoDup (map date days) /\ dates_increasing days.
Proof.
  unfold aggregate, group_by_date. intros H.
  bind_inv H. rename a into buckets. bind_inv H. rename a into days0.
  injection H as <-.
  apply traverse_ok, summarised_dates in Hstep0.
  destruct (group_into_spec _ _ _ Hstep (NoDup_nil _)) as (Hd & _).
  rewrite <- Hstep0 in Hd.
  assert (Hs : NoDup (map date (sort_by_date days0))).
  { eapply Permutation_NoDup; [|exact Hd].
    apply Permutation_map. symmetry. apply sort_by_date_perm. }
  change (NoDup (map date (firstn 5 (sort_by_date days0))) /\
          dates_increasing (firstn 5 (sort_by_date days0))).
  split.
  - rewrite <- firstn_map. now apply firstn_NoDup.
  - apply firstn_increasing, sorted_distinct_increasing; [assumption|].
    apply sort_by_date_sorted.
Qed.

(** ** [min], [max] and [round] *)

Lemma min_from_least xs : forall m, least (min_from m xs) (m :: xs).
Proof.
  induction xs as [|x r IH]; intros m; simpl.
  - split; [now left|]. intros y [<-|[]]. apply Qle_refl.
  - destruct (x ?= m)%Q eqn:E.
    + destruct (IH m) as [Hin Hle]. split.
      * destruct Hin as [<-|Hin]; [now left | now right; right].
      * intros y [<-|[<-|Hy]]; [apply Hle; now left| |apply Hle; now right].
        apply Qle_trans with m; [apply Hle; now left|].
        apply Qeq_alt in E. rewrite E. apply Qle_refl.
    + destruct (IH x) as [Hin Hle]. split.
      * destruct Hin as [<-|Hin]; [now right; left | now right; right].
      * intros y [<-|[<-|Hy]]; [|apply Hle; now left|apply Hle; now right].
        apply Qle_trans with x; [apply Hle; now left|].
        apply Qlt_le_weak. now apply Qlt_alt.
    + destruct (IH m) as [Hin Hle]. split.
      * destruct Hin as [<-|Hin]; [now left | now right; right].
      * intros y [<-|[<-|Hy]]; [apply Hle; now left| |apply Hle; now right].
        apply Qle_trans with m; [apply Hle; now left|].
        apply Qlt_le_weak. now apply Qgt_alt.
Qed.

Lemma max_from_greatest xs : forall m, greatest (max_from m xs) (m :: xs).
Proof.
  induction xs as [|x r IH]; intros m; simpl.
  - split; [now left|]. intros y [<-|[]]. apply Qle_refl.
  - destruct (x ?= m)%Q eqn:E.
    + destruct (IH m) as [Hin Hle]. split.
      * destruct Hin as [<-|Hin]; [now left | now right; right].
      * intros y [<-|[<-|Hy]]; [apply Hle; now left| |apply Hle; now right].
        apply Qle_trans with m; [|apply Hle; now left].
        apply Qeq_alt in E. rewrite E. apply Qle_refl.
    + destruct (IH m) as [Hin Hle]. split.
      * destruct Hin as [<-|Hin]; [now left | now right; right].
      * intros y [<-|[<-|Hy]]; [apply Hle; now left| |apply Hle; now right].
        apply Qle_trans with m; [|apply Hle; now left].
        apply Qlt_le_weak. now apply Qlt_alt.
    + destruct (IH x) as [Hin Hle]. split.
      * destruct Hin as [<-|Hin]; [now right; left | now right; right].
      * intros y [<-|[<-|Hy]]; [|apply Hle; now left|apply Hle; now right].
        apply Qle_trans with x; [|apply Hle; now left].
        apply Qlt_le_weak. now apply Qgt_alt.
Qed.

Lemma py_min_least xs m : py_min xs = Ok m -> least m xs.
Proof.
  destruct xs as [|x r]; simpl; [discriminate|].
  intros H; injection H as <-. apply min_from_least.
Qed.

Lemma py_max_greatest xs m : py_max xs = Ok m -> greatest m xs.
Proof.
  destruct xs as [|x r]; simpl; [discriminate|].
  intros H; injection H as <-. apply max_from_greatest.
Qed.

Lemma py_round_nearest x : nearest_ties_even x (py_round x).
Proof.
  unfold nearest_ties_even, py_round.
  assert (Hlo := Qfloor_le x). assert (Hhi := Qlt_floor x).
  rewrite inject_Z_plus in Hhi. change (inject_Z 1) with 1%Q in Hhi.
  destruct (x - inject_Z (Qfloor x) ?= 1 # 2)%Q eqn:E.
  - apply Qeq_alt in E.
    destruct (Z.even (Qfloor x)) eqn:Ev.
    + split; [lra | auto].
    + rewrite inject_Z_plus. change (inject_Z 1) with 1%Q. split; [lra|]. intros _.
      rewrite Z.even_add, Ev. reflexivity.
  - apply Qlt_alt in E. split; [lra | intros [H|H]; lra].
  - apply Qgt_alt in E. rewrite inject_Z_plus. change (inject_Z 1) with 1%Q. split; [lra | intros [H|H]; lra].
Qed.

(** ** The noon item *)

Lemma find_noon_some its s :
  find_noon its = Ok (Some s) ->
  exists pre post, its = pre ++ s :: post /\ hour_of s = Ok 12 /\
                   forall x, In x pre -> hour_of x <> Ok 12.
Proof.
  induction its as [|it rest IH]; simpl; intros H; [discriminate|].
  bind_inv H. rename a into h.
  destruct (h =? 12) eqn:E.
  - injection H as <-. apply Z.eqb_eq in E. subst h.
    exists [], rest. repeat split; auto.
  - destruct (IH H) as (pre & post & -> & Hs & Hpre).
    exists (it :: pre), post. repeat split; auto.
    intros x [<-|Hx]; [|now apply Hpre].
    rewrite Hstep. intros Heq. injection Heq as ->. discriminate.
Qed.

Lemma find_noon_none its :
  find_noon its = Ok None -> forall x, In x its -> hour_of x <> Ok 12.
Proof.
  induction its as [|it rest IH]; simpl; intros H x Hx; [contradiction|].
  bind_inv H. rename a into h.
  destruct (h =? 12) eqn:E; [discriminate|].
  destruct Hx as [<-|Hx]; [|now apply IH].
  rewrite Hstep. intros Heq. injection Heq as ->. discriminate.
Qed.

Lemma find_noon_first pre s post r :
  find_noon (pre ++ s :: post) = Ok r ->
  hour_of s = Ok 12 -> (forall x, In x pre -> hour_of x <> Ok 12) ->
  r = Some s.
Proof.
  intros H Hs Hpre.
  destruct r as [s'|].
  - apply find_noon_some in H as (pre' & post' & E & Hs' & Hpre').
    revert pre' E Hpre'. induction pre as [|x pre IH]; intros [|y pre'] E Hpre'.
    + simpl in E. now injection E as ->.
    + simpl in E. injection E as <- _. exfalso. apply (Hpre' s); [now left | assumption].
    + simpl in E. injection E as -> _. exfalso. apply (Hpre s'); [now left | assumption].
    + simpl in E. injection E as <- E. apply (IH (fun z Hz => Hpre z (or_intror Hz)) pre' E).
      intros z Hz. apply Hpre'. now right.
  - exfalso. apply (find_noon_none _ H s); [|assumption].
    apply in_or_app. right. now left.
Qed.

(** ** The loop body *)

(** What a successful [summarise] has computed, step by step. *)
Lemma summarise_inv k its d :
  summarise k its = Ok d ->
  exists noon lo hi,
    find_noon its = Ok noon /\
    match noon with
    | Some it =>
        exists c, weather0 it = Ok c /\
                  icon d = Some (icon_code c) /\ desc d = title (description c)
    | None =>
        exists conds,
          Forall2 (fun it c => weather0 it = Ok c) its conds /\
          (its <> [] ->
           exists i, most_common_key (map icon_code conds) = Ok i /\ icon d = Some i) /\
          (its <> [] ->
           most_common_key (map (fun c => title (description c)) conds) = Ok (desc d))
    end /\
    py_min (map temp_min its) = Ok lo /\
    py_max (map temp_max its) = Ok hi /\
    tmin d = py_round lo /\ tmax d = py_round hi.
Proof.
  unfold summarise. intros H.
  bind_inv H. rename a into noon. bind_inv H. destruct a as [i ds].
  bind_inv H. rename a into lo. bind_inv H. rename a into hi.
  injection H as <-. simpl.
  exists noon, lo, hi. repeat split; auto.
  destruct noon as [it|].
  - bind_inv Hstep0. injection Hstep0 as <- <-. now exists a.
  - bind_inv Hstep0. rename a into icons. bind_inv Hstep0. rename a into i'.
    bind_inv Hstep0. rename a into ds'. injection Hstep0 as <- <-.
    destruct its as [|it0 rest].
    + exists []. split; [constructor|]. split; intros E; now destruct E.
    + assert (Hc : exists conds, Forall2 (fun it c => weather0 it = Ok c) (it0 :: rest) conds
                /\ icons = map icon_code conds).
      { clear - Hstep3. revert icons Hstep3. generalize (it0 :: rest) as l.
        induction l as [|x r IH]; simpl; intros icons H.
        - injection H as <-. exists []. split; constructor.
        - bind_inv H. bind_inv Hstep. injection Hstep as <-.
          bind_inv H. injection H as <-.
          destruct (IH _ Hstep) as (conds & HF & ->).
          exists (a0 :: conds). split; [now constructor | reflexivity]. }
      destruct Hc as (conds & HF & ->).
      exists conds. split; [assumption|].
      bind_inv Hstep5. rename a into descs.
      assert (Hd : descs = map (fun c => title (description c)) conds).
      { clear - HF Hstep0. revert descs Hstep0. induction HF as [|x c l l' Hx _ IH]; simpl; intros descs H.
        - now injection H as <-.
        - bind_inv H. bind_inv Hstep. injection Hstep as <-.
          bind_inv H. injection H as <-.
          rewrite Hx in Hstep0. injection Hstep0 as <-.
          now rewrite (IH _ Hstep). }
      subst descs. split; intros _; [|assumption].
      destruct conds as [|c0 cr]; [inversion HF|].
      simpl in Hstep4. bind_inv Hstep4. injection Hstep4 as <-.
      now exists a.
Qed.

(** ** [Counter] and [most_common(1)] *)

Lemma counter_add_keys_In k c k' :
  In k' (map fst (counter_add k c)) <-> k' = k \/ In k' (map fst c).
Proof.
  induction c as [|[k0 n] r IH]; simpl.
  - intuition.
  - destruct (String.eqb k k0) eqn:E; simpl.
    + apply String.eqb_eq in E. subst. intuition.
    + rewrite IH. intuition.
Qed.

Lemma counter_add_fresh k c :
  ~ In k (map fst c) -> counter_add k c = c ++ [(k, 1%nat)].
Proof.
  induction c as [|[k0 n] r IH]; simpl; intros H; [reflexivity|].
  destruct (String.eqb k k0) eqn:E.
  - apply String.eqb_eq in E. subst. tauto.
  - rewrite IH; tauto.
Qed.

Lemma counter_add_keys_prefix k c :
  exists extra, map fst (counter_add k c) = map fst c ++ extra.
Proof.
  induction c as [|[k0 n] r (extra & IH)]; simpl.
  - now exists [k].
  - destruct (String.eqb k k0); simpl.
    + exists []. now rewrite app_nil_r.
    + exists extra. now rewrite IH.
Qed.

Lemma counter_add_NoDup k c :
  NoDup (map fst c) -> NoDup (map fst (counter_add k c)).
Proof.
  induction c as [|[k0 n] r IH]; simpl; intros H.
  - repeat constructor. intros [].
  - destruct (String.eqb k k0) eqn:E; simpl; [assumption|].
    apply NoDup_cons_iff in H as [Hn Hd]. constructor; [|now apply IH].
    rewrite counter_add_keys_In. intros [->|Hin]; [|contradiction].
    now rewrite String.eqb_refl in E.
Qed.

Lemma count_of_add k c k' :
  count_of (counter_add k c) k' =
  if String.eqb k k' then S (count_of c k') else count_of c k'.
Proof.
  induction c as [|[k0 n] r IH]; simpl.
  - rewrite (String.eqb_sym k' k). now destruct (String.eqb k k').
  - destruct (String.eqb k k0) eqn:E; simpl.
    + apply String.eqb_eq in E. subst k0.
      rewrite (String.eqb_sym k' k). now destruct (String.eqb k k').
    + destruct (String.eqb k' k0) eqn:E'; [|apply IH].
      apply String.eqb_eq in E'. subst k0. now rewrite E.
Qed.

Lemma count_cons x xs k :
  count k (x :: xs) = if String.eqb x k then S (count k xs) else count k xs.
Proof.
  unfold count. simpl. destruct (string_dec x k) as [->|N].
  - now rewrite String.eqb_refl.
  - apply String.eqb_neq in N. now rewrite N.
Qed.

Lemma add_all_keys_In xs : forall c k,
  In k (map fst (add_all xs c)) <-> In k (map fst c) \/ In k xs.
Proof.
  induction xs as [|x r IH]; intros c k; simpl.
  - tauto.
  - unfold add_all in *. simpl. rewrite IH, counter_add_keys_In. intuition.
Qed.

Lemma add_all_keys_prefix xs : forall c,
  exists extra, map fst (add_all xs c) = map fst c ++ extra.
Proof.
  induction xs as [|x r IH]; intros c; unfold add_all in *; simpl.
  - exists []. now rewrite app_nil_r.
  - destruct (IH (counter_add x c)) as (e1 & H1).
    destruct (counter_add_keys_prefix x c) as (e2 & H2).
    exists (e2 ++ e1). now rewrite H1, H2, app_assoc.
Qed.

Lemma add_all_NoDup xs : forall c,
  NoDup (map fst c) -> NoDup (map fst (add_all xs c)).
Proof.
  induction xs as [|x r IH]; intros c H; unfold add_all in *; simpl; auto.
  apply IH. now apply counter_add_NoDup.
Qed.

Lemma count_of_add_all xs : forall c k,
  count_of (add_all xs c) k = (count_of c k + count k xs)%nat.
Proof.
  induction xs as [|x r IH]; intros c k; unfold add_all in *; simpl fold_left.
  - unfold count. simpl. lia.
  - rewrite IH, count_of_add, count_cons. destruct (String.eqb x k); lia.
Qed.

Lemma count_of_In c k n :
  NoDup (map fst c) -> In (k, n) c -> count_of c k = n.
Proof.
  induction c as [|[k0 n0] r IH]; simpl; intros Hd H; [contradiction|].
  destruct H as [H|H].
  - injection H as -> ->. now rewrite String.eqb_refl.
  - apply NoDup_cons_iff in Hd as [Hn Hd].
    destruct (String.eqb k k0) eqn:E; [|now apply IH].
    apply String.eqb_eq in E. subst k0. exfalso. apply Hn.
    now apply (in_map fst) in H.
Qed.

(** The entry that [max] returns: no earlier entry reaches its count, no
    later entry exceeds it. *)
Lemma max_count_from_first c : forall best,
  exists pre post,
    best :: c = pre ++ max_count_from best c :: post /\
    (forall x, In x pre -> (snd x < snd (max_count_from best c))%nat) /\
    (forall x, In x post -> (snd x <= snd (max_count_from best c))%nat).
Proof.
  induction c as [|x r IH]; intros best; simpl.
  - exists [], []. repeat split; simpl; tauto.
  - destruct (snd best <? snd x)%nat eqn:E.
    + apply Nat.ltb_lt in E.
      destruct (IH x) as (pre & post & Heq & Hpre & Hpost).
      exists (best :: pre), post. split; [simpl; now rewrite <- Heq|].
      split; [|assumption].
      intros y [<-|Hy]; [|now apply Hpre].
      destruct pre as [|p pre'].
      * simpl in Heq. injection Heq as Heq _. rewrite <- Heq. assumption.
      * simpl in Heq. injection Heq as <- _.
        specialize (Hpre x (or_introl eq_refl)). lia.
    + apply Nat.ltb_ge in E.
      destruct (IH best) as (pre & post & Heq & Hpre & Hpost).
      destruct pre as [|p pre'].
      * simpl in Heq. injection Heq as Hb Hr.
        exists [], (x :: r). split; [simpl; now rewrite <- Hb|].
        split; [intros y []|]. rewrite <- Hb.
        intros y [<-|Hy]; [assumption|]. rewrite Hb. apply Hpost. now rewrite <- Hr.
      * simpl in Heq. injection Heq as <- Hr.
        exists (best :: x :: pre'), post. split; [simpl; now rewrite <- Hr|].
        split; [|assumption].
        assert (Hb := Hpre best (or_introl eq_refl)).
        intros y [<-|[<-|Hy]]; [assumption|lia|]. apply Hpre. now right.
Qed.

Lemma in_split_first (a : string) xs :
  In a xs -> exists pre post, xs = pre ++ a :: post /\ ~ In a pre.
Proof.
  induction xs as [|x r IH]; simpl; [tauto|]. intros H.
  destruct (string_dec x a) as [->|N].
  - exists [], r. split; [reflexivity | tauto].
  - destruct H as [H|H]; [contradiction|].
    destruct (IH H) as (pre & post & -> & Hn).
    exists (x :: pre), post. split; [reflexivity|]. simpl. tauto.
Qed.

Lemma app_cons_unique {A} (a : A) l1 l2 l1' l2' :
  l1 ++ a :: l2 = l1' ++ a :: l2' -> ~ In a l1 -> ~ In a l1' -> l1 = l1'.
Proof.
  revert l1'. induction l1 as [|x r IH]; intros [|y r'] E H1 H2; simpl in *.
  - reflexivity.
  - injection E as -> _. tauto.
  - injection E as -> _. tauto.
  - injection E as -> E. f_equal. apply IH with (1 := E); tauto.
Qed.

Lemma most_common_key_spec xs a :
  most_common_key xs = Ok a -> most_frequent_first a xs.
Proof.
  unfold most_common_key, most_common_1. intros H. bind_inv H. injection H as <-.
  rename a0 into m.
  change (Counter xs) with (add_all xs []) in Hstep.
  assert (Hd : NoDup (map fst (add_all xs []))) by (apply add_all_NoDup; constructor).
  assert (Hcnt : forall k n, In (k, n) (add_all xs []) -> n = count k xs).
  { intros k n Hin. rewrite <- (count_of_In _ _ _ Hd Hin). now rewrite count_of_add_all. }
  destruct (add_all xs []) as [|x r] eqn:Ec; [discriminate|].
  simpl in Hstep. injection Hstep as Hm.
  destruct (max_count_from_first r x) as (cpre & cpost & Heq & Hpre & Hpost).
  rewrite Hm in Heq, Hpre, Hpost. rewrite Heq in Hd, Hcnt. clear Hm.
  destruct m as [a n]. simpl in *.
  assert (Hn : n = count a xs).
  { apply Hcnt. apply in_or_app. right. now left. }
  assert (Hkeys : forall k, In k xs <-> In k (map fst (cpre ++ (a, n) :: cpost))).
  { intros k. rewrite <- Heq, <- Ec, add_all_keys_In. simpl. tauto. }
  assert (Ha : In a xs).
  { apply Hkeys. rewrite map_app. apply in_or_app. right. now left. }
  destruct (in_split_first _ _ Ha) as (pre & post & Exs & Hnpre).
  exists pre, post. split; [assumption|]. split; [assumption|].
  assert (Hmax : forall b, (count b xs <= count a xs)%nat).
  { intros b. destruct (in_dec string_dec b xs) as [Hb|Hb].
    - apply Hkeys in Hb. apply in_map_iff in Hb as ([b' nb] & Eb & Hb). simpl in Eb. subst b'.
      rewrite <- (Hcnt _ _ Hb), <- Hn.
      apply in_app_or in Hb as [Hb|[Hb|Hb]].
      + apply Nat.lt_le_incl. apply (Hpre _ Hb).
      + injection Hb as _ <-. lia.
      + apply (Hpost _ Hb).
    - unfold count at 1. rewrite (proj1 (count_occ_not_In string_dec xs b) Hb). lia. }
  split; [assumption|].
  intros b Hb.
  assert (Hp : map fst cpre = map fst (add_all pre [])).
  { assert (E1 : add_all xs [] = add_all post (add_all pre [] ++ [(a, 1%nat)])).
    { rewrite Exs. unfold add_all. rewrite fold_left_app. simpl.
      f_equal. apply counter_add_fresh.
      intros Hin. apply Hnpre. apply (add_all_keys_In pre [] a) in Hin. simpl in Hin. tauto. }
    destruct (add_all_keys_prefix post (add_all pre [] ++ [(a, 1%nat)])) as (extra & E2).
    rewrite <- E1, Ec, Heq in E2. rewrite !map_app in E2. simpl in E2.
    rewrite <- app_assoc in E2. simpl in E2.
    apply app_cons_unique in E2; [assumption| |].
    - rewrite map_app in Hd. simpl in Hd. apply NoDup_remove_2 in Hd.
      intros Hin. apply Hd. apply in_or_app. now left.
    - intros Hin. apply Hnpre. apply (add_all_keys_In pre [] a) in Hin. simpl in Hin. tauto. }
  assert (Hbk : In b (map fst cpre)).
  { rewrite Hp. apply add_all_keys_In. now right. }
  apply in_map_iff in Hbk as ([b' nb] & Eb & Hbin). simpl in Eb. subst b'.
  assert (Hnb : nb = count b xs).
  { apply Hcnt. apply in_or_app. now left. }
  rewrite <- Hnb, <- Hn. apply (Hpre _ Hbin).
Qed.

Lemma most_common_key_total xs : xs <> [] -> exists a, most_common_key xs = Ok a.
Proof.
  intros Hne. unfold most_common_key, most_common_1.
  destruct (Counter xs) as [|x r] eqn:E.
  - exfalso. destruct xs as [|y ys]; [now apply Hne|].
    assert (H : In y (map fst (add_all (y :: ys) []))).
    { apply add_all_keys_In. right. now left. }
    change (add_all (y :: ys) []) with (Counter (y :: ys)) in H. now rewrite E in H.
  - simpl. eauto.
Qed.

(** ** The aggregation returns on readable samples *)

Lemma utcfromtimestamp_total t :
  min_timestamp <= t <= max_timestamp -> exists d, utcfromtimestamp t = Ok d.
Proof.
  intros [H1 H2]. unfold utcfromtimestamp.
  apply Z.leb_le in H1, H2. rewrite H1, H2. simpl.
  destruct (civil_from_days (t / 86400)) as [[y m] d]. eauto.
Qed.

Lemma readable_date_key it : readable it -> exists k, date_key it = Ok k.
Proof.
  intros [H _]. unfold date_key.
  destruct (utcfromtimestamp_total _ H) as (d & ->). simpl. eauto.
Qed.

Lemma readable_hour_of it : readable it -> exists h, hour_of it = Ok h.
Proof.
  intros [H _]. unfold hour_of.
  destruct (utcfromtimestamp_total _ H) as (d & ->). simpl. eauto.
Qed.

Lemma readable_weather0 it : readable it -> exists c, weather0 it = Ok c.
Proof.
  intros [_ H]. unfold weather0. destruct (weather it) as [|c r]; [congruence|].
  simpl. eauto.
Qed.

Lemma group_into_total items :
  Forall readable items -> forall b, exists b', group_into b items = Ok b'.
Proof.
  induction 1 as [|it rest Hit _ IH]; intros b; simpl.
  - eauto.
  - destruct (readable_date_key _ Hit) as (k & ->). simpl. apply IH.
Qed.

Lemma find_noon_total its :
  Forall readable its -> exists r, find_noon its = Ok r.
Proof.
  induction 1 as [|it rest Hit _ (r & IH)]; simpl.
  - eauto.
  - destruct (readable_hour_of _ Hit) as (h & ->). simpl.
    destruct (h =? 12); eauto.
Qed.

Lemma summarise_total k its :
  its <> [] -> Forall readable its -> exists d, summarise k its = Ok d.
Proof.
  intros Hne Hr. unfold summarise.
  destruct (find_noon_total _ Hr) as (noon & Hnoon). rewrite Hnoon. cbn [bind].
  assert (Hmin : exists lo, py_min (map temp_min its) = Ok lo).
  { destruct its; [congruence|]. simpl. eauto. }
  assert (Hmax : exists hi, py_max (map temp_max its) = Ok hi).
  { destruct its; [congruence|]. simpl. eauto. }
  destruct Hmin as (lo & ->), Hmax as (hi & ->).
  destruct noon as [s|].
  - apply find_noon_some in Hnoon as (pre & post & E & _).
    assert (Hs : readable s).
    { rewrite Forall_forall in Hr. apply Hr. rewrite E. apply in_or_app. right. now left. }
    destruct (readable_weather0 _ Hs) as (c & ->). cbn. eauto.
  - assert (Hi : exists icons,
               traverse (fun it => c <- weather0 it ;; Ok (icon_code c)) its = Ok icons).
    { apply traverse_total. eapply Forall_impl; [|exact Hr]. intros it Hit.
      destruct (readable_weather0 _ Hit) as (c & ->). cbn. eauto. }
    assert (Hd : exists ds,
               traverse (fun it => c <- weather0 it ;; Ok (title (description c))) its = Ok ds).
    { apply traverse_total. eapply Forall_impl; [|exact Hr]. intros it Hit.
      destruct (readable_weather0 _ Hit) as (c & ->). cbn. eauto. }
    destruct Hi as (icons & Hi), Hd as (ds & Hd). rewrite Hi.
    assert (Hin := traverse_ok _ _ _ Hi). assert (Hdn := traverse_ok _ _ _ Hd).
    destruct its as [|it0 rest]; [congruence|].
    rewrite Hd. inversion Hin; subst. inversion Hdn; subst.
    destruct (most_common_key_total (y :: l')) as (i & Ei); [discriminate|].
    destruct (most_common_key_total (y0 :: l'0)) as (dd & Ed); [discriminate|].
    cbn [bind]. rewrite Ei. cbn [bind]. rewrite Ed. cbn. eauto.
Qed.

Lemma date_group_incl k items : incl (date_group k items) items.
Proof. intros x Hx. unfold date_group in Hx. now apply filter_In in Hx. Qed.

Lemma aggregate_total items :
  Forall readable items -> exists days, aggregate items = Ok days.
Proof.
  intros Hr. unfold aggregate, group_by_date.
  destruct (group_into_total _ Hr []) as (buckets & Hb). rewrite Hb. cbn [bind].
  destruct (group_into_spec _ _ _ Hb (NoDup_nil _)) as (Hd & Hbk & Hne).
  assert (Ht : exists days, traverse (fun b => summarise (fst b) (snd b)) buckets = Ok days).
  { apply traverse_total. apply Forall_forall. intros [k its] Hin. simpl.
    assert (E : its = date_group k items).
    { rewrite <- (bucket_of_In _ _ _ Hd Hin). now rewrite Hbk. }
    apply summarise_total.
    - subst its. destruct (Hne k) as [[]|]; [|assumption].
      now apply (in_map fst) in Hin.
    - subst its. rewrite Forall_forall in *. intros x Hx. apply Hr.
      now apply (date_group_incl k). }
  destruct Ht as (days & ->). cbn [bind]. eauto.
Qed.

(** ** The calendar: a later day has a later date *)

Lemma all_in_spec depth P : forall lo,
  all_in depth lo P = true ->
  forall z, lo <= z < lo + 2 ^ Z.of_nat depth -> P z = true.
Proof.
  induction depth as [|n IH]; intros lo H z Hz.
  - simpl in *. replace z with lo by lia. assumption.
  - cbn [all_in] in H. apply andb_prop in H as [H1 H2].
    rewrite Nat2Z.inj_succ, Z.pow_succ_r in Hz by lia.
    destruct (Z_lt_ge_dec z (lo + 2 ^ Z.of_nat n)).
    + apply (IH lo H1). lia.
    + apply (IH _ H2). lia.
Qed.

Lemma year_ends_ok_all : all_in 9 0 year_ends_ok = true.
Proof. vm_compute. reflexivity. Qed.

Lemma year_day_ok_all : all_in 9 0 year_day_ok = true.
Proof. vm_compute. reflexivity. Qed.

Lemma year_ends y :
  0 <= y < 400 ->
  yoe_of (start_of y) = y /\ yoe_of (start_of (y + 1) - 1) = y.
Proof.
  intros H.
  assert (Hok := all_in_spec 9 year_ends_ok 0 year_ends_ok_all y).
  change (2 ^ Z.of_nat 9) with 512 in Hok. specialize (Hok ltac:(lia)).
  unfold year_ends_ok in Hok.
  destruct (y <? 400) eqn:E; [|apply Z.ltb_ge in E; lia].
  apply andb_prop in Hok as [H1 H2]. apply Z.eqb_eq in H1, H2. auto.
Qed.

Lemma era_scaled_step x : 0 <= x -> era_scaled x <= era_scaled (x + 1).
Proof. intros H. unfold era_scaled. Z.div_mod_to_equations; lia. Qed.

Lemma era_scaled_mono a b : 0 <= a <= b -> era_scaled a <= era_scaled b.
Proof.
  intros [Ha Hab]. replace b with (a + Z.of_nat (Z.to_nat (b - a))) by lia.
  generalize (Z.to_nat (b - a)) as k. intros k. induction k as [|k IH].
  - rewrite Z.add_0_r. lia.
  - replace (a + Z.of_nat (S k)) with (a + Z.of_nat k + 1) by lia.
    apply Z.le_trans with (1 := IH). apply era_scaled_step. lia.
Qed.

Lemma yoe_of_mono a b : 0 <= a <= b -> yoe_of a <= yoe_of b.
Proof.
  intros H. unfold yoe_of. apply Z.div_le_mono; [lia|]. now apply era_scaled_mono.
Qed.

Lemma start_of_step y : 0 <= y -> 365 <= start_of (y + 1) - start_of y <= 366.
Proof. intros H. unfold start_of. Z.div_mod_to_equations; lia. Qed.

Lemma start_of_nonneg y : 0 <= y -> 0 <= start_of y.
Proof. intros H. unfold start_of. Z.div_mod_to_equations; lia. Qed.

Lemma start_of_mono y y' : 0 <= y <= y' -> start_of y <= start_of y'.
Proof.
  intros [Hy Hyy]. replace y' with (y + Z.of_nat (Z.to_nat (y' - y))) by lia.
  generalize (Z.to_nat (y' - y)) as k. intros k. induction k as [|k IH].
  - rewrite Z.add_0_r. lia.
  - replace (y + Z.of_nat (S k)) with (y + Z.of_nat k + 1) by lia.
    assert (S := start_of_step (y + Z.of_nat k) ltac:(lia)). lia.
Qed.

Lemma yoe_of_range doe : 0 <= doe <= 146096 -> 0 <= yoe_of doe <= 399.
Proof.
  intros H. split.
  - change 0 with (yoe_of 0) at 1. apply yoe_of_mono. lia.
  - change 399 with (yoe_of 146096). apply yoe_of_mono. lia.
Qed.

(** A day of the era lies within the year that [yoe_of] gives it. *)
Lemma doy_range doe :
  0 <= doe <= 146096 ->
  start_of (yoe_of doe) <= doe /\
  (yoe_of doe < 399 -> doe < start_of (yoe_of doe + 1)) /\
  doe - start_of (yoe_of doe) <= 365.
Proof.
  intros H. assert (Hy := yoe_of_range doe H).
  assert (A : start_of (yoe_of doe) <= doe).
  { destruct (Z_le_gt_dec (start_of (yoe_of doe)) doe) as [|G]; [assumption|]. exfalso.
    assert (Hpos : 1 <= yoe_of doe).
    { destruct (Z.eq_dec (yoe_of doe) 0) as [E|]; [|lia].
      rewrite E in G. change (start_of 0) with 0 in G. lia. }
    destruct (year_ends (yoe_of doe - 1) ltac:(lia)) as [_ E].
    replace (yoe_of doe - 1 + 1) with (yoe_of doe) in E by lia.
    assert (M := yoe_of_mono doe (start_of (yoe_of doe) - 1) ltac:(lia)). lia. }
  assert (B : yoe_of doe < 399 -> doe < start_of (yoe_of doe + 1)).
  { intros N.
    destruct (Z_lt_ge_dec doe (start_of (yoe_of doe + 1))) as [|G]; [assumption|]. exfalso.
    destruct (year_ends (yoe_of doe + 1) ltac:(lia)) as [E _].
    assert (P := start_of_nonneg (yoe_of doe + 1) ltac:(lia)).
    assert (M := yoe_of_mono (start_of (yoe_of doe + 1)) doe ltac:(lia)). lia. }
  split; [assumption|]. split; [assumption|].
  destruct (Z.eq_dec (yoe_of doe) 399) as [E|N].
  - rewrite E. change (start_of 399) with 145731. lia.
  - assert (S := start_of_step (yoe_of doe) ltac:(lia)). specialize (B ltac:(lia)). lia.
Qed.

Lemma year_day_ok_spec doy :
  0 <= doy < 366 ->
  let '(m, d) := md_of_doy doy in
  1 <= m <= 12 /\ 1 <= d <= 31 /\
  (doy < 365 ->
   let '(m', d') := md_of_doy (doy + 1) in
   ymd_lt (carry m, m, d) (carry m', m', d')).
Proof.
  intros H.
  assert (Hok := all_in_spec 9 year_day_ok 0 year_day_ok_all doy).
  change (2 ^ Z.of_nat 9) with 512 in Hok. specialize (Hok ltac:(lia)).
  unfold year_day_ok in Hok.
  destruct (doy <? 366) eqn:E; [|apply Z.ltb_ge in E; lia].
  destruct (md_of_doy doy) as [m d].
  repeat (apply andb_prop in Hok as [Hok ?]).
  split; [lia|]. split; [lia|]. intros Hlt.
  destruct (doy <? 365) eqn:E'; [|apply Z.ltb_ge in E'; lia].
  destruct (md_of_doy (doy + 1)) as [m' d'].
  destruct (ymd_compare (carry m, m, d) (carry m', m', d')) eqn:Ec; try discriminate.
  unfold ymd_compare in Ec. unfold ymd_lt.
  destruct (Z.compare_spec (carry m) (carry m')), (Z.compare_spec m m'),
    (Z.compare_spec d d'); try discriminate; lia.
Qed.

Lemma ymd_next_in_era doe :
  0 <= doe < 146096 -> ymd_lt (ymd_of_doe doe) (ymd_of_doe (doe + 1)).
Proof.
  intros H. unfold ymd_of_doe.
  destruct (doy_range doe ltac:(lia)) as (R1 & R2 & R3).
  destruct (doy_range (doe + 1) ltac:(lia)) as (R1' & R2' & R3').
  assert (Y := yoe_of_range doe ltac:(lia)).
  assert (Y' := yoe_of_range (doe + 1) ltac:(lia)).
  assert (M := yoe_of_mono doe (doe + 1) ltac:(lia)).
  destruct (Z.eq_dec (yoe_of (doe + 1)) (yoe_of doe)) as [E|N].
  - rewrite E in *.
    assert (D := year_day_ok_spec (doe - start_of (yoe_of doe)) ltac:(lia)).
    replace (doe + 1 - start_of (yoe_of doe)) with (doe - start_of (yoe_of doe) + 1) by lia.
    destruct (md_of_doy (doe - start_of (yoe_of doe))) as [m d].
    destruct D as (_ & _ & D). specialize (D ltac:(lia)).
    destruct (md_of_doy (doe - start_of (yoe_of doe) + 1)) as [m' d'].
    unfold ymd_lt in *. lia.
  - assert (G := start_of_mono (yoe_of doe + 1) (yoe_of (doe + 1)) ltac:(lia)).
    specialize (R2 ltac:(lia)).
    replace (doe + 1 - start_of (yoe_of (doe + 1))) with 0 by lia.
    change (md_of_doy 0) with (3, 1).
    destruct (md_of_doy (doe - start_of (yoe_of doe))) as [m d].
    unfold ymd_lt, carry. simpl.
    destruct (m <=? 2) eqn:Em; [apply Z.leb_le in Em|]; lia.
Qed.

Lemma civil_from_days_era days :
  civil_from_days days =
  let '(y, m, d) := ymd_of_doe ((days + 719468) mod 146097) in
  (y + 400 * ((days + 719468) / 146097), m, d).
Proof.
  cbv beta iota zeta
    delta [civil_from_days ymd_of_doe yoe_of era_scaled start_of md_of_doy carry].
  replace (days + 719468 - (days + 719468) / 146097 * 146097)
    with ((days + 719468) mod 146097) by (rewrite Z.mod_eq; lia).
  f_equal. f_equal. lia.
Qed.

Lemma ymd_compare_lt a b : ymd_compare a b = Lt <-> ymd_lt a b.
Proof.
  destruct a as [[y m] d], b as [[y' m'] d']. unfold ymd_compare, ymd_lt.
  destruct (Z.compare_spec y y'), (Z.compare_spec m m'), (Z.compare_spec d d');
    split; intros Hx; try reflexivity; try discriminate; lia.
Qed.

Lemma ymd_lt_trans a b c : ymd_lt a b -> ymd_lt b c -> ymd_lt a c.
Proof.
  destruct a as [[y m] d], b as [[y' m'] d'], c as [[y'' m''] d'']. unfold ymd_lt. lia.
Qed.

Lemma civil_next_day n : ymd_lt (civil_from_days n) (civil_from_days (n + 1)).
Proof.
  rewrite !civil_from_days_era.
  set (z := n + 719468). replace (n + 1 + 719468) with (z + 1) by (unfold z; lia).
  assert (Hm : 0 <= z mod 146097 < 146097) by (apply Z.mod_pos_bound; lia).
  destruct (Z.eq_dec (z mod 146097) 146096) as [E|N].
  - assert (E1 : (z + 1) mod 146097 = 0) by (Z.div_mod_to_equations; lia).
    assert (E2 : (z + 1) / 146097 = z / 146097 + 1) by (Z.div_mod_to_equations; lia).
    rewrite E, E1, E2.
    change (ymd_of_doe 146096) with (400, 2, 29). change (ymd_of_doe 0) with (0, 3, 1).
    unfold ymd_lt. lia.
  - assert (E1 : (z + 1) mod 146097 = z mod 146097 + 1) by (Z.div_mod_to_equations; lia).
    assert (E2 : (z + 1) / 146097 = z / 146097) by (Z.div_mod_to_equations; lia).
    rewrite E1, E2.
    assert (L := ymd_next_in_era (z mod 146097) ltac:(lia)).
    destruct (ymd_of_doe (z mod 146097)) as [[y m] d].
    destruct (ymd_of_doe (z mod 146097 + 1)) as [[y' m'] d'].
    unfold ymd_lt in *. lia.
Qed.

Lemma civil_increasing n1 n2 :
  n1 < n2 -> ymd_lt (civil_from_days n1) (civil_from_days n2).
Proof.
  intros H. replace n2 with (n1 + 1 + Z.of_nat (Z.to_nat (n2 - n1 - 1))) by lia.
  generalize (Z.to_nat (n2 - n1 - 1)) as k. clear. intros k.
  induction k as [|k IH].
  - rewrite Z.add_0_r. apply civil_next_day.
  - apply (ymd_lt_trans _ _ _ IH).
    replace (n1 + 1 + Z.of_nat (S k)) with (n1 + 1 + Z.of_nat k + 1) by lia.
    apply civil_next_day.
Qed.

Lemma civil_month_day n :
  let '(y, m, d) := civil_from_days n in 1 <= m <= 12 /\ 1 <= d <= 31.
Proof.
  rewrite civil_from_days_era.
  set (doe := (n + 719468) mod 146097).
  assert (Hm : 0 <= doe < 146097) by (apply Z.mod_pos_bound; lia).
  unfold ymd_of_doe.
  destruct (doy_range doe ltac:(lia)) as (R1 & _ & R3).
  assert (D := year_day_ok_spec (doe - start_of (yoe_of doe)) ltac:(lia)).
  destruct (md_of_doy (doe - start_of (yoe_of doe))) as [m d]. lia.
Qed.

Lemma civil_year_in_range n :
  min_timestamp / 86400 <= n <= max_timestamp / 86400 ->
  let '(y, m, d) := civil_from_days n in 1 <= y <= 9999.
Proof.
  intros [H1 H2].
  assert (L : n = min_timestamp / 86400 \/ min_timestamp / 86400 < n) by lia.
  assert (U : n = max_timestamp / 86400 \/ n < max_timestamp / 86400) by lia.
  assert (Lo : civil_from_days (min_timestamp / 86400) = (1, 1, 1)) by (vm_compute; reflexivity).
  assert (Hi : civil_from_days (max_timestamp / 86400) = (9999, 12, 31)) by (vm_compute; reflexivity).
  assert (A : let '(y, m, d) := civil_from_days n in 1 <= y).
  { destruct L as [->|L]; [rewrite Lo; lia|].
    apply civil_increasing in L. rewrite Lo in L.
    destruct (civil_from_days n) as [[y m] d]. unfold ymd_lt in L. lia. }
  assert (B : let '(y, m, d) := civil_from_days n in y <= 9999).
  { destruct U as [->|U]; [rewrite Hi; lia|].
    apply civil_increasing in U. rewrite Hi in U.
    destruct (civil_from_days n) as [[y m] d]. unfold ymd_lt in U. lia. }
  destruct (civil_from_days n) as [[y m] d]. lia.
Qed.

Lemma civil_year_four_digits n :
  year_1000_timestamp / 86400 <= n <= max_timestamp / 86400 ->
  let '(y, m, d) := civil_from_days n in 1000 <= y <= 9999.
Proof.
  intros [H1 H2].
  assert (R := civil_year_in_range n).
  assert (L : n = year_1000_timestamp / 86400 \/ year_1000_timestamp / 86400 < n) by lia.
  assert (Lo : civil_from_days (year_1000_timestamp / 86400) = (1000, 1, 1))
    by (vm_compute; reflexivity).
  assert (A : let '(y, m, d) := civil_from_days n in 1000 <= y).
  { destruct L as [->|L]; [rewrite Lo; lia|].
    apply civil_increasing in L. rewrite Lo in L.
    destruct (civil_from_days n) as [[y m] d]. unfold ymd_lt in L. lia. }
  assert (B : min_timestamp / 86400 <= n <= max_timestamp / 86400).
  { split; [|assumption]. apply Z.le_trans with (2 := H1). vm_compute. discriminate. }
  specialize (R B). destruct (civil_from_days n) as [[y m] d]. lia.
Qed.

(** ** Date strings order as days do *)

Lemma append_empty_r s : (s ++ "")%string = s.
Proof. induction s as [|c r IH]; simpl; [reflexivity | now rewrite IH]. Qed.

Lemma append_assoc a b c : ((a ++ b) ++ c)%string = (a ++ (b ++ c))%string.
Proof. induction a as [|x r IH]; simpl; [reflexivity | now rewrite IH]. Qed.

Lemma digit_char_compare a b :
  Ascii.compare (digit_char a) (digit_char b) = (a mod 10 ?= b mod 10).
Proof.
  unfold Ascii.compare, digit_char.
  assert (Ha : 0 <= a mod 10 < 10) by (apply Z.mod_pos_bound; lia).
  assert (Hb : 0 <= b mod 10 < 10) by (apply Z.mod_pos_bound; lia).
  rewrite !N_ascii_embedding by lia.
  rewrite Z2N.inj_compare by lia. apply Z.add_compare_mono_l.
Qed.

Lemma compare_cons c c' s t :
  String.compare (String c s) (String c' t) =
  match Ascii.compare c c' with
  | Eq => String.compare s t
  | Lt => Lt
  | Gt => Gt
  end.
Proof. reflexivity. Qed.

(** Fixed-width decimal numerals compare as the numbers they write. *)
Lemma dec_fixed_compare w : forall a b s t,
  0 <= a < 10 ^ Z.of_nat w -> 0 <= b < 10 ^ Z.of_nat w ->
  String.compare (dec_fixed w a ++ s) (dec_fixed w b ++ t) =
  match a ?= b with
  | Eq => String.compare s t
  | c => c
  end.
Proof.
  induction w as [|w IH]; intros a b s t Ha Hb.
  - simpl in *. replace a with 0 by lia. replace b with 0 by lia. reflexivity.
  - rewrite Nat2Z.inj_succ, Z.pow_succ_r in Ha, Hb by lia.
    cbn [dec_fixed]. rewrite !append_assoc. cbn [append].
    rewrite IH by (Z.div_mod_to_equations; lia).
    rewrite compare_cons, digit_char_compare.
    destruct (Z.compare_spec (a / 10) (b / 10)) as [E|E|E];
      destruct (Z.compare_spec (a mod 10) (b mod 10)) as [E'|E'|E'];
      destruct (Z.compare_spec a b) as [E''|E''|E'']; try reflexivity;
      exfalso; Z.div_mod_to_equations; lia.
Qed.

Lemma strftime_ymd_compare y m d h y' m' d' h' :
  1000 <= y < 10000 -> 0 <= m < 100 -> 0 <= d < 100 ->
  1000 <= y' < 10000 -> 0 <= m' < 100 -> 0 <= d' < 100 ->
  String.compare (strftime_ymd (Datetime y m d h)) (strftime_ymd (Datetime y' m' d' h'))
  = ymd_compare (y, m, d) (y', m', d').
Proof.
  intros Hy Hm Hd Hy' Hm' Hd'. unfold strftime_ymd, ymd_compare. cbn [year month mday].
  assert (F : forall z, 1000 <= z -> format_year z = dec_fixed 4 z).
  { intros z Hz. unfold format_year.
    destruct (z <? 10) eqn:E1; [apply Z.ltb_lt in E1; lia|].
    destruct (z <? 100) eqn:E2; [apply Z.ltb_lt in E2; lia|].
    destruct (z <? 1000) eqn:E3; [apply Z.ltb_lt in E3; lia|]. reflexivity. }
  rewrite !F by lia.
  rewrite (dec_fixed_compare 4) by (change (10 ^ Z.of_nat 4) with 10000; lia).
  destruct (y ?= y'); try reflexivity.
  cbn [append]. rewrite compare_cons. change (Ascii.compare "-" "-") with Eq. cbv iota.
  rewrite (dec_fixed_compare 2) by (change (10 ^ Z.of_nat 2) with 100; lia).
  destruct (m ?= m'); try reflexivity.
  cbn [append]. rewrite compare_cons. change (Ascii.compare "-" "-") with Eq. cbv iota.
  rewrite <- (append_empty_r (dec_fixed 2 d)), <- (append_empty_r (dec_fixed 2 d')).
  rewrite (dec_fixed_compare 2) by (change (10 ^ Z.of_nat 2) with 100; lia).
  now destruct (d ?= d').
Qed.

Lemma date_key_inv it k :
  date_key it = Ok k ->
  min_timestamp <= dt it <= max_timestamp /\
  exists y m d h,
    civil_from_days (utc_day it) = (y, m, d) /\ k = strftime_ymd (Datetime y m d h).
Proof.
  unfold date_key, utcfromtimestamp, utc_day. intros H.
  destruct ((min_timestamp <=? dt it) && (dt it <=? max_timestamp)) eqn:E; [|discriminate].
  apply andb_prop in E as [E1 E2]. apply Z.leb_le in E1, E2. split; [lia|].
  destruct (civil_from_days (dt it / 86400)) as [[y m] d]. simpl in H.
  injection H as <-. eexists _, _, _, _. split; reflexivity.
Qed.

Lemma ymd_lt_irrefl a : ~ ymd_lt a a.
Proof. destruct a as [[y m] d]. unfold ymd_lt. lia. Qed.

(** From the year 1000 on, the date strings of two samples compare as
    their UTC days. *)
Lemma date_key_order it1 it2 k1 k2 :
  four_digit_year it1 -> four_digit_year it2 ->
  date_key it1 = Ok k1 -> date_key it2 = Ok k2 ->
  (str_lt k1 k2 = true <-> utc_day it1 < utc_day it2).
Proof.
  unfold four_digit_year. intros F1 F2 H1 H2.
  apply date_key_inv in H1 as (R1 & y & m & d & h & C1 & ->).
  apply date_key_inv in H2 as (R2 & y' & m' & d' & h' & C2 & ->).
  assert (D1 : year_1000_timestamp / 86400 <= utc_day it1 <= max_timestamp / 86400).
  { unfold utc_day. split; apply Z.div_le_mono; lia. }
  assert (D2 : year_1000_timestamp / 86400 <= utc_day it2 <= max_timestamp / 86400).
  { unfold utc_day. split; apply Z.div_le_mono; lia. }
  assert (Y1 := civil_year_four_digits _ D1). assert (Y2 := civil_year_four_digits _ D2).
  assert (M1 := civil_month_day (utc_day it1)). assert (M2 := civil_month_day (utc_day it2)).
  rewrite C1 in Y1, M1. rewrite C2 in Y2, M2.
  unfold str_lt, String.ltb.
  rewrite strftime_ymd_compare by lia.
  assert (L : ymd_compare (y, m, d) (y', m', d') = Lt <-> utc_day it1 < utc_day it2).
  { rewrite ymd_compare_lt, <- C1, <- C2. split.
    - intros Hlt.
      destruct (Z_lt_ge_dec (utc_day it1) (utc_day it2)) as [|G]; [assumption|]. exfalso.
      assert (G' : utc_day it2 = utc_day it1 \/ utc_day it2 < utc_day it1) by lia.
      destruct G' as [G'|G'].
      + rewrite G' in Hlt. now apply ymd_lt_irrefl in Hlt.
      + apply civil_increasing in G'.
        apply (ymd_lt_irrefl _ (ymd_lt_trans _ _ _ Hlt G')).
    - apply civil_increasing. }
  rewrite <- L. destruct (ymd_compare (y, m, d) (y', m', d')); split; congruence.
Qed.

Lemma date_group_key k items s : In s (date_group k items) -> date_key s = Ok k.
Proof.
  unfold date_group, date_is. intros H. apply filter_In in H as [_ H].
  destruct (date_key s) as [k'|]; [|discriminate].
  apply String.eqb_eq in H. now subst.
Qed.

Lemma StronglySorted_impl {A} (R R' : A -> A -> Prop) l :
  (forall a b, In a l -> In b l -> R a b -> R' a b) ->
  StronglySorted R l -> StronglySorted R' l.
Proof.
  intros Himp H. induction H as [|x r Hr IH Hx]; constructor.
  - apply IH. intros a b Ha Hb. apply Himp; now right.
  - rewrite Forall_forall in *. intros y Hy. apply Himp; [now left | now right | auto].
Qed.

Lemma aggregate_chronological items days :
  Forall four_digit_year items ->
  aggregate items = Ok days -> chronological items days.
Proof.
  intros HF H. destruct (aggregate_dates_NoDup _ _ H) as [_ Hs].
  unfold chronological. eapply StronglySorted_impl; [|exact Hs].
  intros a b _ _ Hab s1 s2 H1 H2. cbv beta in Hab.
  rewrite Forall_forall in HF.
  assert (F1 := HF _ (date_group_incl _ _ _ H1)).
  assert (F2 := HF _ (date_group_incl _ _ _ H2)).
  apply date_group_key in H1, H2.
  now apply (date_key_order _ _ _ _ F1 F2 H1 H2).
Qed.

(** Before the year 1000 the strings do not follow the days: the last
    day of 999 sorts after the first day of 1000. *)
Example unpadded_year_order :
  date_key (sample_at (year_1000_timestamp - 1) 0 0 "" "") = Ok "999-12-31" /\
  date_key (sample_at year_1000_timestamp 0 0 "" "") = Ok "1000-01-01" /\
  str_lt "1000-01-01" "999-12-31" = true.
Proof. repeat split; vm_compute; reflexivity. Qed.

(** ** The forecast aggregation: the claims *)

(** C1.  Whatever the input list, the entries that the aggregation
    returns are at most 5, and their dates are pairwise distinct and
    increase strictly in the order of the date strings, by which the
    code sorts; for samples from the year 1000 on this is the order of
    the calendar (every sample of an earlier entry lies on an earlier UTC
    day than every sample of a later entry).  On every list of readable
    samples the aggregation does return. *)
Theorem aggregate_five_increasing (items : list sample) :
  (forall days, aggregate items = Ok days ->
     (List.length days <= 5)%nat /\ NoDup (map date days) /\
     dates_increasing days /\
     (Forall four_digit_year items -> chronological items days)) /\
  (Forall readable items -> exists days, aggregate items = Ok days).
Proof.
  split; [|apply aggregate_total].
  intros days H. destruct (aggregate_dates_NoDup _ _ H) as [Hd Hi].
  split; [|split; [assumption|split; [assumption|]]].
  - unfold aggregate in H. bind_inv H. bind_inv H. injection H as <-.
    apply (firstn_le_length 5).
  - intros HF. now apply aggregate_chronological.
Qed.

Lemma aggregate_five_increasing_witness :
  exists days,
    aggregate six_days = Ok days /\ Forall readable six_days /\
    (List.length days <= 5)%nat /\ NoDup (map date days) /\
    dates_increasing days /\ chronological six_days days.
Proof.
  eexists. split; [vm_compute; reflexivity|]. split.
  - unfold six_days, sample_at, readable, min_timestamp, max_timestamp.
    repeat constructor; simpl; try lia; discriminate.
  - match goal with
    | |- (List.length ?d <= 5)%nat /\ _ =>
        assert (H : aggregate six_days = Ok d) by (vm_compute; reflexivity)
    end.
    destruct (proj1 (aggregate_five_increasing six_days) _ H) as (H1 & H2 & H3 & H4).
    repeat split; try assumption. apply H4.
    unfold six_days, sample_at, four_digit_year, year_1000_timestamp.
    repeat constructor; simpl; lia.
Defined.

(** C3, as it holds.  For the entry of each date the group of that date
    is not empty, [tmin] is the least of the group's minimum temperatures
    and [tmax] the greatest of its maximum temperatures, each rounded to
    the nearest integer, a tie going to the even neighbour. *)
Theorem tmin_tmax_rounded_half_even items days d :
  aggregate items = Ok days -> In d days ->
  date_group (date d) items <> [] /\
  exists lo hi,
    least lo (map temp_min (date_group (date d) items)) /\
    greatest hi (map temp_max (date_group (date d) items)) /\
    tmin d = py_round lo /\ nearest_ties_even lo (tmin d) /\
    tmax d = py_round hi /\ nearest_ties_even hi (tmax d).
Proof.
  intros H Hin. destruct (aggregate_entry _ _ _ H Hin) as [Hne Hs].
  split; [assumption|].
  destruct (summarise_inv _ _ _ Hs) as (noon & lo & hi & _ & _ & Hlo & Hhi & E1 & E2).
  exists lo, hi. rewrite E1, E2.
  repeat split; try reflexivity;
    try (apply py_round_nearest); try (apply (py_min_least _ _ Hlo));
    try (apply (py_max_greatest _ _ Hhi)).
Qed.

Lemma tmin_tmax_rounded_half_even_witness :
  exists lo hi,
    least lo (map temp_min (date_group (date tie_day) [tie_sample])) /\
    greatest hi (map temp_max (date_group (date tie_day) [tie_sample])) /\
    tmin tie_day = py_round lo /\ nearest_ties_even lo (tmin tie_day) /\
    tmax tie_day = py_round hi /\ nearest_ties_even hi (tmax tie_day).
Proof.
  apply (tmin_tmax_rounded_half_even [tie_sample] [tie_day] tie_day).
  - vm_compute. reflexivity.
  - simpl. left. reflexivity.
Defined.

(** C3, as the specification words it, fails: the minimum 2.5 of [tie_sample] is
    reported as 2, and rounding the tie away from zero gives 3. *)
Lemma round_half_away_counterexample :
  aggregate [tie_sample] = Ok [tie_day] /\
  date_group (date tie_day) [tie_sample] = [tie_sample] /\
  least (5 # 2) (map temp_min [tie_sample]) /\
  tmin tie_day = 2 /\
  round_half_away_from_zero (5 # 2) = 3 /\
  tmin tie_day <> round_half_away_from_zero (5 # 2).
Proof.
  split; [vm_compute; reflexivity|].
  split; [vm_compute; reflexivity|].
  split.
  - split; [now left|]. intros x [<-|[]]. apply Qle_refl.
  - vm_compute. repeat split; discriminate.
Qed.

(** C4.  When the group of an entry's date holds a sample whose UTC hour
    is 12, the entry's icon and description are those of such a sample
    (the description title-cased), whatever the other icons of the group
    are. *)
Theorem noon_sample_chosen items days d :
  aggregate items = Ok days -> In d days ->
  (exists s, In s (date_group (date d) items) /\ hour_of s = Ok 12) ->
  exists s c,
    In s (date_group (date d) items) /\ hour_of s = Ok 12 /\
    weather0 s = Ok c /\
    icon d = Some (icon_code c) /\ desc d = title (description c).
Proof.
  intros H Hin (s0 & Hs0 & Hh0).
  destruct (aggregate_entry _ _ _ H Hin) as [_ Hs].
  destruct (summarise_inv _ _ _ Hs) as (noon & lo & hi & Hnoon & Hsel & _).
  destruct noon as [s|].
  - destruct Hsel as (c & Hc & Hi & Hd).
    apply find_noon_some in Hnoon as (pre & post & E & Hh & _).
    exists s, c. repeat split; try assumption.
    rewrite E. apply in_or_app. right. now left.
  - exfalso. exact (find_noon_none _ Hnoon s0 Hs0 Hh0).
Qed.

Lemma noon_sample_chosen_witness :
  exists s c,
    In s (date_group (date noon_day) noon_group) /\ hour_of s = Ok 12 /\
    weather0 s = Ok c /\
    icon noon_day = Some (icon_code c) /\ desc noon_day = title (description c).
Proof.
  apply (noon_sample_chosen noon_group [noon_day] noon_day).
  - vm_compute. reflexivity.
  - simpl. left. reflexivity.
  - exists (sample_at 43200 1 2 "10d" "light rain"). split.
    + vm_compute. right. left. reflexivity.
    + vm_compute. reflexivity.
Defined.

(** C9.  When the group holds several samples whose UTC hour is 12, the
    first of them in the group's order is the one used. *)
Theorem first_noon_sample_chosen items days d pre s post :
  aggregate items = Ok days -> In d days ->
  date_group (date d) items = pre ++ s :: post ->
  hour_of s = Ok 12 ->
  (forall x, In x pre -> hour_of x <> Ok 12) ->
  exists c,
    weather0 s = Ok c /\
    icon d = Some (icon_code c) /\ desc d = title (description c).
Proof.
  intros H Hin E Hh Hpre.
  destruct (aggregate_entry _ _ _ H Hin) as [_ Hs].
  destruct (summarise_inv _ _ _ Hs) as (noon & lo & hi & Hnoon & Hsel & _).
  rewrite E in Hnoon.
  rewrite (find_noon_first _ _ _ _ Hnoon Hh Hpre) in Hsel.
  exact Hsel.
Qed.

Lemma first_noon_sample_chosen_witness :
  exists c,
    weather0 (sample_at 43200 1 2 "10d" "light rain") = Ok c /\
    icon noon_day = Some (icon_code c) /\ desc noon_day = title (description c).
Proof.
  apply (first_noon_sample_chosen noon_group [noon_day] noon_day
           [sample_at 32400 1 2 "02d" "few clouds"]
           (sample_at 43200 1 2 "10d" "light rain")
           [sample_at 45000 1 2 "01d" "clear sky";
            sample_at 54000 1 2 "02d" "few clouds";
            sample_at 64800 1 2 "02d" "few clouds"]).
  - vm_compute. reflexivity.
  - simpl. left. reflexivity.
  - vm_compute. reflexivity.
  - vm_compute. reflexivity.
  - intros x [<-|[]]. vm_compute. discriminate.
Defined.

(** C5.  When no sample of the group has UTC hour 12, the entry's icon is
    a most frequent icon of the group and its description a most frequent
    title-cased description, and among equally frequent values the one
    met first is taken; for the icons [a, a, b] the choice is [a]. *)
Theorem most_frequent_chosen :
  (forall items days d,
     aggregate items = Ok days -> In d days ->
     (forall s, In s (date_group (date d) items) -> hour_of s <> Ok 12) ->
     exists conds i,
       Forall2 (fun s c => weather0 s = Ok c) (date_group (date d) items) conds /\
       icon d = Some i /\
       most_frequent_first i (map icon_code conds) /\
       most_frequent_first (desc d) (map (fun c => title (description c)) conds)) /\
  (forall a b, most_common_key [a; a; b] = Ok a).
Proof.
  split.
  - intros items days d H Hin Hno.
    destruct (aggregate_entry _ _ _ H Hin) as [Hne Hs].
    destruct (summarise_inv _ _ _ Hs) as (noon & lo & hi & Hnoon & Hsel & _).
    destruct noon as [s|].
    + exfalso. apply find_noon_some in Hnoon as (pre & post & E & Hh & _).
      apply (Hno s); [|assumption]. rewrite E. apply in_or_app. right. now left.
    + destruct Hsel as (conds & HF & Hi & Hd).
      destruct (Hi Hne) as (i & Ei & Eicon).
      exists conds, i. repeat split; try assumption.
      * now apply most_common_key_spec.
      * apply most_common_key_spec. now apply Hd.
  - intros a b. unfold most_common_key, Counter. simpl.
    rewrite String.eqb_refl. simpl.
    destruct (String.eqb b a); reflexivity.
Qed.

Lemma most_frequent_chosen_witness :
  exists conds i,
    Forall2 (fun s c => weather0 s = Ok c)
      (date_group (date morning_day) morning_group) conds /\
    icon morning_day = Some i /\
    most_frequent_first i (map icon_code conds) /\
    most_frequent_first (desc morning_day) (map (fun c => title (description c)) conds).
Proof.
  apply (proj1 most_frequent_chosen morning_group [morning_day] morning_day).
  - vm_compute. reflexivity.
  - simpl. left. reflexivity.
  - intros s Hs. vm_compute in Hs.
    destruct Hs as [<-|[<-|[<-|[<-|[]]]]]; vm_compute; discriminate.
Defined.

(** ** The alert fallback *)

Lemma truthy_not_none v : truthy v = true -> is_none v = false /\ eq_empty_list v = false.
Proof. destruct v as [| | | | |[|x l]|]; simpl; auto; discriminate. Qed.

Lemma attempt_cases w :
  (exists v, attempt w = Ok (Some v) /\ answers_present w v) \/
  (attempt w = Ok (Some (JArr [])) /\ (answers_empty_list w \/ answers_without_alerts w)) \/
  (attempt w = Ok None /\ answers_nothing w).
Proof.
  unfold attempt, alerts_attempt.
  destruct w as [e|r]; simpl.
  { right; right. split; [reflexivity|].
    repeat split; [intros v|..]; intros (r & kv & H & _); discriminate. }
  destruct (status_code r =? 200) eqn:Es.
  2:{ right; right. split; [reflexivity|]. apply Z.eqb_neq in Es.
      repeat split; [intros v|..]; intros (r' & kv & H & Hs & _);
        injection H as <-; contradiction. }
  apply Z.eqb_eq in Es.
  destruct (json_body r) as [j|e] eqn:Ej; simpl.
  2:{ right; right. split; [reflexivity|].
      repeat split; [intros v|..]; intros (r' & kv & H & _ & Hb & _);
        injection H as <-; congruence. }
  destruct j as [| | | | | |kv]; simpl;
    try (right; right; split; [reflexivity|];
         repeat split; [intros v|..]; intros (r' & kv' & H & _ & Hb & _);
         injection H as <-; congruence).
  destruct (dict_get kv "alerts") as [a|] eqn:Ea; simpl.
  - destruct (truthy a) eqn:Et; simpl.
    + left. exists a. split; [reflexivity|].
      exists r, kv. auto.
    + destruct (eq_empty_list a) eqn:Ee; simpl.
      * right; left. split; [reflexivity|]. left.
        destruct a as [| | | | |[|x l]|]; try discriminate.
        exists r, kv. auto.
      * right; right. split; [reflexivity|].
        repeat split; [intros v|..]; intros (r' & kv' & H & _ & Hb & Hg);
          injection H as <-; rewrite Ej in Hb; injection Hb as <-;
          rewrite Ea in Hg.
        -- destruct Hg as [Hg Ht]. injection Hg as <-. congruence.
        -- injection Hg as ->. discriminate.
        -- discriminate.
  - right; left. split; [reflexivity|]. right.
    exists r, kv. auto.
Qed.

Lemma present_unique w v v' : answers_present w v -> answers_present w v' -> v = v'.
Proof.
  intros (r & kv & E & _ & Hb & Hg & _) (r' & kv' & E' & _ & Hb' & Hg' & _).
  rewrite E in E'. injection E' as <-. rewrite Hb in Hb'. injection Hb' as <-.
  congruence.
Qed.

Lemma present_not_empty w v :
  answers_present w v -> ~ (answers_empty_list w \/ answers_without_alerts w).
Proof.
  intros (r & kv & E & _ & Hb & Hg & Ht) [(r' & kv' & E' & _ & Hb' & Hg')|(r' & kv' & E' & _ & Hb' & Hg')];
    rewrite E in E'; injection E' as <-; rewrite Hb in Hb'; injection Hb' as <-;
    rewrite Hg in Hg'; [injection Hg' as -> | ]; discriminate.
Qed.

Lemma state_of_present v : truthy v = true -> state_of v = Present v.
Proof.
  intros H. destruct (truthy_not_none _ H) as [H1 H2]. unfold state_of. now rewrite H1, H2.
Qed.

Lemma alerts_unfold w1 w2 :
  alerts w1 w2 =
  match attempt w1 with
  | Ok (Some v) => Ok v
  | Ok None => match attempt w2 with
               | Ok (Some v) => Ok v
               | Ok None => Ok JNull
               | Raise e => Raise e
               end
  | Raise e => Raise e
  end.
Proof.
  unfold alerts, attempt.
  destruct (try_except (alerts_attempt w1) _) as [[v|]|e]; simpl; auto.
Qed.

(** C2, as it holds.  [alerts] always returns, and its value reads as
    [Present a] exactly when the deciding endpoint (the primary one, or
    the secondary one when the primary answers nothing) answers 200 with
    an object whose ["alerts"] is the truthy value [a]; as [Empty] exactly
    when the deciding endpoint answers 200 with an object whose
    ["alerts"] is the empty list or is absent; as [Unavailable] exactly
    when both endpoints answer nothing.  The three states exclude each
    other. *)
Theorem alerts_three_states w1 w2 :
  exists v,
    alerts w1 w2 = Ok v /\
    (forall a, state_of v = Present a <->
       answers_present w1 a \/ (answers_nothing w1 /\ answers_present w2 a)) /\
    (state_of v = Empty <->
       (answers_empty_list w1 \/ answers_without_alerts w1) \/
       (answers_nothing w1 /\ (answers_empty_list w2 \/ answers_without_alerts w2))) /\
    (state_of v = Unavailable <-> answers_nothing w1 /\ answers_nothing w2).
Proof.
  rewrite alerts_unfold.
  destruct (attempt_cases w1) as [(v1 & -> & P1)|[(-> & E1)|(-> & N1)]].
  - exists v1. split; [reflexivity|].
    assert (Ht : truthy v1 = true) by (destruct P1 as (? & ? & ? & ? & ? & ? & ?); assumption).
    rewrite (state_of_present _ Ht).
    assert (X := present_not_empty _ _ P1).
    split; [intros a; split | split; split].
    + intros H. injection H as <-. now left.
    + intros [H|[[H _] _]]; [now rewrite (present_unique _ _ _ P1 H) | now destruct (H v1)].
    + discriminate.
    + intros [H|[[H _] _]]; [contradiction | now destruct (H v1)].
    + discriminate.
    + intros [[H _] _]. now destruct (H v1).
  - exists (JArr []). split; [reflexivity|]. simpl.
    split; [intros a; split | split; split].
    + discriminate.
    + intros [H|[(_ & H1 & H2) _]]; [destruct (present_not_empty _ _ H E1) | tauto].
    + now left.
    + reflexivity.
    + discriminate.
    + intros [(_ & H1 & H2) _]. tauto.
  - destruct (attempt_cases w2) as [(v2 & -> & P2)|[(-> & E2)|(-> & N2)]].
    + exists v2. split; [reflexivity|].
      assert (Ht : truthy v2 = true) by (destruct P2 as (? & ? & ? & ? & ? & ? & ?); assumption).
      rewrite (state_of_present _ Ht).
      assert (X := present_not_empty _ _ P2).
      split; [intros a; split | split; split].
      * intros H. injection H as <-. now right.
      * intros [H|[_ H]]; [now destruct (proj1 N1 a) | now rewrite (present_unique _ _ _ P2 H)].
      * discriminate.
      * intros [H|[_ H]]; [destruct N1 as (_ & ? & ?); tauto | contradiction].
      * discriminate.
      * intros [_ [H _]]. now destruct (H v2).
    + exists (JArr []). split; [reflexivity|]. simpl.
      split; [intros a; split | split; split].
      * discriminate.
      * intros [H|[_ H]]; [now destruct (proj1 N1 a) | destruct (present_not_empty _ _ H E2)].
      * now right.
      * reflexivity.
      * discriminate.
      * intros [_ (_ & H1 & H2)]. tauto.
    + exists JNull. split; [reflexivity|]. simpl.
      split; [intros a; split | split; split].
      * discriminate.
      * intros [H|[_ H]]; [now destruct (proj1 N1 a) | now destruct (proj1 N2 a)].
      * discriminate.
      * intros [H|[_ H]]; [destruct N1 as (_ & ? & ?); tauto | destruct N2 as (_ & ? & ?); tauto].
      * now split.
      * reflexivity.
Qed.

(** C2, as the specification words it, fails: both endpoints answer 200 with an
    object that has no ["alerts"] field, no endpoint carries an empty
    alerts list, and the value reads as [Empty], not as [Unavailable]. *)
Lemma absent_alerts_counterexample :
  ~ answers_empty_list no_alerts_reply /\
  answers_without_alerts no_alerts_reply /\
  alerts no_alerts_reply no_alerts_reply = Ok (JArr []) /\
  state_of (JArr []) = Empty /\
  state_of (JArr []) <> Unavailable.
Proof.
  repeat split; try discriminate.
  - intros (r & kv & E & _ & Hb & Hg). injection E as <-. simpl in Hb.
    injection Hb as <-. discriminate.
  - eexists _, _. repeat split.
Qed.

(** ** Geocoding *)

(** C7.  On a response that [raise_for_status] accepts: an empty result
    set raises the error "Location not found." (the specification's
    [NotFoundError]); a first candidate with coordinates and a name gives
    these coordinates and the label "name, country", and the label is the
    name alone when the candidate has no country. *)
Theorem geocode_not_found_or_label (str_of_value : json -> string) (r : response) :
  raise_for_status r = Ok tt ->
  (json_body r = Ok (JArr []) ->
   geocode str_of_value (Replied r) = Raise (Exn RuntimeError "Location not found.")) /\
  (forall g rest lat lon name,
     json_body r = Ok (JArr (JObj g :: rest)) ->
     dict_get g "lat" = Some lat -> dict_get g "lon" = Some lon ->
     dict_get g "name" = Some (JStr name) ->
     (forall country,
        dict_get g "country" = Some (JStr country) -> country <> "" ->
        geocode str_of_value (Replied r) = Ok (lat, lon, (name ++ ", " ++ country)%string)) /\
     (dict_get g "country" = None ->
      geocode str_of_value (Replied r) = Ok (lat, lon, name))).
Proof.
  intros Hs. unfold geocode. simpl. rewrite Hs. simpl. split.
  - intros ->. reflexivity.
  - intros g rest lat lon name -> Hlat Hlon Hname. simpl.
    rewrite Hlat, Hlon, Hname. simpl. split.
    + intros country -> Hne. simpl.
      apply String.eqb_neq in Hne. rewrite Hne. reflexivity.
    + intros ->. simpl. now rewrite append_empty_r.
Qed.

Lemma geocode_not_found_or_label_witness :
  geocode (fun _ => "") (Replied no_match_response)
    = Raise (Exn RuntimeError "Location not found.") /\
  geocode (fun _ => "") (Replied paris_response)
    = Ok (JFloat (4885 # 100), JFloat (235 # 100), "Paris, FR") /\
  geocode (fun _ => "") (Replied paris_no_country_response)
    = Ok (JFloat (4885 # 100), JFloat (235 # 100), "Paris").
Proof.
  split; [|split].
  - apply (proj1 (geocode_not_found_or_label (fun _ => "") no_match_response eq_refl)).
    reflexivity.
  - apply (proj1 (proj2 (geocode_not_found_or_label (fun _ => "") paris_response eq_refl)
                   paris [] (JFloat (4885 # 100)) (JFloat (235 # 100)) "Paris"
                   eq_refl eq_refl eq_refl eq_refl) "FR").
    + reflexivity.
    + discriminate.
  - apply (proj2 (proj2 (geocode_not_found_or_label (fun _ => "") paris_no_country_response
                           eq_refl)
                   paris_no_country [] (JFloat (4885 # 100)) (JFloat (235 # 100)) "Paris"
                   eq_refl eq_refl eq_refl eq_refl)).
    reflexivity.
Defined.

(** ** IP location *)

(** C8, as it holds.  [ip_location] returns a value whatever the reply
    is (it does not raise), and that value is [None] exactly on these
    replies: a transport error, a 4xx or 5xx status, a body that is not
    JSON or not an object, a payload without ["lat"] or with a null one,
    a payload without ["lon"].  Every other reply gives a location. *)
Theorem ip_location_failure_none (w : reply) :
  (exists v, ip_location w = Ok v) /\
  (ip_location w = Ok JNull <-> ip_failure w).
Proof.
  split; [|split].
  - unfold ip_location. destruct (ip_location_body w) as [v|e]; simpl; eauto.
  - unfold ip_location, ip_location_body. destruct w as [e|r]; simpl.
    { intros _. apply ip_network_error. }
    unfold raise_for_status.
    destruct ((400 <=? status_code r) && (status_code r <? 600)) eqn:Es; simpl.
    { intros _. apply andb_prop in Es as [E1 E2].
      apply Z.leb_le in E1. apply Z.ltb_lt in E2. now apply ip_error_status. }
    destruct (json_body r) as [j|e] eqn:Eb; simpl.
    2:{ intros _. now apply (ip_malformed_body r e). }
    destruct j as [| | | | | |kv];
      try (intros _; now apply (ip_not_an_object r _ Eb)).
    simpl. destruct (dict_get kv "lat") as [lat|] eqn:Elat; simpl.
    2:{ intros _. now apply (ip_missing_lat r kv). }
    destruct (is_none lat) eqn:En; simpl.
    { intros _. destruct lat; try discriminate. now apply (ip_null_lat r kv). }
    destruct (dict_get kv "lon") as [lon|] eqn:Elon; simpl.
    2:{ intros _. now apply (ip_missing_lon r kv). }
    discriminate.
  - intros F. unfold ip_location, ip_location_body.
    destruct F as [e|r Hs|r e Hb|r j Hb Hd|r kv Hb Hg|r kv Hb Hg|r kv Hb Hg]; simpl.
    + reflexivity.
    + unfold raise_for_status.
      destruct Hs as [H1 H2]. apply Z.leb_le in H1. apply Z.ltb_lt in H2.
      now rewrite H1, H2.
    + destruct (raise_for_status r) as [[]|e']; simpl; [|reflexivity]. now rewrite Hb.
    + destruct (raise_for_status r) as [[]|e']; simpl; [|reflexivity]. rewrite Hb. simpl.
      destruct j; simpl; try reflexivity. discriminate.
    + destruct (raise_for_status r) as [[]|e']; simpl; [|reflexivity]. rewrite Hb. simpl.
      now rewrite Hg.
    + destruct (raise_for_status r) as [[]|e']; simpl; [|reflexivity]. rewrite Hb. simpl.
      now rewrite Hg.
    + destruct (raise_for_status r) as [[]|e']; simpl; [|reflexivity]. rewrite Hb. simpl.
      destruct (dict_get kv "lat") as [lat|]; simpl; [|reflexivity].
      destruct (is_none lat); simpl; [reflexivity|]. now rewrite Hg.
Qed.

Lemma ip_location_failure_none_witness : ip_location timeout_reply = Ok JNull.
Proof.
  apply (proj2 (proj2 (ip_location_failure_none timeout_reply))).
  apply ip_network_error.
Defined.

(** C8, as the specification words it, fails: a payload whose longitude
    is null, and an answer whose status is not a success without being
    a 4xx or a 5xx, both give a location, not [None]. *)
Lemma ip_location_counterexample :
  ip_location null_longitude_reply
  = Ok (JObj [("lat", JFloat (4885 # 100)); ("lon", JNull); ("city", JStr "Paris");
              ("country", JStr ""); ("timezone", JStr "UTC")]) /\
  ip_location null_longitude_reply <> Ok JNull /\
  ip_location redirected_reply
  = Ok (JObj [("lat", JFloat (4885 # 100)); ("lon", JFloat (235 # 100));
              ("city", JStr "My location"); ("country", JStr "");
              ("timezone", JStr "UTC")]) /\
  ip_location redirected_reply <> Ok JNull.
Proof. repeat split; try reflexivity; discriminate. Qed.

(** Every other reply gives a location. *)
Lemma ip_location_success r kv lat lon :
  raise_for_status r = Ok tt -> json_body r = Ok (JObj kv) ->
  dict_get kv "lat" = Some lat -> is_none lat = false ->
  dict_get kv "lon" = Some lon ->
  exists city country timezone,
    ip_location (Replied r)
    = Ok (JObj [("lat", lat); ("lon", lon); ("city", city);
                ("country", country); ("timezone", timezone)]).
Proof.
  intros Hs Hb Hlat Hn Hlon. unfold ip_location, ip_location_body. simpl.
  rewrite Hs. simpl. rewrite Hb. simpl. rewrite Hlat, Hn. simpl. rewrite Hlon. simpl.
  eauto.
Qed.

(** ** The task boundary *)

Lemma run_single (fn : result payload) : exists s, run fn = [s].
Proof. destruct fn; simpl; eauto. Qed.

(** The task of [on_search] raises exactly when one of its steps does. *)
Lemma search_task_raises_iff c units q e :
  search_task c units q = Raise e <-> search_step_raises c units q e.
Proof.
  unfold search_task. split.
  - intros H.
    destruct (c_geocode c q) as [[[lat lon] label]|e0] eqn:Eg; simpl in H.
    2:{ injection H as ->. now apply geocode_raises. }
    destruct (c_current c lat lon units) as [curr|e0] eqn:Ec; simpl in H.
    2:{ injection H as ->. now apply (current_raises _ _ _ _ lat lon label). }
    destruct (c_forecast_5day c lat lon units) as [fc|e0] eqn:Ef; simpl in H.
    2:{ injection H as ->. now apply (forecast_raises _ _ _ _ lat lon label curr). }
    destruct (c_alerts c lat lon) as [al|e0] eqn:Ea; simpl in H.
    2:{ injection H as ->. now apply (alerts_raises _ _ _ _ lat lon label curr fc). }
    discriminate.
  - intros [Hg|lat lon label Hg Hc|lat lon label curr Hg Hc Hf
            |lat lon label curr fc Hg Hc Hf Ha]; rewrite Hg; simpl; auto.
    + now rewrite Hc.
    + now rewrite Hc; simpl; rewrite Hf.
    + now rewrite Hc; simpl; rewrite Hf; simpl; rewrite Ha.
Qed.

(** When every step returns, [run] emits the one result signal. *)
Lemma search_task_result c units q lat lon label curr fc al :
  c_geocode c q = Ok (lat, lon, label) ->
  c_current c lat lon units = Ok curr ->
  c_forecast_5day c lat lon units = Ok fc ->
  c_alerts c lat lon = Ok al ->
  run (search_task c units q) = [result_emit (Payload lat lon label curr fc al None)].
Proof.
  intros Hg Hc Hf Ha. unfold search_task.
  rewrite Hg. simpl. rewrite Hc. simpl. rewrite Hf. simpl. now rewrite Ha.
Qed.

(** C6.  When a step of the fetch sequence raises, [run] emits one error
    signal, carrying the text of that exception, and no result signal. *)
Theorem failing_step_single_error c units q e :
  search_step_raises c units q e ->
  run (search_task c units q) = [error_emit (exn_msg e)] /\
  (forall res, ~ In (result_emit res) (run (search_task c units q))).
Proof.
  intros H. apply search_task_raises_iff in H. rewrite H. simpl.
  split; [reflexivity|]. intros res [F|[]]. discriminate.
Qed.

Lemma failing_step_single_error_witness :
  run (search_task (weather_client (fun _ => "") (fun _ => Ok []) current_down)
         "metric" "Paris")
  = [error_emit "Read timed out."].
Proof.
  apply (failing_step_single_error
           (weather_client (fun _ => "") (fun _ => Ok []) current_down)
           "metric" "Paris" (Exn RequestException "Read timed out.")).
  apply (current_raises _ _ _ _ (JFloat (4885 # 100)) (JFloat (235 # 100)) "Paris, FR").
  - reflexivity.
  - reflexivity.
Defined.

(** The task of [on_my_location] at the same boundary. *)
Lemma location_task_single_error str_of_value c units e :
  location_task str_of_value c units = Raise e ->
  run (location_task str_of_value c units) = [error_emit (exn_msg e)].
Proof. now intros ->. Qed.

(** Without a detected location the task raises its own error. *)
Lemma location_task_not_detected str_of_value c units :
  c_ip_location c = Ok JNull ->
  run (location_task str_of_value c units)
  = [error_emit "Couldn't detect your location. Try searching a city."].
Proof. unfold location_task. now intros ->. Qed.

(** ** Saving a QR image *)

Import QR.

Lemma length_append a b :
  String.length (a ++ b)%string = (String.length a + String.length b)%nat.
Proof. induction a as [|c r IH]; simpl; [reflexivity | now rewrite IH]. Qed.

Lemma append_inv_head p x y : (p ++ x)%string = (p ++ y)%string -> x = y.
Proof. induction p as [|c r IH]; simpl; intros H; [assumption|]. injection H as H. auto. Qed.

Lemma append_inv_tail s : forall x y, (x ++ s)%string = (y ++ s)%string -> x = y.
Proof.
  induction x as [|c r IH]; intros [|c' r'] H; simpl in H.
  - reflexivity.
  - apply (f_equal String.length) in H. simpl in H. rewrite length_append in H. lia.
  - apply (f_equal String.length) in H. simpl in H. rewrite length_append in H. lia.
  - injection H as -> H. f_equal. now apply IH.
Qed.

Lemma dec_inj k k' : dec k = dec k' -> k = k'.
Proof.
  unfold dec. intros H.
  apply (f_equal NilEmpty.uint_of_string) in H. rewrite !NilEmpty.usu in H.
  injection H as H. now apply DecimalNat.Unsigned.to_uint_inj.
Qed.

Lemma join_inj_r a b b' :
  starts_with_sep b = starts_with_sep b' -> join a b = join a b' -> b = b'.
Proof.
  unfold join. intros <-.
  destruct (starts_with_sep b); [auto|].
  destruct (String.eqb a "" || ends_with_sep a).
  - apply append_inv_head.
  - intros H. apply append_inv_head in H. now apply (append_inv_head "/") in H.
Qed.

Lemma numbered_path_inj dir base ext k k' :
  numbered_path dir base ext k = numbered_path dir base ext k' -> k = k'.
Proof.
  unfold numbered_path. intros H. apply join_inj_r in H.
  - apply append_inv_head in H. apply (append_inv_head "_") in H.
    apply append_inv_tail in H. now apply dec_inj.
  - destruct base; reflexivity.
Qed.

Lemma path_exists_In fs p : path_exists fs p = true <-> In p (map fst fs).
Proof.
  unfold path_exists. rewrite existsb_exists, in_map_iff. split.
  - intros (f & Hin & E). apply String.eqb_eq in E. eauto.
  - intros (f & E & Hin). exists f. split; [assumption|]. now apply String.eqb_eq.
Qed.

Lemma forallb_false {A} (f : A -> bool) l :
  forallb f l = false -> exists x, In x l /\ f x = false.
Proof.
  induction l as [|x r IH]; simpl; [discriminate|].
  destruct (f x) eqn:E; simpl.
  - intros H. destruct (IH H) as (y & ? & ?). eauto.
  - intros _. eauto.
Qed.

Section Naming.

Variable fs : filesystem.
Variables dir base ext : string.

(** Among the paths numbered [1 .. length fs + 1] one does not exist. *)
Lemma free_number :
  exists k, (1 <= k < 1 + S (List.length fs))%nat /\
            path_exists fs (numbered_path dir base ext k) = false.
Proof.
  set (cands := seq 1 (S (List.length fs))).
  destruct (forallb (fun k => path_exists fs (numbered_path dir base ext k)) cands) eqn:E.
  - exfalso. rewrite forallb_forall in E.
    assert (Hnd : NoDup (map (numbered_path dir base ext) cands)).
    { apply Injective_map_NoDup; [|apply seq_NoDup].
      intros k k'. apply numbered_path_inj. }
    assert (Hincl : incl (map (numbered_path dir base ext) cands) (map fst fs)).
    { intros p Hp. apply in_map_iff in Hp as (k & <- & Hk). apply path_exists_In. now apply E. }
    apply NoDup_incl_length in Hincl; [|assumption].
    unfold cands in Hincl. rewrite !length_map, length_seq in Hincl. lia.
  - apply forallb_false in E as (k & Hk & Hf). exists k. split; [|assumption].
    unfold cands in Hk. apply in_seq in Hk. lia.
Qed.

(** The loop leaves when the starting path is free, or when its fuel
    reaches a free number. *)
Lemma resolve_conflicts_total : forall fuel path counter,
  path_exists fs path = false \/
  (exists k, (counter <= k < counter + fuel)%nat /\
             path_exists fs (numbered_path dir base ext k) = false) ->
  exists p, resolve_conflicts fuel fs dir base ext path counter = Some p.
Proof.
  induction fuel as [|fuel IH]; intros path counter H; simpl.
  - destruct H as [->|(k & Hk & _)]; [eauto | lia].
  - destruct (path_exists fs path) eqn:E; [|eauto].
    destruct H as [H|(k & Hk & Hf)]; [discriminate|].
    apply IH. destruct (Nat.eq_dec k counter) as [->|N]; [now left|].
    right. exists k. split; [lia | assumption].
Qed.

(** The path that the loop leaves with is free, and every path tried
    before it exists. *)
Lemma resolve_conflicts_spec : forall fuel path counter p,
  resolve_conflicts fuel fs dir base ext path counter = Some p ->
  path_exists fs p = false /\
  (p = path \/
   exists k, (counter <= k)%nat /\ p = numbered_path dir base ext k /\
             path_exists fs path = true /\
             forall j, (counter <= j < k)%nat ->
                       path_exists fs (numbered_path dir base ext j) = true).
Proof.
  induction fuel as [|fuel IH]; intros path counter p; simpl.
  - destruct (path_exists fs path) eqn:E; [discriminate|].
    intros H; injection H as <-. auto.
  - destruct (path_exists fs path) eqn:E.
    + intros H. destruct (IH _ _ _ H) as (Hp & [->|(k & Hk & -> & Hn & Hj)]).
      * split; [assumption|]. right. exists counter. repeat split; auto. lia.
      * split; [assumption|]. right. exists k. repeat split; auto; [lia|].
        intros j Hjr. destruct (Nat.eq_dec j counter) as [->|N]; [assumption|].
        apply Hj. lia.
    + intros H; injection H as <-. auto.
Qed.

Lemma save_path_total : exists p, save_path fs dir base ext = Some p.
Proof.
  unfold save_path. apply resolve_conflicts_total. right. apply free_number.
Qed.

End Naming.

Lemma read_write_other fs p c q :
  q <> p -> read_file (write_file fs p c) q = read_file fs q.
Proof.
  intros N. induction fs as [|[p' c'] r IH]; simpl.
  - apply String.eqb_neq in N. rewrite String.eqb_sym. now rewrite N.
  - destruct (String.eqb p' p) eqn:E; simpl.
    + apply String.eqb_eq in E. subst p'.
      apply String.eqb_neq in N. rewrite String.eqb_sym. now rewrite N.
    + now rewrite IH.
Qed.

Lemma read_write_same fs p c : read_file (write_file fs p c) p = Some c.
Proof.
  induction fs as [|[p' c'] r IH]; simpl.
  - now rewrite String.eqb_refl.
  - destruct (String.eqb p' p) eqn:E; simpl; now rewrite E.
Qed.

Lemma read_exists fs p c : read_file fs p = Some c -> path_exists fs p = true.
Proof.
  induction fs as [|[p' c'] r IH]; simpl; [discriminate|].
  destruct (String.eqb p' p); simpl; auto.
Qed.

(** C10.  [save_qr] always ends; every file that exists keeps its
    content; and when an image is written, it is written to a path that
    did not exist: the plain path [base.ext] when that is free, otherwise
    [base_k.ext] for the least [k >= 1] whose path is free. *)
Theorem save_qr_never_overwrites (image : Type) (encode : string -> image -> string)
  (a : app image) (now : string) (io_error : option exn) (fs : filesystem) :
  exists out,
    save_qr image encode a now io_error fs = Some out /\
    (forall p c, read_file fs p = Some c -> read_file (files out) p = Some c) /\
    (forall qr, current_qr image a = Some qr -> io_error = None ->
       let dir := current_save_dir image a in
       let base := generate_filename image a now in
       let ext := lower (format_combo image a) in
       exists p data,
         path_exists fs p = false /\
         files out = write_file fs p data /\
         read_file (files out) p = Some data /\
         (p = join dir (base ++ "." ++ ext)%string \/
          exists k, (1 <= k)%nat /\ p = numbered_path dir base ext k /\
                    path_exists fs (join dir (base ++ "." ++ ext)%string) = true /\
                    forall j, (1 <= j < k)%nat ->
                              path_exists fs (numbered_path dir base ext j) = true)).
Proof.
  unfold save_qr.
  destruct (current_qr image a) as [qr|].
  2:{ exists (Outcome fs None None). repeat split; auto. discriminate. }
  destruct (save_path_total fs (current_save_dir image a) (generate_filename image a now)
              (lower (format_combo image a))) as (p & Hp).
  rewrite Hp.
  destruct io_error as [e|].
  { eexists. split; [reflexivity|]. split; [auto | discriminate]. }
  eexists. split; [reflexivity|]. simpl.
  apply resolve_conflicts_spec in Hp as (Hfree & Hwhich).
  split.
  - intros q c Hq. rewrite read_write_other; [assumption|].
    intros ->. apply read_exists in Hq. congruence.
  - intros qr' _ _. eexists p, _. split; [assumption|]. split; [reflexivity|].
    split; [apply read_write_same | exact Hwhich].
Qed.

Lemma save_qr_never_overwrites_witness :
  exists out,
    save_qr nat demo_encode demo_app "20250101_120000" None demo_files = Some out /\
    files out = demo_files ++ [("/out/code_2.png", "PNG image")] /\
    (forall p c, read_file demo_files p = Some c -> read_file (files out) p = Some c).
Proof.
  destruct (save_qr_never_overwrites nat demo_encode demo_app "20250101_120000" None
              demo_files) as (out & Hs & Hkeep & _).
  exists out. split; [exact Hs|]. split; [|exact Hkeep].
  vm_compute in Hs. injection Hs as <-. reflexivity.
Defined.

(* ================================================================== *)
(** * Further properties *)
(* ================================================================== *)

Import WeatherUI.

(** ** The forecast aggregation *)

Lemma py_round_mono x y : (x <= y)%Q -> py_round x <= py_round y.
Proof.
  intros Hxy.
  destruct (py_round_nearest x) as [[Hx1 Hx2] Hxe].
  destruct (py_round_nearest y) as [[Hy1 Hy2] Hye].
  destruct (Z_le_gt_dec (py_round x) (py_round y)) as [|G]; [assumption|]. exfalso.
  assert (G' : py_round y + 1 <= py_round x) by lia.
  rewrite Zle_Qle, inject_Z_plus in G'. change (inject_Z 1) with 1%Q in G'.
  assert (Ex : (x - inject_Z (py_round x) == -(1 # 2))%Q) by lra.
  assert (Ey : (y - inject_Z (py_round y) == 1 # 2)%Q) by lra.
  assert (E : (inject_Z (py_round x) == inject_Z (py_round y + 1))%Q).
  { rewrite inject_Z_plus. change (inject_Z 1) with 1%Q. lra. }
  unfold Qeq in E. simpl in E.
  assert (E' : py_round x = py_round y + 1) by lia.
  specialize (Hxe (or_intror Ex)). specialize (Hye (or_introl Ey)).
  rewrite E', Z.even_add, Hye in Hxe. discriminate.
Qed.

(** X1.  When every sample has [temp_min <= temp_max], every entry of
    the result has [tmin <= tmax]. *)
Theorem tmin_le_tmax items days d :
  aggregate items = Ok days ->
  Forall (fun s => (temp_min s <= temp_max s)%Q) items ->
  In d days -> tmin d <= tmax d.
Proof.
  intros H HF Hin. destruct (aggregate_entry _ _ _ H Hin) as [Hne Hs].
  destruct (summarise_inv _ _ _ Hs) as (noon & lo & hi & _ & _ & Hlo & Hhi & -> & ->).
  apply py_min_least in Hlo. apply py_max_greatest in Hhi.
  destruct (date_group (date d) items) as [|s g] eqn:E; [congruence|].
  assert (Hs' : In s items) by (apply (date_group_incl (date d)); rewrite E; now left).
  rewrite Forall_forall in HF. specialize (HF s Hs').
  apply py_round_mono.
  apply Qle_trans with (temp_min s); [apply (proj2 Hlo); now left|].
  apply Qle_trans with (temp_max s); [assumption|]. apply (proj2 Hhi). now left.
Qed.

Lemma tmin_le_tmax_witness : tmin tie_day <= tmax tie_day.
Proof.
  apply (tmin_le_tmax [tie_sample] [tie_day] tie_day).
  - vm_compute. reflexivity.
  - repeat constructor. simpl. discriminate.
  - now left.
Defined.

Lemma most_frequent_first_In a xs : most_frequent_first a xs -> In a xs.
Proof. intros (pre & post & -> & _). apply in_or_app. right. now left. Qed.

Lemma Forall2_In_map_r {A B C} (R : A -> B -> Prop) (f : B -> C) l l' z :
  Forall2 R l l' -> In z (map f l') -> exists x y, In x l /\ R x y /\ f y = z.
Proof.
  intros HF Hz. apply in_map_iff in Hz as (y & <- & Hy).
  destruct (Forall2_In_r _ _ _ _ HF Hy) as (x & Hx & HR). eauto.
Qed.

(** X2.  The icon of every entry of the result is the icon of a sample
    of its date, and its description is the title-cased description of a
    sample of its date, not always of the same sample: the values that
    the code keeps for an empty tally are never used, as no group is
    empty.  (The samples are read with a text as their icon; what the
    code does with a null icon is not covered.) *)
Theorem icon_and_desc_from_group items days d :
  aggregate items = Ok days -> In d days ->
  (exists s c, In s (date_group (date d) items) /\ weather0 s = Ok c /\
               icon d = Some (icon_code c)) /\
  (exists s c, In s (date_group (date d) items) /\ weather0 s = Ok c /\
               desc d = title (description c)).
Proof.
  intros H Hin. destruct (aggregate_entry _ _ _ H Hin) as [Hne Hs].
  destruct (summarise_inv _ _ _ Hs) as (noon & lo & hi & Hnoon & Hsel & _).
  destruct noon as [s|].
  - destruct Hsel as (c & Hc & Hi & Hd).
    apply find_noon_some in Hnoon as (pre & post & E & _).
    assert (Hs' : In s (date_group (date d) items)).
    { rewrite E. apply in_or_app. right. now left. }
    split; exists s, c; auto.
  - destruct Hsel as (conds & HF & Hi & Hd).
    destruct (Hi Hne) as (i & Ei & Eicon). specialize (Hd Hne).
    apply most_common_key_spec, most_frequent_first_In in Ei, Hd.
    destruct (Forall2_In_map_r _ _ _ _ _ HF Ei) as (s1 & c1 & Hs1 & Hc1 & E1).
    destruct (Forall2_In_map_r _ _ _ _ _ HF Hd) as (s2 & c2 & Hs2 & Hc2 & E2).
    split.
    + exists s1, c1. rewrite Eicon, E1. auto.
    + exists s2, c2. auto.
Qed.

Lemma icon_and_desc_from_group_witness :
  (exists s c, In s (date_group (date morning_day) morning_group) /\ weather0 s = Ok c /\
               icon morning_day = Some (icon_code c)) /\
  (exists s c, In s (date_group (date morning_day) morning_group) /\ weather0 s = Ok c /\
               desc morning_day = title (description c)).
Proof.
  apply (icon_and_desc_from_group morning_group [morning_day] morning_day).
  - vm_compute. reflexivity.
  - now left.
Defined.

(** The icon and the description are tallied apart: here the icon of
    "few clouds" comes with the description of "clear sky". *)
Example icon_and_desc_can_differ :
  aggregate mixed_group = Ok [Day "1970-01-01" 1 2 (Some "02d") "Clear Sky"].
Proof. vm_compute. reflexivity. Qed.

Lemma group_into_out_of_range items : forall b,
  (exists s, In s items /\ out_of_range s) ->
  group_into b items = Raise (Exn ValueError "year is out of range").
Proof.
  induction items as [|it rest IH]; intros b (s & Hin & Hs); [contradiction|].
  cbn [group_into].
  destruct (date_key it) as [k|e] eqn:E.
  - cbn [bind]. apply IH. destruct Hin as [<-|Hin]; [|eauto].
    exfalso. apply date_key_inv in E as [E _]. unfold out_of_range in Hs. lia.
  - cbn [bind]. unfold date_key, utcfromtimestamp in E.
    destruct ((min_timestamp <=? dt it) && (dt it <=? max_timestamp)).
    + destruct (civil_from_days (dt it / 86400)) as [[y m] d]. discriminate.
    + simpl in E. now injection E as <-.
Qed.

(** X3.  One timestamp outside the range of [datetime], anywhere in the
    input, makes the whole aggregation raise: no entry is returned, also
    when the day of that sample would not be among the five returned. *)
Theorem out_of_range_fails_all items :
  (exists s, In s items /\ out_of_range s) ->
  exists e, aggregate items = Raise e.
Proof.
  intros H. unfold aggregate, group_by_date.
  rewrite (group_into_out_of_range items [] H). simpl. eauto.
Qed.

Lemma out_of_range_fails_all_witness :
  exists e, aggregate seven_days_one_unreadable = Raise e.
Proof.
  apply out_of_range_fails_all.
  exists (sample_at (max_timestamp + 1) 3 4 "01d" "clear sky"). split.
  - unfold seven_days_one_unreadable. apply in_or_app. right. now left.
  - right. vm_compute. reflexivity.
Defined.

Lemma bucket_of_absent b k : ~ In k (map fst b) -> bucket_of b k = [].
Proof.
  induction b as [|[k0 its] r IH]; simpl; intros H; [reflexivity|].
  destruct (String.eqb k k0) eqn:E.
  - apply String.eqb_eq in E. subst. tauto.
  - apply IH. tauto.
Qed.

Lemma StronglySorted_app_order {A} (R : A -> A -> Prop) l1 l2 :
  StronglySorted R (l1 ++ l2) -> forall x y, In x l1 -> In y l2 -> R x y.
Proof.
  induction l1 as [|a r IH]; simpl; intros H x y Hx Hy; [contradiction|].
  apply StronglySorted_inv in H as [Hr Ha].
  destruct Hx as [<-|Hx]; [|now apply IH].
  rewrite Forall_forall in Ha. apply Ha. apply in_or_app. now right.
Qed.

(** X4.  The result holds the five earliest dates of the input: the date
    of a sample is missing from it only when it holds five entries, all
    of them with earlier dates. *)
Theorem five_earliest_dates items days s k :
  aggregate items = Ok days -> In s items -> date_key s = Ok k ->
  In k (map date days) \/
  (List.length days = 5%nat /\ forall d, In d days -> str_lt (date d) k = true).
Proof.
  unfold aggregate, group_by_date. intros H Hs Hk.
  bind_inv H. rename a into buckets. bind_inv H. rename a into days0.
  injection H as <-.
  destruct (group_into_spec _ _ _ Hstep (NoDup_nil _)) as (Hd & Hb & _).
  apply traverse_ok, summarised_dates in Hstep0.
  assert (Hkb : In k (map fst buckets)).
  { destruct (in_dec string_dec k (map fst buckets)) as [|N]; [assumption|]. exfalso.
    assert (E := Hb k). rewrite (bucket_of_absent _ _ N) in E. simpl in E.
    assert (Hg : In s (date_group k items)).
    { unfold date_group. apply filter_In. split; [assumption|].
      unfold date_is. rewrite Hk. apply String.eqb_refl. }
    rewrite <- E in Hg. contradiction. }
  rewrite <- Hstep0 in Hkb, Hd.
  set (L := sort_by_date days0).
  assert (HL : dates_increasing L).
  { apply sorted_distinct_increasing; [|apply sort_by_date_sorted].
    eapply Permutation_NoDup; [|exact Hd]. apply Permutation_map. symmetry.
    apply sort_by_date_perm. }
  assert (HkL : In k (map date L)).
  { eapply Permutation_in; [|exact Hkb]. apply Permutation_map. symmetry.
    apply sort_by_date_perm. }
  change (In k (map date (firstn 5 L)) \/
          (List.length (firstn 5 L) = 5%nat /\
           forall d, In d (firstn 5 L) -> str_lt (date d) k = true)).
  rewrite <- (firstn_skipn 5 L) in HkL, HL. rewrite map_app in HkL.
  apply in_app_or in HkL as [HkL|HkL]; [now left|]. right.
  apply in_map_iff in HkL as (d0 & <- & Hd0). split.
  - apply firstn_length_le.
    assert (X : skipn 5 L <> []) by (intros X; now rewrite X in Hd0).
    destruct (Nat.le_gt_cases 5 (List.length L)) as [|G]; [assumption|]. exfalso. apply X.
    apply skipn_all2. lia.
  - intros d Hd1. apply (StronglySorted_app_order _ _ _ HL d d0 Hd1 Hd0).
Qed.

Lemma five_earliest_dates_witness :
  exists days,
    aggregate six_days = Ok days /\
    (In "2023-11-18" (map date days) \/
     (List.length days = 5%nat /\
      forall d, In d days -> str_lt (date d) "2023-11-18" = true)).
Proof.
  eexists. split; [vm_compute; reflexivity|].
  apply (five_earliest_dates six_days _ (sample_at 1700308800 3 4 "01d" "clear sky")).
  - vm_compute. reflexivity.
  - unfold six_days. simpl. tauto.
  - vm_compute. reflexivity.
Defined.

(** ** The order of the samples *)

Lemma strictly_sorted_unique (l : list string) : forall l',
  StronglySorted (fun a b => str_lt a b = true) l ->
  StronglySorted (fun a b => str_lt a b = true) l' ->
  (forall k, In k l <-> In k l') -> l = l'.
Proof.
  induction l as [|a r IH]; intros [|a' r'] Hs Hs' Hm.
  - reflexivity.
  - destruct (proj2 (Hm a') (or_introl eq_refl)).
  - destruct (proj1 (Hm a) (or_introl eq_refl)).
  - apply StronglySorted_inv in Hs as [Hr Ha]. apply StronglySorted_inv in Hs' as [Hr' Ha'].
    rewrite Forall_forall in Ha, Ha'.
    assert (E : a = a').
    { destruct (proj1 (Hm a) (or_introl eq_refl)) as [E|Hin]; [now symmetry|].
      destruct (proj2 (Hm a') (or_introl eq_refl)) as [E|Hin']; [assumption|].
      assert (X := str_lt_trans _ _ _ (Ha _ Hin') (Ha' _ Hin)).
      rewrite str_lt_irrefl in X. discriminate. }
    subst a'. f_equal. apply IH; try assumption.
    intros k. split; intros Hk.
    + destruct (proj1 (Hm k) (or_intror Hk)) as [E|]; [|assumption].
      subst k. specialize (Ha _ Hk). rewrite str_lt_irrefl in Ha. discriminate.
    + destruct (proj2 (Hm k) (or_intror Hk)) as [E|]; [|assumption].
      subst k. specialize (Ha' _ Hk). rewrite str_lt_irrefl in Ha'. discriminate.
Qed.

(** The dates of the result are the first five of the dates of the
    samples, in increasing order. *)
Lemma aggregate_dates items days :
  aggregate items = Ok days ->
  exists all,
    map date days = firstn 5 all /\
    StronglySorted (fun a b => str_lt a b = true) all /\
    (forall k, In k all <-> exists s, In s items /\ date_key s = Ok k).
Proof.
  unfold aggregate, group_by_date. intros H.
  bind_inv H. rename a into buckets. bind_inv H. rename a into days0.
  injection H as <-.
  destruct (group_into_spec _ _ _ Hstep (NoDup_nil _)) as (Hd & Hb & Hk).
  apply traverse_ok, summarised_dates in Hstep0.
  exists (map date (sort_by_date days0)). split.
  { change (map date (firstn 5 (sort_by_date days0))
            = firstn 5 (map date (sort_by_date days0))).
    symmetry. apply firstn_map. }
  assert (Hp : Permutation (map date (sort_by_date days0)) (map fst buckets)).
  { rewrite <- Hstep0. apply Permutation_map, sort_by_date_perm. }
  split.
  - assert (Hi : dates_increasing (sort_by_date days0)).
    { apply sorted_distinct_increasing; [|apply sort_by_date_sorted].
      eapply Permutation_NoDup; [symmetry; exact Hp | exact Hd]. }
    clear -Hi. unfold dates_increasing in Hi.
    induction Hi as [|d r _ IH Hd]; simpl; constructor; [assumption|].
    rewrite Forall_forall in *. intros k Hk. apply in_map_iff in Hk as (x & <- & Hx). auto.
  - intros k. split.
    + intros Hin. apply (Permutation_in _ Hp) in Hin.
      destruct (Hk k Hin) as [[]|Hne].
      destruct (date_group k items) as [|s g] eqn:E; [congruence|].
      assert (Hs : In s (date_group k items)) by (rewrite E; now left).
      exists s. split; [now apply (date_group_incl k) | now apply (date_group_key k items)].
    + intros (s & Hs & Hkey). apply (Permutation_in _ (Permutation_sym Hp)).
      destruct (in_dec string_dec k (map fst buckets)) as [|N]; [assumption|]. exfalso.
      assert (E := Hb k). rewrite (bucket_of_absent _ _ N) in E. simpl in E.
      assert (Hg : In s (date_group k items)).
      { unfold date_group. apply filter_In. split; [assumption|].
        unfold date_is. rewrite Hkey. apply String.eqb_refl. }
      rewrite <- E in Hg. contradiction.
Qed.

Lemma map_eq_Forall2 {A B} (f : A -> B) (P : A -> A -> Prop) l : forall l',
  map f l = map f l' ->
  (forall a b, In a l -> In b l' -> f a = f b -> P a b) -> Forall2 P l l'.
Proof.
  induction l as [|a r IH]; intros [|b r'] E H; try discriminate; constructor.
  - simpl in E. injection E as E _. apply H; simpl; auto.
  - simpl in E. injection E as _ E. apply IH; [assumption|].
    intros x y Hx Hy. apply H; simpl; auto.
Qed.

Lemma py_round_eq x y : (x == y)%Q -> py_round x = py_round y.
Proof.
  intros E. apply Z.le_antisymm; apply py_round_mono; rewrite E; apply Qle_refl.
Qed.

Lemma date_group_same_samples k items items' :
  (forall s, In s items <-> In s items') ->
  forall s, In s (date_group k items) <-> In s (date_group k items').
Proof.
  intros H s. unfold date_group. rewrite !filter_In, H. reflexivity.
Qed.

(** X5.  The dates of the result and the temperatures of each date
    depend only on which samples the input holds, not on their order or
    their repetition.  (The icon and the description of a date can
    depend on the order.) *)
Theorem dates_and_temperatures_order_free items items' days days' :
  (forall s, In s items <-> In s items') ->
  aggregate items = Ok days -> aggregate items' = Ok days' ->
  Forall2 (fun d d' => date d = date d' /\ tmin d = tmin d' /\ tmax d = tmax d')
          days days'.
Proof.
  intros Hsame H H'.
  destruct (aggregate_dates _ _ H) as (all & E & Hs & Hm).
  destruct (aggregate_dates _ _ H') as (all' & E' & Hs' & Hm').
  assert (Eall : all = all').
  { apply strictly_sorted_unique; try assumption.
    intros k. rewrite Hm, Hm'. split; intros (s & Hin & Hk); exists s; split;
      try assumption; now apply Hsame. }
  subst all'. apply (map_eq_Forall2 date); [congruence|].
  intros d d' Hd Hd' Ed. split; [assumption|].
  destruct (aggregate_entry _ _ _ H Hd) as [_ Hsum].
  destruct (aggregate_entry _ _ _ H' Hd') as [_ Hsum'].
  destruct (summarise_inv _ _ _ Hsum) as (noon & lo & hi & _ & _ & Hlo & Hhi & -> & ->).
  destruct (summarise_inv _ _ _ Hsum') as (noon' & lo' & hi' & _ & _ & Hlo' & Hhi' & -> & ->).
  apply py_min_least in Hlo, Hlo'. apply py_max_greatest in Hhi, Hhi'.
  rewrite <- Ed in Hlo', Hhi'.
  assert (Hg := date_group_same_samples (date d) _ _ Hsame).
  assert (Hmap : forall (f : sample -> Q) x,
             In x (map f (date_group (date d) items)) <->
             In x (map f (date_group (date d) items'))).
  { intros f x. rewrite !in_map_iff. split; intros (s & <- & Hin); exists s; split;
      try reflexivity; now apply Hg. }
  destruct Hlo as [L1 L2], Hlo' as [L1' L2'], Hhi as [G1 G2], Hhi' as [G1' G2'].
  split; apply py_round_eq; apply Qle_antisym.
  - apply L2. now apply Hmap.
  - apply L2'. now apply Hmap.
  - apply G2'. now apply Hmap.
  - apply G2. now apply Hmap.
Qed.

Lemma dates_and_temperatures_order_free_witness :
  exists days days',
    aggregate morning_group = Ok days /\ aggregate morning_group_reordered = Ok days' /\
    map icon days <> map icon days' /\
    Forall2 (fun d d' => date d = date d' /\ tmin d = tmin d' /\ tmax d = tmax d')
            days days'.
Proof.
  eexists. eexists.
  split; [vm_compute; reflexivity|]. split; [vm_compute; reflexivity|].
  split; [discriminate|].
  apply (dates_and_temperatures_order_free morning_group morning_group_reordered).
  - intros s. unfold morning_group, morning_group_reordered. simpl. tauto.
  - vm_compute. reflexivity.
  - vm_compute. reflexivity.
Defined.


(** ** The requests *)

(** X6.  The two requests read a missing ["cod"] differently: on an
    accepted response whose object has no ["cod"], or a null one,
    [current] returns the object, and [forecast_5day] raises
    [RuntimeError] with the provider's message, or with "Failed to fetch
    forecast", whatever the list is. *)
Theorem missing_cod_current_accepts_forecast_rejects
  (str_of_value : json -> string) (decode_samples : json -> result (list sample))
  (r : response) (kv : list (string * json)) :
  raise_for_status r = Ok tt -> json_body r = Ok (JObj kv) ->
  dict_get kv "cod" = None \/ dict_get kv "cod" = Some JNull ->
  current str_of_value (Replied r) = Ok (JObj kv) /\
  forecast_5day str_of_value decode_samples (Replied r)
  = Raise (Exn RuntimeError
             match dict_get kv "message" with
             | Some m => py_str str_of_value m
             | None => "Failed to fetch forecast"
             end).
Proof.
  intros Hs Hb Hc. unfold current, forecast_5day. simpl.
  rewrite Hs. simpl. rewrite Hb. simpl.
  destruct Hc as [-> | ->]; simpl; (split; [reflexivity|]);
    destruct (dict_get kv "message"); reflexivity.
Qed.

Lemma missing_cod_current_accepts_forecast_rejects_witness :
  current (fun _ => "") (Replied no_cod_response)
  = Ok (JObj [("main", JObj [("temp", JFloat (45 # 10))])]) /\
  forecast_5day (fun _ => "") (fun _ => Ok six_days) (Replied no_cod_response)
  = Raise (Exn RuntimeError "Failed to fetch forecast").
Proof.
  apply (missing_cod_current_accepts_forecast_rejects
           (fun _ => "") (fun _ => Ok six_days) no_cod_response
           [("main", JObj [("temp", JFloat (45 # 10))])]).
  - reflexivity.
  - reflexivity.
  - left. reflexivity.
Defined.

(** X7.  When the primary alerts endpoint answers 200 with an object
    that carries alerts, an empty list or no ["alerts"] at all, the value
    of [alerts] does not depend on the secondary endpoint. *)
Theorem alerts_primary_decides w1 :
  (exists a, answers_present w1 a) \/ answers_empty_list w1 \/ answers_without_alerts w1 ->
  forall w2 w2', alerts w1 w2 = alerts w1 w2'.
Proof.
  intros H w2 w2'. rewrite !alerts_unfold.
  destruct (attempt_cases w1) as [(v1 & -> & _)|[(-> & _)|(_ & N1 & N2 & N3)]];
    [reflexivity | reflexivity | exfalso].
  destruct H as [(a & H)|[H|H]]; [now apply (N1 a) | now apply N2 | now apply N3].
Qed.

Lemma alerts_primary_decides_witness :
  alerts no_alerts_reply timeout_reply = alerts no_alerts_reply no_alerts_reply.
Proof.
  apply (alerts_primary_decides no_alerts_reply). right. right.
  eexists _, _. repeat split.
Defined.

Lemma ip_failure_none w : ip_failure w -> ip_location w = Ok JNull.
Proof.
  intros F. unfold ip_location, ip_location_body.
  destruct F as [e|r Hs|r e Hb|r j Hb Hd|r kv Hb Hg|r kv Hb Hg|r kv Hb Hg]; simpl;
    [reflexivity| |destruct (raise_for_status r) as [[]|e']; simpl;
                   [rewrite Hb; simpl|reflexivity]..].
  - unfold raise_for_status.
    destruct Hs as [H1 H2]. apply Z.leb_le in H1. apply Z.ltb_lt in H2.
    now rewrite H1, H2.
  - reflexivity.
  - destruct j; simpl; try reflexivity. discriminate.
  - now rewrite Hg.
  - now rewrite Hg.
  - destruct (dict_get kv "lat") as [lat|]; simpl; [|reflexivity].
    destruct (is_none lat); simpl; [reflexivity|]. now rewrite Hg.
Qed.

(** X8.  When the IP lookup fails (a transport error, a 4xx or 5xx
    status, a body that is not a JSON object, no latitude or longitude),
    the task of [on_my_location] on the client ends in the one error
    signal "Couldn't detect your location. Try searching a city.",
    whatever the weather endpoints would answer. *)
Theorem location_lookup_failure_message
  (str_of_value : json -> string) (decode_samples : json -> result (list sample))
  (net : network) (units : string) :
  ip_failure (ipinfo_reply net) ->
  run (location_task str_of_value (weather_client str_of_value decode_samples net) units)
  = [error_emit "Couldn't detect your location. Try searching a city."].
Proof.
  intros F. apply location_task_not_detected. simpl. now apply ip_failure_none.
Qed.

Lemma location_lookup_failure_message_witness :
  run (location_task (fun _ => "") (weather_client (fun _ => "") (fun _ => Ok []) all_up) "metric")
  = [error_emit "Couldn't detect your location. Try searching a city."].
Proof.
  apply (location_lookup_failure_message (fun _ => "") (fun _ => Ok []) all_up "metric").
  apply ip_network_error.
Defined.

Lemma forecast_5day_aggregate str_of_value decode_samples w days :
  forecast_5day str_of_value decode_samples w = Ok days ->
  exists items, aggregate items = Ok days.
Proof.
  unfold forecast_5day. intros H.
  bind_inv H. bind_inv H. bind_inv H. bind_inv H.
  destruct (negb _); [bind_inv H; discriminate|].
  bind_inv H. bind_inv H. eauto.
Qed.

Lemma aggregate_at_most_five items days :
  aggregate items = Ok days -> (List.length days <= 5)%nat.
Proof.
  unfold aggregate. intros H. bind_inv H. bind_inv H. injection H as <-.
  apply (firstn_le_length 5).
Qed.

(** X9.  The forecast of every payload that a task on the client hands
    to the window has at most five entries, in strictly increasing order
    of their dates. *)
Theorem emitted_forecast_at_most_five
  (str_of_value : json -> string) (decode_samples : json -> result (list sample))
  (net : network) (units q : string) (p : payload) :
  In (result_emit p)
     (run (search_task (weather_client str_of_value decode_samples net) units q)) \/
  In (result_emit p)
     (run (location_task str_of_value (weather_client str_of_value decode_samples net) units)) ->
  (List.length (p_forecast p) <= 5)%nat /\ dates_increasing (p_forecast p).
Proof.
  intros H.
  assert (Hfc : exists w, forecast_5day str_of_value decode_samples w = Ok (p_forecast p)).
  { destruct H as [H|H].
    - destruct (search_task _ units q) as [p'|e] eqn:E; simpl in H;
        destruct H as [H|[]]; [|discriminate]. injection H as ->.
      unfold search_task in E. bind_inv E. destruct a as [[lat lon] label].
      bind_inv E. bind_inv E. bind_inv E. injection E as <-. simpl in *. eauto.
    - destruct (location_task _ _ units) as [p'|e] eqn:E; simpl in H;
        destruct H as [H|[]]; [|discriminate]. injection H as ->.
      unfold location_task in E. bind_inv E.
      destruct (negb (truthy a)); [discriminate|].
      do 8 bind_inv E. bind_inv E. injection E as <-. simpl in *. eauto. }
  destruct Hfc as (w & Hw). apply forecast_5day_aggregate in Hw as (items & Hagg).
  split; [now apply (aggregate_at_most_five items)|].
  apply (aggregate_dates_NoDup _ _ Hagg).
Qed.

Lemma emitted_forecast_at_most_five_witness :
  exists p,
    run (search_task (weather_client (fun _ => "") (fun _ => Ok six_days) all_up) "metric" "Paris")
    = [result_emit p] /\
    (List.length (p_forecast p) <= 5)%nat /\ dates_increasing (p_forecast p).
Proof.
  eexists. split; [vm_compute; reflexivity|].
  match goal with
  | |- (List.length (p_forecast ?p) <= 5)%nat /\ _ =>
      apply (emitted_forecast_at_most_five (fun _ => "") (fun _ => Ok six_days) all_up
               "metric" "Paris" p)
  end.
  left. vm_compute. now left.
Defined.

(** X10.  A 4xx or 5xx answer of the geocoding endpoint ends a search in
    the one error signal that carries the text of the HTTP error,
    whatever the body of the answer is. *)
Theorem http_error_reaches_user
  (str_of_value : json -> string) (decode_samples : json -> result (list sample))
  (net : network) (units q : string) (r : response) :
  400 <= status_code r < 600 -> geo_reply net q = Replied r ->
  run (search_task (weather_client str_of_value decode_samples net) units q)
  = [error_emit (status_text r)].
Proof.
  intros [H1 H2] Hg. unfold search_task, weather_client, geocode. simpl.
  rewrite Hg. simpl. unfold raise_for_status.
  apply Z.leb_le in H1. apply Z.ltb_lt in H2. now rewrite H1, H2.
Qed.

Lemma http_error_reaches_user_witness :
  run (search_task (weather_client (fun _ => "") (fun _ => Ok []) unauthorized) "metric" "Paris")
  = [error_emit "401 Client Error: Unauthorized"].
Proof.
  apply (http_error_reaches_user (fun _ => "") (fun _ => Ok []) unauthorized "metric" "Paris"
           (Response 401 "401 Client Error: Unauthorized" (Raise (Exn ValueError "")))).
  - simpl. lia.
  - reflexivity.
Defined.
(** ** Alerts within a search *)

Lemma alerts_total w1 w2 : exists v, alerts w1 w2 = Ok v.
Proof.
  rewrite alerts_unfold.
  destruct (attempt_cases w1) as [(v1 & -> & _)|[(-> & _)|(-> & _)]]; eauto.
  destruct (attempt_cases w2) as [(v2 & -> & _)|[(-> & _)|(-> & _)]]; eauto.
Qed.

(** X11.  The alerts are optional: when the geocoding, the current
    conditions and the forecast are fetched, the search ends in the one
    result signal, whatever the two alert endpoints answer. *)
Theorem alerts_never_fail_a_search
  (str_of_value : json -> string) (decode_samples : json -> result (list sample))
  (net : network) (units q : string) lat lon label curr fc :
  geocode str_of_value (geo_reply net q) = Ok (lat, lon, label) ->
  current str_of_value (current_reply net lat lon units) = Ok curr ->
  forecast_5day str_of_value decode_samples (forecast_reply net lat lon units) = Ok fc ->
  exists al,
    run (search_task (weather_client str_of_value decode_samples net) units q)
    = [result_emit (Payload lat lon label curr fc al None)] /\
    alerts (onecall30_reply net lat lon) (onecall25_reply net lat lon) = Ok al.
Proof.
  intros Hg Hc Hf.
  destruct (alerts_total (onecall30_reply net lat lon) (onecall25_reply net lat lon))
    as (al & Ha).
  exists al. split; [|exact Ha]. now apply search_task_result.
Qed.

Lemma alerts_never_fail_a_search_witness :
  exists al,
    run (search_task (weather_client (fun _ => "") (fun _ => Ok tie_group) alerts_down)
           "metric" "Paris")
    = [result_emit (Payload (JFloat (4885 # 100)) (JFloat (235 # 100)) "Paris, FR"
                      (JObj temp_only) [tie_day] al None)] /\
    alerts timeout_reply timeout_reply = Ok al.
Proof.
  apply (alerts_never_fail_a_search (fun _ => "") (fun _ => Ok tie_group) alerts_down
           "metric" "Paris").
  - reflexivity.
  - reflexivity.
  - vm_compute. reflexivity.
Defined.

(** ** The sections of the window *)

Lemma nothing_not_present w a : answers_nothing w -> answers_present w a -> False.
Proof. intros (N & _) P. exact (N a P). Qed.

Lemma nothing_not_empty w :
  answers_nothing w -> answers_empty_list w \/ answers_without_alerts w -> False.
Proof. intros (_ & N1 & N2) [E|E]; tauto. Qed.

(** X12.  What the "Alerts" section shows for the value that [alerts]
    returns: the note that alerts are not available when both endpoints
    answer nothing; the note that there are no active alerts when the
    deciding endpoint answers with an empty list or without ["alerts"];
    and the section reads the alerts [a] of the deciding endpoint
    otherwise. *)
Theorem alerts_section_of_answers
  (str_of_value : json -> string) (local_time : json -> result string) w1 w2 :
  exists v,
    alerts w1 w2 = Ok v /\
    (answers_nothing w1 /\ answers_nothing w2 ->
     alerts_section str_of_value local_time v
     = ([muted "Alerts not available on this API plan for this location."], None)) /\
    ((answers_empty_list w1 \/ answers_without_alerts w1) \/
     (answers_nothing w1 /\ (answers_empty_list w2 \/ answers_without_alerts w2)) ->
     alerts_section str_of_value local_time v
     = ([muted "No active alerts for this area."], None)) /\
    (forall a, answers_present w1 a \/ (answers_nothing w1 /\ answers_present w2 a) ->
               v = a).
Proof.
  rewrite alerts_unfold.
  destruct (attempt_cases w1) as [(v1 & -> & P1)|[(-> & E1)|(-> & N1)]].
  - exists v1. split; [reflexivity|]. assert (X := present_not_empty _ _ P1).
    split; [|split].
    + intros [N _]. destruct (nothing_not_present _ _ N P1).
    + intros [E|[N _]]; [contradiction | destruct (nothing_not_present _ _ N P1)].
    + intros a [P|[N _]]; [exact (present_unique _ _ _ P1 P) | destruct (nothing_not_present _ _ N P1)].
  - exists (JArr []). split; [reflexivity|]. split; [|split].
    + intros [N _]. destruct (nothing_not_empty _ N E1).
    + reflexivity.
    + intros a [P|[N _]]; [destruct (present_not_empty _ _ P E1) | destruct (nothing_not_empty _ N E1)].
  - destruct (attempt_cases w2) as [(v2 & -> & P2)|[(-> & E2)|(-> & N2)]].
    + exists v2. split; [reflexivity|]. assert (X := present_not_empty _ _ P2).
      split; [|split].
      * intros [_ N]. destruct (nothing_not_present _ _ N P2).
      * intros [E|[_ E]]; [destruct (nothing_not_empty _ N1 E) | contradiction].
      * intros a [P|[_ P]]; [destruct (nothing_not_present _ _ N1 P) | exact (present_unique _ _ _ P2 P)].
    + exists (JArr []). split; [reflexivity|]. split; [|split].
      * intros [_ N]. destruct (nothing_not_empty _ N E2).
      * reflexivity.
      * intros a [P|[_ P]]; [destruct (nothing_not_present _ _ N1 P) | destruct (present_not_empty _ _ P E2)].
    + exists JNull. split; [reflexivity|]. split; [|split].
      * reflexivity.
      * intros [E|[_ E]]; [destruct (nothing_not_empty _ N1 E) | destruct (nothing_not_empty _ N2 E)].
      * intros a [P|[_ P]]; [destruct (nothing_not_present _ _ N1 P) | destruct (nothing_not_present _ _ N2 P)].
Qed.

Lemma alerts_section_of_answers_witness :
  exists v,
    alerts timeout_reply timeout_reply = Ok v /\
    alerts_section (fun _ => "") (fun _ => Ok "") v
    = ([muted "Alerts not available on this API plan for this location."], None).
Proof.
  destruct (alerts_section_of_answers (fun _ => "") (fun _ => Ok "")
              timeout_reply timeout_reply) as (v & Hv & Hnone & _).
  exists v. split; [exact Hv|]. apply Hnone.
  assert (N : answers_nothing timeout_reply).
  { repeat split; [intros a|..]; intros (r & kv & E & _); discriminate. }
  now split.
Defined.

Lemma add_widgets_all {A W} (make : A -> result W) l ws :
  Forall2 (fun a w => make a = Ok w) l ws -> add_widgets make l = (ws, None).
Proof.
  induction 1 as [|a w l ws Ha _ IH]; simpl; [reflexivity|]. now rewrite Ha, IH.
Qed.

Lemma alert_card_of_object str_of_value local_time a :
  alert_object a ->
  exists title timing body,
    alert_card_of str_of_value local_time a = Ok (alert_card title timing body) /\
    py_get a "description" (JStr "") = Ok (JStr body).
Proof.
  intros (kv & -> & Hd). unfold alert_card_of. simpl.
  destruct (try_except _ _) as [[start finish]|e] eqn:E.
  2:{ exfalso. revert E.
      destruct (alert_time local_time _) as [s|]; simpl; [|discriminate].
      destruct (alert_time local_time _) as [f|]; simpl; discriminate. }
  simpl. destruct Hd as [-> | (s & ->)]; simpl; eauto.
Qed.

(** X13.  A non-empty list of alerts, each an object whose description
    is a text or is missing, gives one card per alert, in their order,
    with the description as its body, and no exception: also when the
    times of an alert cannot be formatted. *)
Theorem alert_cards_one_per_alert
  (str_of_value : json -> string) (local_time : json -> result string) (l : list json) :
  l <> [] -> Forall alert_object l ->
  exists cards,
    alerts_section str_of_value local_time (JArr l) = (cards, None) /\
    Forall2 (fun a w => exists title timing body,
                 w = alert_card title timing body /\
                 py_get a "description" (JStr "") = Ok (JStr body))
            l cards.
Proof.
  intros Hne HF.
  assert (H : exists cards,
             Forall2 (fun a w => alert_card_of str_of_value local_time a = Ok w) l cards /\
             Forall2 (fun a w => exists title timing body,
                          w = alert_card title timing body /\
                          py_get a "description" (JStr "") = Ok (JStr body)) l cards).
  { clear Hne. induction HF as [|a r Ha _ (cards & H1 & H2)].
    - exists []. split; constructor.
    - destruct (alert_card_of_object str_of_value local_time a Ha) as (t & tm & b & E1 & E2).
      exists (alert_card t tm b :: cards). split; constructor; eauto. }
  destruct H as (cards & H1 & H2). exists cards. split; [|assumption].
  unfold alerts_section. destruct l as [|a r]; [congruence|]. simpl.
  now apply add_widgets_all in H1.
Qed.

Lemma alert_cards_one_per_alert_witness :
  exists cards,
    alerts_section (fun _ => "") (fun _ => Raise (Exn ValueError "year out of range"))
      (JArr [JObj [("event", JStr "Flood"); ("start", JInt 1700000000);
                   ("description", JStr "River levels rise.")];
             JObj [("sender_name", JStr "Met Office")]])
    = (cards, None) /\
    Forall2 (fun a w => exists title timing body,
                 w = alert_card title timing body /\
                 py_get a "description" (JStr "") = Ok (JStr body))
      [JObj [("event", JStr "Flood"); ("start", JInt 1700000000);
             ("description", JStr "River levels rise.")];
       JObj [("sender_name", JStr "Met Office")]]
      cards.
Proof.
  apply (alert_cards_one_per_alert (fun _ => "")
           (fun _ => Raise (Exn ValueError "year out of range"))).
  - discriminate.
  - repeat constructor.
    + eexists. split; [reflexivity|]. right. eexists. reflexivity.
    + eexists. split; [reflexivity|]. left. reflexivity.
Defined.

(** The leaves of the case analysis of the "Current" section: the
    section raises and the conditions fail, or it returns and they
    hold. *)
Ltac section_raises :=
  let H := fresh "H" in
  let Hc := fresh "Hc" in
  let Hf := fresh "Hf" in
  let E := fresh "E" in
  let Hd := fresh "Hd" in
  split;
  [ split;
    [ intros (? & H); discriminate H
    | intros (? & ? & Hc); exfalso;
      first
        [ assumption
        | destruct Hc as [Hf|(? & ? & E & Hd)];
          [ congruence
          | first [ discriminate E
                  | injection E as <- <-; destruct Hd as [Hd|(? & Hd)]; congruence ] ] ] ]
  | intros ? H; discriminate H ].

Ltac without_object :=
  match goal with
  | |- context [subscript0 ?a] => destruct (subscript0 a)
  end; cbn [bind py_get]; section_raises.

Ltac section_returns :=
  let H := fresh "H" in
  let X := fresh "X" in
  let Y := fresh "Y" in
  split;
  [ split;
    [ intros _; split; [exact I | split; [exact I|]];
      first
        [ exact I
        | left; reflexivity
        | right; eexists _, _; split;
          [ reflexivity | first [left; eassumption | right; eexists; eassumption] ] ]
    | intros _; eexists; reflexivity ]
  | intros ? H; injection H as <-; cbn [lbl_temp lbl_feels lbl_desc current_icon];
    split; [|split];
    [ intros X; first [discriminate X | split; reflexivity]
    | intros X; first [discriminate X | split; reflexivity]
    | intros ? ? X Y; first [discriminate X | injection X as <-; rewrite Y; reflexivity] ] ].

Ltac weather_cases kv :=
  let w := fresh "w" in
  let Ec := fresh "Ec" in
  let Et := fresh "Et" in
  destruct (dict_get kv "weather") as [w|] eqn:Ec; cbn [bind truthy];
  [ destruct (truthy w) eqn:Et;
    [ destruct w as [| | | |s|[|x rest]|okv];
      try discriminate Et; cbn [subscript0 index0 bind py_get];
      [ section_raises | section_raises | section_raises
      | destruct s; [discriminate Et | cbn [bind py_get]; section_raises]
      | destruct x as [| | | | | |ckv]; cbn [bind py_get]; try section_raises;
        let d := fresh "d" in
        let Ed := fresh "Ed" in
        destruct (dict_get ckv "description") as [d|] eqn:Ed;
        [ destruct d; cbn [py_title bind]; first [section_raises | section_returns]
        | cbn [py_title bind]; section_returns ]
      | section_raises ]
    | cbn [subscript0 index0 bind py_get dict_get py_title]; section_returns ]
  | cbn [subscript0 index0 bind py_get dict_get py_title]; section_returns ].

(** X14.  The "Current" section guards against missing keys.  On the
    current conditions [kv] it raises nothing exactly when ["main"] and
    ["wind"] are missing or objects, and ["weather"] is missing, falsy,
    or a list that starts with an object whose ["description"] is missing
    or a text.  Then, without ["main"] the temperature shows as a dash,
    without ["weather"] the description is a dash and no icon is named,
    and a fractional temperature shows rounded to the nearest integer, a
    tie going to the even neighbour.  (The numbers of the payload are
    rationals: the infinities and the NaN that Python's JSON decoder
    accepts, on which [round] raises, are not covered.) *)
Theorem current_section_guards_missing_keys
  (str_of_value : json -> string) (units : string) (kv : list (string * json)) :
  ((exists labels, current_section str_of_value units (JObj kv) = Ok labels) <->
   absent_or_object (dict_get kv "main") /\
   absent_or_object (dict_get kv "wind") /\
   absent_or_conditions (dict_get kv "weather")) /\
  (forall labels,
     current_section str_of_value units (JObj kv) = Ok labels ->
     (dict_get kv "main" = None ->
      lbl_temp labels = (dash ++ deg_of units)%string /\
      lbl_feels labels = ("Feels like " ++ dash)%string) /\
     (dict_get kv "weather" = None ->
      lbl_desc labels = dash /\ current_icon labels = JNull) /\
     (forall mkv q,
        dict_get kv "main" = Some (JObj mkv) -> dict_get mkv "temp" = Some (JFloat q) ->
        lbl_temp labels = (str_int (py_round q) ++ deg_of units)%string)).
Proof.
  unfold current_section, absent_or_conditions. cbn [py_get bind].
  destruct (dict_get kv "main") as [[| | | | | |mkv]|] eqn:Em; cbn [py_get bind];
    try solve [without_object];
    (destruct (dict_get kv "wind") as [[| | | | | |wkv]|] eqn:Ew; cbn [py_get bind];
     try solve [without_object]).
  - weather_cases kv.
  - weather_cases kv.
  - weather_cases kv.
  - weather_cases kv.
Qed.

Lemma current_section_guards_missing_keys_witness :
  exists labels,
    current_section (fun _ => "None") "metric" (JObj temp_only) = Ok labels /\
    lbl_temp labels = (str_int 4 ++ deg_of "metric")%string /\
    lbl_desc labels = dash /\ current_icon labels = JNull.
Proof.
  destruct (current_section_guards_missing_keys (fun _ => "None") "metric" temp_only)
    as [[_ Hret] Hlabels].
  destruct Hret as (labels & E); [simpl; tauto|].
  exists labels. split; [exact E|].
  destruct (Hlabels labels E) as (_ & Hw & Ht).
  split; [|apply Hw; reflexivity].
  apply (Ht [("temp", JFloat (45 # 10))] (45 # 10)); reflexivity.
Defined.

(** A null ["main"] is not guarded against. *)
Example current_section_null_main :
  current_section (fun _ => "None") "metric" (JObj [("main", JNull)])
  = Raise (Exn AttributeError "object has no attribute 'get'").
Proof. reflexivity. Qed.

(** ** The dates of the forecast cards *)

Lemma digit_value_digit_char n : digit_value (digit_char n) = Some (n mod 10).
Proof.
  unfold digit_char.
  assert (H : 0 <= n mod 10 < 10) by (apply Z.mod_pos_bound; lia).
  replace (n mod 10) with (Z.of_nat (Z.to_nat (n mod 10))) by lia.
  assert (Hk : (Z.to_nat (n mod 10) < 10)%nat) by lia.
  revert Hk. generalize (Z.to_nat (n mod 10)) as k. intros k Hk.
  do 10 (destruct k as [|k]; [reflexivity|]). lia.
Qed.

Lemma parse_year_dec y r :
  0 <= y < 10000 -> parse_year (dec_fixed 4 y ++ r) = Some (y, r).
Proof.
  intros H. cbn [dec_fixed append]. unfold parse_year.
  rewrite !digit_value_digit_char. do 2 f_equal.
  Z.div_mod_to_equations. lia.
Qed.

Lemma parse_month_dec m r :
  1 <= m <= 12 -> parse_month (dec_fixed 2 m ++ r) = Some (m, r).
Proof.
  intros H. replace m with (Z.of_nat (Z.to_nat m)) by lia.
  assert (Hk : (Z.to_nat m <= 12)%nat) by lia.
  assert (Hk' : (1 <= Z.to_nat m)%nat) by lia.
  revert Hk Hk'. generalize (Z.to_nat m) as k. intros k Hk Hk'.
  do 13 (destruct k as [|k]; [first [lia | reflexivity]|]). lia.
Qed.

Lemma parse_day_dec d :
  1 <= d <= 31 -> parse_day (dec_fixed 2 d) = Some (d, "").
Proof.
  intros H. replace d with (Z.of_nat (Z.to_nat d)) by lia.
  assert (Hk : (Z.to_nat d <= 31)%nat) by lia.
  assert (Hk' : (1 <= Z.to_nat d)%nat) by lia.
  revert Hk Hk'. generalize (Z.to_nat d) as k. intros k Hk Hk'.
  do 32 (destruct k as [|k]; [first [lia | reflexivity]|]). lia.
Qed.

(** [strptime] reads back what [strftime] writes, for the dates that
    exist from the year 1000 on. *)
Lemma strptime_strftime y m d h :
  1000 <= y <= 9999 -> 1 <= m <= 12 -> 1 <= d <= days_in_month y m ->
  strptime_ymd (strftime_ymd (Datetime y m d h)) = Ok (y, m, d).
Proof.
  intros Hy Hm Hd.
  assert (Hd' : 1 <= d <= 31).
  { split; [lia|]. apply Z.le_trans with (days_in_month y m); [lia|].
    unfold days_in_month. repeat destruct (_ =? _); try destruct (is_leap y); simpl; lia. }
  unfold strftime_ymd, strptime_ymd. cbn [year month mday].
  assert (F : format_year y = dec_fixed 4 y).
  { unfold format_year.
    destruct (y <? 10) eqn:E1; [apply Z.ltb_lt in E1; lia|].
    destruct (y <? 100) eqn:E2; [apply Z.ltb_lt in E2; lia|].
    destruct (y <? 1000) eqn:E3; [apply Z.ltb_lt in E3; lia|]. reflexivity. }
  rewrite F, parse_year_dec by lia.
  change ("-" ++ dec_fixed 2 m ++ "-" ++ dec_fixed 2 d)%string
    with (String "-" (dec_fixed 2 m ++ String "-" (dec_fixed 2 d)))%string.
  cbn [Ascii.eqb Bool.eqb]. rewrite parse_month_dec by lia.
  cbn [Ascii.eqb Bool.eqb]. rewrite parse_day_dec by lia.
  destruct (y <? 1) eqn:E1; [apply Z.ltb_lt in E1; lia|].
  destruct (days_in_month y m <? d) eqn:E2; [apply Z.ltb_lt in E2; lia|]. reflexivity.
Qed.

(** Before the year 1000 it does not: the year is written with fewer
    than four digits. *)
Example strptime_before_1000 :
  strftime_ymd (Datetime 999 12 31 0) = "999-12-31" /\
  strptime_ymd "999-12-31"
  = Raise (Exn ValueError "time data does not match format '%Y-%m-%d'").
Proof. split; reflexivity. Qed.

Lemma month_length_ok_all : all_in 9 0 month_length_ok = true.
Proof. vm_compute. reflexivity. Qed.

Lemma month_length_ok_spec doy :
  0 <= doy < 366 ->
  let '(m, d) := md_of_doy doy in
  if m =? 2 then (if doy <? 365 then d <= 28 else d = 29)
  else d <= days_in_month 1 m.
Proof.
  intros H.
  assert (Hok := all_in_spec 9 month_length_ok 0 month_length_ok_all doy).
  change (2 ^ Z.of_nat 9) with 512 in Hok. specialize (Hok ltac:(lia)).
  unfold month_length_ok in Hok.
  destruct (doy <? 366) eqn:E; [|apply Z.ltb_ge in E; lia].
  destruct (md_of_doy doy) as [m d].
  destruct (m =? 2); [destruct (doy <? 365)|].
  - now apply Z.leb_le.
  - now apply Z.eqb_eq.
  - now apply Z.leb_le.
Qed.

(** The day of the month that [civil_from_days] gives exists in its
    month. *)
Lemma civil_day_exists n :
  let '(y, m, d) := civil_from_days n in d <= days_in_month y m.
Proof.
  rewrite civil_from_days_era.
  set (doe := (n + 719468) mod 146097). set (era := (n + 719468) / 146097).
  assert (Hm : 0 <= doe < 146097) by (apply Z.mod_pos_bound; lia).
  unfold ymd_of_doe.
  destruct (doy_range doe ltac:(lia)) as (R1 & R2 & R3).
  assert (Y := yoe_of_range doe ltac:(lia)).
  assert (D := month_length_ok_spec (doe - start_of (yoe_of doe)) ltac:(lia)).
  destruct (md_of_doy (doe - start_of (yoe_of doe))) as [m d].
  unfold days_in_month in *.
  destruct (m =? 2) eqn:E2; [|exact D].
  apply Z.eqb_eq in E2. subst m. change (carry 2) with 1.
  destruct (doe - start_of (yoe_of doe) <? 365) eqn:E5.
  { destruct (is_leap _); lia. }
  apply Z.ltb_ge in E5. subst d.
  assert (L : is_leap (yoe_of doe + 1 + 400 * era) = true); [|rewrite L; lia].
  unfold is_leap. set (yoe := yoe_of doe) in *.
  destruct (Z.eq_dec yoe 399) as [E|N].
  - rewrite E. replace (399 + 1 + 400 * era) with (400 * (era + 1)) by lia.
    assert (A : (400 * (era + 1)) mod 4 = 0) by (Z.div_mod_to_equations; lia).
    assert (B : (400 * (era + 1)) mod 400 = 0) by (Z.div_mod_to_equations; lia).
    rewrite A, B. simpl. now rewrite orb_true_r.
  - specialize (R2 ltac:(lia)). unfold start_of in R1, R2, R3, E5.
    assert (A : (yoe + 1 + 400 * era) mod 4 = 0) by (Z.div_mod_to_equations; lia).
    assert (B : (yoe + 1 + 400 * era) mod 100 <> 0) by (Z.div_mod_to_equations; lia).
    rewrite A. apply Z.eqb_neq in B. rewrite B. reflexivity.
Qed.

(** The date string of a sample from the year 1000 on reads back as the
    civil date of its UTC day. *)
Lemma strptime_date_key s k :
  four_digit_year s -> date_key s = Ok k ->
  strptime_ymd k = Ok (civil_from_days (utc_day s)).
Proof.
  intros F H. apply date_key_inv in H as (R & y & m & d & h & C & ->).
  assert (D : year_1000_timestamp / 86400 <= utc_day s <= max_timestamp / 86400).
  { unfold four_digit_year in F. unfold utc_day. split; apply Z.div_le_mono; lia. }
  assert (Hy := civil_year_four_digits _ D). assert (Hm := civil_month_day (utc_day s)).
  assert (Hd := civil_day_exists (utc_day s)).
  rewrite C in *. apply strptime_strftime; lia.
Qed.

(** X15.  The "Forecast" section reads every date of an aggregation of
    samples from the year 1000 on: it raises nothing and adds one card
    per entry, in their order, with the entry's icon and description,
    and the date of a card is the civil date of the UTC day of the
    samples that the entry summarises. *)
Theorem forecast_cards_show_sample_dates (units : string) items days :
  aggregate items = Ok days -> Forall four_digit_year items ->
  exists cards,
    forecast_section units days = (cards, None) /\
    Forall2 (fun d c =>
               (forall s, In s (date_group (date d) items) ->
                          card_date c = civil_from_days (utc_day s)) /\
               card_icon c = icon d /\ card_desc c = desc d)
            days cards.
Proof.
  intros H HF. rewrite Forall_forall in HF.
  assert (Hall : Forall (fun d => date_group (date d) items <> []) days).
  { apply Forall_forall. intros d Hd. apply (aggregate_entry _ _ _ H Hd). }
  clear H. unfold forecast_section.
  induction Hall as [|d r Hne _ (cards & E & F2)].
  - exists []. split; [reflexivity | constructor].
  - destruct (date_group (date d) items) as [|s0 g] eqn:Eg; [congruence|].
    assert (Hs0 : In s0 (date_group (date d) items)) by (rewrite Eg; now left).
    assert (P0 := strptime_date_key s0 (date d)
                    (HF _ (date_group_incl _ _ _ Hs0)) (date_group_key _ _ _ Hs0)).
    eexists (_ :: cards). split.
    + cbn [add_widgets]. unfold forecast_card_of at 1. rewrite P0. cbn [bind].
      rewrite E. reflexivity.
    + constructor; [|assumption]. cbn [card_date card_icon card_desc].
      split; [|split; reflexivity]. intros s Hs.
      assert (P := strptime_date_key s (date d)
                     (HF _ (date_group_incl _ _ _ Hs)) (date_group_key _ _ _ Hs)).
      congruence.
Qed.

Lemma forecast_cards_show_sample_dates_witness :
  exists days cards,
    aggregate six_days = Ok days /\
    forecast_section "metric" days = (cards, None) /\
    Forall2 (fun d c =>
               (forall s, In s (date_group (date d) six_days) ->
                          card_date c = civil_from_days (utc_day s)) /\
               card_icon c = icon d /\ card_desc c = desc d)
            days cards.
Proof.
  eexists.
  match goal with
  | |- exists cards, aggregate six_days = Ok ?d /\ _ =>
      assert (H : aggregate six_days = Ok d) by (vm_compute; reflexivity)
  end.
  destruct (forecast_cards_show_sample_dates "metric" six_days _ H) as (cards & H1 & H2).
  - unfold six_days, sample_at, four_digit_year, year_1000_timestamp.
    repeat constructor; simpl; lia.
  - exists cards. auto.
Defined.

(** ** File names *)

Lemma rstrip_idempotent s : rstrip (rstrip s) = rstrip s.
Proof.
  induction s as [|c r IH]; [reflexivity|]. cbn [rstrip].
  destruct (rstrip r) as [|c' r'] eqn:E.
  - destruct (is_space c) eqn:Ec; [reflexivity|]. cbn [rstrip]. now rewrite Ec.
  - cbn [rstrip]. cbn [rstrip] in IH. rewrite IH. reflexivity.
Qed.

Lemma lstrip_head s :
  lstrip s = "" \/ exists c r, lstrip s = String c r /\ is_space c = false.
Proof.
  induction s as [|c r IH]; simpl; [now left|].
  destruct (is_space c) eqn:E; [assumption|]. right. eauto.
Qed.

Lemma rstrip_head c r :
  is_space c = false -> exists r', rstrip (String c r) = String c r'.
Proof.
  intros E. cbn [rstrip]. destruct (rstrip r); [rewrite E|]; eauto.
Qed.

Lemma strip_idempotent s : strip (strip s) = strip s.
Proof.
  unfold strip. destruct (lstrip_head s) as [->|(c & r & -> & E)]; [reflexivity|].
  destruct (rstrip_head c r E) as (r' & Hr). rewrite Hr.
  cbn [lstrip]. rewrite E, <- Hr. apply rstrip_idempotent.
Qed.

Lemma generate_filename_nonempty image a now : generate_filename image a now <> "".
Proof.
  unfold generate_filename. destruct (auto_name image a); [discriminate|].
  destruct (String.eqb _ "") eqn:E; [discriminate|]. now apply String.eqb_neq in E.
Qed.

Lemma blank_app a b : blank a -> blank b -> blank (a ++ b).
Proof.
  unfold blank. intros Ha Hb. induction a as [|c r IH]; simpl; [assumption|].
  simpl in Ha. apply Forall_cons_iff in Ha as [Hc Hr]. constructor; auto.
Qed.

Lemma lstrip_split s : exists pre, s = (pre ++ lstrip s)%string /\ blank pre.
Proof.
  induction s as [|c r (pre & E & B)]; simpl.
  - exists "". split; [reflexivity | constructor].
  - destruct (is_space c) eqn:Ec.
    + exists (String c pre). split; [simpl; now rewrite <- E|].
      unfold blank. simpl. constructor; assumption.
    + exists "". split; [reflexivity | constructor].
Qed.

Lemma rstrip_split s : exists post, s = (rstrip s ++ post)%string /\ blank post.
Proof.
  induction s as [|c r (post & E & B)]; cbn [rstrip].
  - exists "". split; [reflexivity | constructor].
  - destruct (rstrip r) as [|c' r'] eqn:Er.
    + destruct (is_space c) eqn:Ec.
      * exists (String c r). split; [reflexivity|].
        simpl in E. subst post. unfold blank. simpl. constructor; assumption.
      * exists post. split; [|assumption]. simpl in *. now rewrite <- E.
    + exists post. split; [|assumption]. simpl in *. now rewrite <- E.
Qed.

Lemma lstrip_first s c : first_char (lstrip s) = Some c -> is_space c = false.
Proof.
  destruct (lstrip_head s) as [->|(c' & r & -> & E)]; simpl; [discriminate|].
  now intros H; injection H as <-.
Qed.

Lemma rstrip_first s c : first_char (rstrip s) = Some c -> first_char s = Some c.
Proof.
  destruct s as [|c' r]; [discriminate|]. cbn [rstrip].
  destruct (rstrip r); [destruct (is_space c')|]; simpl; auto; discriminate.
Qed.

Lemma rstrip_last s c : last_char (rstrip s) = Some c -> is_space c = false.
Proof.
  induction s as [|c' r IH]; cbn [rstrip]; [discriminate|].
  destruct (rstrip r) as [|c'' r'] eqn:Er.
  - destruct (is_space c') eqn:Ec; simpl; [discriminate|].
    now intros H; injection H as <-.
  - intros H. apply IH. exact H.
Qed.

(** X16.  The base name of a saved file is never empty.  A name typed
    by the user neither starts nor ends with a white-space character,
    and, for a text of ASCII characters, it is the typed text without
    the white space around it, or "qrcode" when the text is nothing but
    white space. *)
Theorem generate_filename_stripped image (a : app image) now :
  let name := generate_filename image a now in
  name <> "" /\
  (auto_name image a = false ->
   (forall c, first_char name = Some c -> is_space c = false) /\
   (forall c, last_char name = Some c -> is_space c = false) /\
   (ascii_text (filename_edit image a) ->
    (exists pre post,
       filename_edit image a = (pre ++ name ++ post)%string /\ blank pre /\ blank post) \/
    (name = "qrcode" /\ blank (filename_edit image a)))).
Proof.
  intros name. split; [apply generate_filename_nonempty|].
  unfold name, generate_filename. intros ->.
  destruct (lstrip_split (filename_edit image a)) as (pre & Epre & Bpre).
  destruct (rstrip_split (lstrip (filename_edit image a))) as (post & Epost & Bpost).
  fold (strip (filename_edit image a)) in Epost.
  destruct (String.eqb (strip (filename_edit image a)) "") eqn:E.
  - apply String.eqb_eq in E. split; [|split].
    + intros c H. injection H as <-. reflexivity.
    + intros c H. injection H as <-. reflexivity.
    + intros _. right. split; [reflexivity|].
      rewrite Epre, Epost, E. now apply blank_app.
  - split; [|split].
    + intros c H. apply rstrip_first in H. now apply lstrip_first in H.
    + intros c H. now apply rstrip_last in H.
    + intros _. left. exists pre, post. split; [|split; assumption].
      rewrite Epre at 1. now rewrite Epost at 1.
Qed.

Lemma generate_filename_stripped_witness :
  exists pre post,
    " code " = (pre ++ generate_filename nat demo_app "20250101_120000" ++ post)%string /\
    blank pre /\ blank post.
Proof.
  destruct (generate_filename_stripped nat demo_app "20250101_120000") as [_ H].
  destruct (H eq_refl) as (_ & _ & [Hs|[Hq _]]).
  - unfold ascii_text. simpl. repeat constructor.
  - exact Hs.
  - discriminate Hq.
Defined.

Lemma prefix_append a b : String.prefix a (a ++ b) = true.
Proof.
  induction a as [|c r IH]; simpl; [now destruct b|].
  destruct (ascii_dec c c); [assumption | congruence].
Qed.

Lemma join_relative a b : starts_with_sep b = false -> String.prefix a (join a b) = true.
Proof.
  intros H. unfold join. rewrite H.
  destruct (_ || _); apply prefix_append.
Qed.

Lemma join_absolute a b : starts_with_sep b = true -> join a b = b.
Proof. intros H. unfold join. now rewrite H. Qed.

Lemma starts_with_sep_append a b : a <> "" -> starts_with_sep (a ++ b) = starts_with_sep a.
Proof. destruct a; [congruence | reflexivity]. Qed.

(** X17.  A successful [save_qr] writes under the directory selected
    for saving (the path starts with it) unless the base name starts with
    a separator, which a typed name can and an automatic name cannot;
    then the path starts with that name and the directory plays no part. *)
Theorem saved_path_under_directory (image : Type) (encode : string -> image -> string)
  (a : app image) (now : string) (fs : filesystem) (qr : image) :
  current_qr image a = Some qr ->
  exists p data,
    save_qr image encode a now None fs
    = Some (Outcome (write_file fs p data)
              (Some ("QR code saved to: " ++ basename p)%string)
              (Some (information "Success"
                       ("QR code saved successfully to:" ++ newline ++ p)%string))) /\
    (starts_with_sep (generate_filename image a now) = false ->
     String.prefix (current_save_dir image a) p = true) /\
    (starts_with_sep (generate_filename image a now) = true ->
     String.prefix (generate_filename image a now) p = true) /\
    (auto_name image a = true -> String.prefix (current_save_dir image a) p = true).
Proof.
  intros Hq. unfold save_qr. rewrite Hq.
  set (dir := current_save_dir image a). set (base := generate_filename image a now).
  set (ext := lower (format_combo image a)).
  assert (Hne : base <> "") by apply generate_filename_nonempty.
  destruct (save_path_total fs dir base ext) as (p & Hp). rewrite Hp.
  exists p. eexists. split; [reflexivity|].
  apply resolve_conflicts_spec in Hp as (_ & Hwhich).
  assert (Hshape : exists rest, p = join dir (base ++ rest)%string).
  { destruct Hwhich as [->|(k & _ & -> & _)]; unfold numbered_path; eauto. }
  destruct Hshape as (rest & ->).
  assert (Hrel : starts_with_sep base = false ->
                 String.prefix dir (join dir (base ++ rest)) = true).
  { intros H. apply join_relative. now rewrite starts_with_sep_append. }
  split; [exact Hrel|]. split.
  - intros H. rewrite join_absolute by now rewrite starts_with_sep_append.
    apply prefix_append.
  - intros Ha. apply Hrel. unfold base, generate_filename. now rewrite Ha.
Qed.

Lemma saved_path_under_directory_witness :
  exists p data,
    save_qr nat demo_encode demo_app "20250101_120000" None demo_files
    = Some (Outcome (write_file demo_files p data)
              (Some ("QR code saved to: " ++ basename p)%string)
              (Some (information "Success"
                       ("QR code saved successfully to:" ++ newline ++ p)%string))) /\
    (starts_with_sep (generate_filename nat demo_app "20250101_120000") = false ->
     String.prefix (current_save_dir nat demo_app) p = true) /\
    (starts_with_sep (generate_filename nat demo_app "20250101_120000") = true ->
     String.prefix (generate_filename nat demo_app "20250101_120000") p = true) /\
    (auto_name nat demo_app = true -> String.prefix (current_save_dir nat demo_app) p = true).
Proof.
  apply (saved_path_under_directory nat demo_encode demo_app "20250101_120000" demo_files 7%nat).
  reflexivity.
Defined.

(** A typed name that starts with a separator leaves the directory. *)
Example save_qr_absolute_name :
  save_qr nat demo_encode (App nat (Some 7%nat) false "/tmp/code" "PNG" "/out")
    "20250101_120000" None demo_files
  = Some (Outcome (demo_files ++ [("/tmp/code.png", "PNG image")])
            (Some "QR code saved to: code.png")
            (Some (information "Success"
                     ("QR code saved successfully to:" ++ newline ++ "/tmp/code.png")%string))).
Proof. vm_compute. reflexivity. Qed.

Lemma write_file_new_length fs p c :
  path_exists fs p = false -> List.length (write_file fs p c) = S (List.length fs).
Proof.
  induction fs as [|[p' c'] r IH]; simpl; [reflexivity|].
  destruct (String.eqb p' p); simpl; [discriminate|]. intros H. now rewrite IH.
Qed.

(** X18.  Saving [n] times in a row, even within one second and under
    one name, adds [n] files and leaves every earlier file with its
    content. *)
Theorem repeated_saves_add_files (image : Type) (encode : string -> image -> string)
  (a : app image) (now : string) (qr : image) (n : nat) (fs : filesystem) :
  current_qr image a = Some qr ->
  exists fs',
    save_times encode a now n fs = Some fs' /\
    List.length fs' = (List.length fs + n)%nat /\
    (forall p c, read_file fs p = Some c -> read_file fs' p = Some c).
Proof.
  intros Hq. revert fs. induction n as [|n IH]; intros fs; cbn [save_times].
  - exists fs. split; [reflexivity|]. split; [lia | auto].
  - unfold save_qr. rewrite Hq.
    destruct (save_path_total fs (current_save_dir image a) (generate_filename image a now)
                (lower (format_combo image a))) as (p & Hp).
    rewrite Hp. cbn [files].
    apply resolve_conflicts_spec in Hp as (Hfree & _).
    match goal with
    | |- context [write_file fs p ?d] => destruct (IH (write_file fs p d)) as (fs' & E & L & K)
    end.
    exists fs'. split; [exact E|]. split.
    + rewrite L, write_file_new_length by assumption. lia.
    + intros q c Hr. apply K. rewrite read_write_other; [assumption|].
      intros ->. apply read_exists in Hr. congruence.
Qed.

Lemma repeated_saves_add_files_witness :
  exists fs',
    save_times demo_encode demo_app "20250101_120000" 3 demo_files = Some fs' /\
    List.length fs' = (List.length demo_files + 3)%nat /\
    (forall p c, read_file demo_files p = Some c -> read_file fs' p = Some c).
Proof.
  apply (repeated_saves_add_files nat demo_encode demo_app "20250101_120000" 7%nat 3 demo_files).
  reflexivity.
Defined.

(** X19.  [save_qr_as] writes to the path that the dialog returns, also
    over a file that exists there; a cancelled dialog changes nothing;
    and whatever becomes of the write (it succeeds, or it fails before or
    after the file is opened), no file other than the one at that path
    changes. *)
Theorem save_qr_as_writes_chosen_path (image : Type) (encode : string -> image -> string)
  (a : app image) (file_path : string) (io_error : option write_failure)
  (fs : filesystem) (qr : image) :
  current_qr image a = Some qr ->
  let out := save_qr_as image encode a file_path io_error fs in
  (file_path = "" -> out = Outcome fs None None) /\
  (file_path <> "" -> io_error = None ->
   read_file (files out) file_path
   = Some (if String.eqb (format_combo image a) "JPEG"
           then encode "JPEG" qr else encode "PNG" qr) /\
   status_label out = Some ("QR code saved to: " ++ basename file_path)%string) /\
  (forall p, p <> file_path -> read_file (files out) p = read_file fs p).
Proof.
  intros Hq. unfold save_qr_as. rewrite Hq. cbv zeta.
  destruct (String.eqb file_path "") eqn:E.
  - apply String.eqb_eq in E. subst. repeat split; auto; congruence.
  - apply String.eqb_neq in E. split; [congruence|].
    destruct io_error as [[e [written|]]|]; cbn [files status_label left_at_path].
    + split; [discriminate|]. intros p Hp. now apply read_write_other.
    + split; [discriminate | reflexivity].
    + split.
      * intros _ _. split; [apply read_write_same | reflexivity].
      * intros p Hp. now apply read_write_other.
Qed.

Lemma save_qr_as_writes_chosen_path_witness :
  read_file demo_files "/out/code.png" = Some "first" /\
  read_file (files (save_qr_as nat demo_encode demo_app "/out/code.png" None demo_files))
    "/out/code.png" = Some "PNG image".
Proof.
  split; [reflexivity|].
  apply (save_qr_as_writes_chosen_path nat demo_encode demo_app "/out/code.png" None
           demo_files 7%nat).
  - reflexivity.
  - discriminate.
  - reflexivity.
Defined.

(** A write that fails after the file is opened empties a file that
    existed at the path. *)
Example save_qr_as_failed_write (e : exn) :
  read_file
    (files (save_qr_as nat demo_encode demo_app "/out/code.png"
              (Some (Write_failure e (Some ""))) demo_files))
    "/out/code.png" = Some "".
Proof. reflexivity. Qed.

(** ** Module styles *)

Lemma py_range_spec stop step l :
  0 < step -> py_range stop step = Ok l ->
  forall x, In x l <-> (0 <= x < stop /\ x mod step = 0).
Proof.
  intros Hs H x. unfold py_range in H.
  destruct (step =? 0) eqn:E0; [apply Z.eqb_eq in E0; lia|].
  injection H as <-. unfold range_length.
  destruct (0 <? step) eqn:E1; [|apply Z.ltb_ge in E1; lia].
  rewrite in_map_iff. split.
  - intros (i & <- & Hi). apply in_seq in Hi.
    destruct (0 <? stop) eqn:E2; [|simpl in Hi; lia].
    apply Z.ltb_lt in E2. split; [|apply Z.mod_mul; lia].
    assert (Hq : Z.of_nat i < (stop + step - 1) / step) by lia.
    assert (Hd : step * ((stop + step - 1) / step) <= stop + step - 1)
      by (apply Z.mul_div_le; lia).
    nia.
  - intros [[Hx1 Hx2] Hm].
    assert (Ex : x = step * (x / step)) by (rewrite (Z.div_mod x step) at 1; lia).
    assert (Hq : 0 <= x / step) by (apply Z.div_pos; lia).
    exists (Z.to_nat (x / step)). split; [rewrite Z2Nat.id by lia; lia|].
    apply in_seq. destruct (0 <? stop) eqn:E2; [|apply Z.ltb_ge in E2; lia].
    assert (Hd : x / step + 1 <= (stop + step - 1) / step).
    { apply Z.div_le_lower_bound; [lia|]. nia. }
    lia.
Qed.

Lemma py_range_total stop step : step <> 0 -> exists l, py_range stop step = Ok l.
Proof.
  intros H. unfold py_range. apply Z.eqb_neq in H. rewrite H. eauto.
Qed.

Lemma traverse_pure {A B} (g : A -> B) (f : A -> result B) l :
  (forall a, f a = Ok (g a)) -> traverse f l = Ok (map g l).
Proof.
  intros H. induction l as [|a r IH]; simpl; [reflexivity|]. now rewrite H, IH.
Qed.

Lemma rgb_eqb_eq a b : rgb_eqb a b = true <-> a = b.
Proof.
  destruct a as [[r g] b1], b as [[r' g'] b2]. unfold rgb_eqb.
  rewrite !andb_true_iff, !Z.eqb_eq. split; [intros [[-> ->] ->]; reflexivity|].
  intros H. injection H as -> -> ->. auto.
Qed.

(** The loops of a style draw one shape at each position of the grid
    whose pixel is black, and nothing else. *)
Lemma draw_modules_spec img module_size cell :
  0 < module_size ->
  exists shapes,
    draw_modules img module_size cell = Ok shapes /\
    forall s, In s shapes <->
      exists x y, grid_position img module_size x y /\
                  pixels img x y = black /\ s = cell x y.
Proof.
  intros Hm. unfold draw_modules.
  destruct (py_range_total (height img) module_size ltac:(lia)) as (ys & Hys).
  destruct (py_range_total (width img) module_size ltac:(lia)) as (xs & Hxs).
  rewrite Hys. cbn [bind]. rewrite Hxs.
  erewrite traverse_pure by (intros y; cbn [bind]; reflexivity). cbn [bind].
  eexists. split; [reflexivity|]. intros s.
  rewrite in_concat. split.
  - intros (row & Hrow & Hs). apply in_map_iff in Hrow as (y & <- & Hy).
    apply in_flat_map in Hs as (x & Hx & Hs).
    destruct (_ && _) eqn:E; [|contradiction]. destruct Hs as [<-|[]].
    apply andb_prop in E as [_ E]. apply rgb_eqb_eq in E.
    exists x, y. repeat split; try assumption;
      try (apply (py_range_spec _ _ _ Hm Hxs); assumption);
      apply (py_range_spec _ _ _ Hm Hys); assumption.
  - intros (x & y & [Hx Hy] & Hp & ->).
    eexists. split.
    + apply in_map_iff. exists y. split; [reflexivity|].
      now apply (py_range_spec _ _ _ Hm Hys).
    + apply in_flat_map. exists x. split; [now apply (py_range_spec _ _ _ Hm Hxs)|].
      apply rgb_eqb_eq in Hp. rewrite Hp.
      destruct Hx as [[_ Hx] _], Hy as [[_ Hy] _].
      apply Z.ltb_lt in Hx, Hy. rewrite Hx, Hy. now left.
Qed.

Lemma StronglySorted_app {A} (R : A -> A -> Prop) l1 l2 :
  StronglySorted R l1 -> StronglySorted R l2 ->
  (forall a b, In a l1 -> In b l2 -> R a b) -> StronglySorted R (l1 ++ l2).
Proof.
  intros H1 H2 H. induction H1 as [|a r Hr IH Ha]; simpl; [assumption|].
  constructor.
  - apply IH. intros x y Hx Hy. apply H; [now right | assumption].
  - rewrite Forall_forall in *. intros y Hy. apply in_app_or in Hy as [Hy|Hy].
    + now apply Ha.
    + apply H; [now left | assumption].
Qed.

Lemma StronglySorted_flat_map {A B} (Q : A -> A -> Prop) (R : B -> B -> Prop)
  (f : A -> list B) xs :
  StronglySorted Q xs ->
  (forall x, In x xs -> StronglySorted R (f x)) ->
  (forall x x' a b, In x xs -> In x' xs -> Q x x' -> In a (f x) -> In b (f x') -> R a b) ->
  StronglySorted R (flat_map f xs).
Proof.
  intros Hs. induction Hs as [|x r Hr IH Hx]; intros Hf HR; simpl; [constructor|].
  apply StronglySorted_app.
  - apply Hf. now left.
  - apply IH.
    + intros y Hy. apply Hf. now right.
    + intros y y' a b Hy Hy'. apply HR; now right.
  - intros a b Ha Hb. apply in_flat_map in Hb as (y & Hy & Hb).
    rewrite Forall_forall in Hx.
    apply (HR x y a b); [now left | now right | now apply Hx | assumption | assumption].
Qed.

(** [range] counts upwards. *)
Lemma py_range_increasing stop step l :
  0 < step -> py_range stop step = Ok l -> StronglySorted Z.lt l.
Proof.
  intros Hs H. unfold py_range in H.
  destruct (step =? 0) eqn:E0; [apply Z.eqb_eq in E0; lia|].
  injection H as <-.
  generalize (Z.to_nat (range_length stop step)) as n. generalize 0%nat as a.
  intros a n. revert a. induction n as [|n IH]; intros a; simpl; constructor.
  - apply IH.
  - apply Forall_forall. intros x Hx. apply in_map_iff in Hx as (i & <- & Hi).
    apply in_seq in Hi. nia.
Qed.

(** The loops of a style visit the grid positions whose pixel is black
    in row-major order, each once, and draw one shape at each. *)
Lemma draw_modules_positions img module_size cell :
  0 < module_size ->
  exists positions,
    draw_modules img module_size cell
    = Ok (map (fun p => cell (fst p) (snd p)) positions) /\
    StronglySorted row_major positions /\
    forall x y, In (x, y) positions <->
                grid_position img module_size x y /\ pixels img x y = black.
Proof.
  intros Hm. unfold draw_modules.
  destruct (py_range_total (height img) module_size ltac:(lia)) as (ys & Hys).
  destruct (py_range_total (width img) module_size ltac:(lia)) as (xs & Hxs).
  rewrite Hys. cbn [bind]. rewrite Hxs.
  erewrite traverse_pure by (intros y; cbn [bind]; reflexivity). cbn [bind].
  set (visible := fun x y => (x <? width img) && (y <? height img)
                             && rgb_eqb (pixels img x y) black).
  exists (flat_map (fun y => flat_map (fun x => if visible x y then [(x, y)] else []) xs) ys).
  split; [|split].
  - f_equal. rewrite <- flat_map_concat_map. clear Hys.
    induction ys as [|y r IH]; simpl; [reflexivity|].
    rewrite map_app, <- IH. f_equal.
    clear. induction xs as [|x r' IH]; simpl; [reflexivity|].
    rewrite map_app, <- IH. fold (visible x y). now destruct (visible x y).
  - apply (StronglySorted_flat_map Z.lt); [now apply (py_range_increasing _ _ _ Hm Hys)| |].
    + intros y _.
      apply (StronglySorted_flat_map Z.lt); [now apply (py_range_increasing _ _ _ Hm Hxs)| |].
      * intros x _. destruct (visible x y); repeat constructor.
      * intros x x' a b _ _ Hlt Ha Hb.
        destruct (visible x y); [|contradiction]. destruct Ha as [<-|[]].
        destruct (visible x' y); [|contradiction]. destruct Hb as [<-|[]].
        right. simpl. auto.
    + intros y y' a b _ _ Hlt Ha Hb.
      apply in_flat_map in Ha as (x & _ & Ha). apply in_flat_map in Hb as (x' & _ & Hb).
      destruct (visible x y); [|contradiction]. destruct Ha as [<-|[]].
      destruct (visible x' y'); [|contradiction]. destruct Hb as [<-|[]].
      left. assumption.
  - intros x y. rewrite in_flat_map. split.
    + intros (y' & Hy & Hin). apply in_flat_map in Hin as (x' & Hx & Hin).
      destruct (visible x' y') eqn:E; [|contradiction]. destruct Hin as [Hin|[]].
      injection Hin as <- <-. unfold visible in E.
      apply andb_prop in E as [_ E]. apply rgb_eqb_eq in E. split; [|assumption].
      split; [now apply (py_range_spec _ _ _ Hm Hxs) | now apply (py_range_spec _ _ _ Hm Hys)].
    + intros ([Hx Hy] & Hp). exists y. split; [now apply (py_range_spec _ _ _ Hm Hys)|].
      apply in_flat_map. exists x. split; [now apply (py_range_spec _ _ _ Hm Hxs)|].
      unfold visible. apply rgb_eqb_eq in Hp. rewrite Hp.
      destruct Hx as [[_ Hx] _], Hy as [[_ Hy] _].
      apply Z.ltb_lt in Hx, Hy. rewrite Hx, Hy. now left.
Qed.

(** X20.  [apply_rounded_style] raises nothing, keeps the size of the
    image, and draws on the background colour one rounded rectangle in
    the QR colour for each grid position whose pixel is pure black, and
    nothing else: the shapes drawn are the squares of the module size at
    these positions, each position once, in the order of the rows and
    from left to right within a row. *)
Theorem rounded_style_modules (bg_color qr_color : rgb) (img : picture) :
  let module_size := Z.max 1 (width img / 21) in
  exists positions,
    apply_rounded_style bg_color qr_color img
    = Ok (Canvas (width img) (height img) bg_color
            (map (fun p => rounded_rectangle (fst p) (snd p)
                             (fst p + module_size - 1) (snd p + module_size - 1)
                             (module_size / 3) qr_color)
                 positions)) /\
    StronglySorted row_major positions /\
    forall x y, In (x, y) positions <->
                grid_position img module_size x y /\ pixels img x y = black.
Proof.
  intros module_size. unfold apply_rounded_style. fold module_size.
  destruct (draw_modules_positions img module_size
              (fun x y => rounded_rectangle x y (x + module_size - 1) (y + module_size - 1)
                            (module_size / 3) qr_color)
              ltac:(unfold module_size; lia)) as (positions & E & Hs & H).
  rewrite E. exists positions. split; [reflexivity|]. split; assumption.
Qed.

Lemma rounded_style_modules_witness :
  let module_size := Z.max 1 (width black_diagonal / 21) in
  exists positions,
    apply_rounded_style default_bg_color default_qr_color black_diagonal
    = Ok (Canvas (width black_diagonal) (height black_diagonal) default_bg_color
            (map (fun p => rounded_rectangle (fst p) (snd p)
                             (fst p + module_size - 1) (snd p + module_size - 1)
                             (module_size / 3) default_qr_color)
                 positions)) /\
    StronglySorted row_major positions /\
    forall x y, In (x, y) positions <->
                grid_position black_diagonal module_size x y /\
                pixels black_diagonal x y = black.
Proof.
  exact (rounded_style_modules default_bg_color default_qr_color black_diagonal).
Defined.

(** Three modules of 3 by 3 pixels, drawn with the module size 1 that
    the style computes for an image of 9 pixels: 27 squares of one
    pixel, row by row. *)
Example rounded_black_diagonal_first_row :
  exists rest,
    apply_rounded_style default_bg_color default_qr_color black_diagonal
    = Ok (Canvas 9 9 default_bg_color
            (rounded_rectangle 0 0 0 0 0 default_qr_color
             :: rounded_rectangle 1 0 1 0 0 default_qr_color
             :: rounded_rectangle 2 0 2 0 0 default_qr_color
             :: rounded_rectangle 0 1 0 1 0 default_qr_color :: rest)) /\
    List.length rest = 23%nat.
Proof. eexists. split; [vm_compute; reflexivity | reflexivity]. Qed.

(** X21.  [apply_dots_style] raises nothing, and every dot that it
    draws is a circle in the QR colour that lies within the cell of its
    grid position, one pixel off the cell's left and upper edge: dots of
    different cells do not touch. *)
Theorem dots_style_within_cells (bg_color qr_color : rgb) (img : picture) :
  let module_size := Z.max 3 (width img / 30) in
  exists shapes,
    apply_dots_style bg_color qr_color img
    = Ok (Canvas (width img) (height img) bg_color shapes) /\
    forall s, In s shapes ->
      exists x y x0 y0 x1 y1,
        grid_position img module_size x y /\ pixels img x y = black /\
        s = ellipse x0 y0 x1 y1 qr_color /\
        x0 = x + 1 /\ y0 = y + 1 /\
        x0 <= x1 <= x + module_size - 1 /\ y0 <= y1 <= y + module_size - 1 /\
        x1 - x0 = y1 - y0.
Proof.
  intros module_size. unfold apply_dots_style. fold module_size.
  match goal with
  | |- context [draw_modules img module_size ?c] =>
      destruct (draw_modules_spec img module_size c ltac:(unfold module_size; lia))
        as (shapes & E & H)
  end.
  rewrite E. exists shapes. split; [reflexivity|].
  intros s Hs. apply H in Hs as (x & y & Hg & Hp & ->).
  assert (Hm : 3 <= module_size) by (unfold module_size; lia).
  eexists x, y, _, _, _, _. split; [exact Hg|]. split; [exact Hp|].
  split; [reflexivity|].
  assert (H2 : 1 <= module_size / 2) by (apply Z.div_le_lower_bound; lia).
  assert (H3 : 2 * (module_size / 2) <= module_size) by (apply Z.mul_div_le; lia).
  repeat split; lia.
Qed.

Lemma dots_style_within_cells_witness :
  let module_size := Z.max 3 (width black_diagonal / 30) in
  exists shapes,
    apply_dots_style default_bg_color default_qr_color black_diagonal
    = Ok (Canvas (width black_diagonal) (height black_diagonal) default_bg_color shapes) /\
    forall s, In s shapes ->
      exists x y x0 y0 x1 y1,
        grid_position black_diagonal module_size x y /\ pixels black_diagonal x y = black /\
        s = ellipse x0 y0 x1 y1 default_qr_color /\
        x0 = x + 1 /\ y0 = y + 1 /\
        x0 <= x1 <= x + module_size - 1 /\ y0 <= y1 <= y + module_size - 1 /\
        x1 - x0 = y1 - y0.
Proof.
  exact (dots_style_within_cells default_bg_color default_qr_color black_diagonal).
Defined.

(** X22.  Both styles look for pure black pixels, whatever the colours
    of the image are: on an image drawn in a QR colour and a background
    colour that are not pure black, as with the colours that the window
    starts with, each style returns the bare background. *)
Theorem styles_blank_unless_black (bg_color qr_color : rgb) (img : picture) :
  qr_color <> black -> bg_color <> black ->
  (forall x y, pixels img x y = qr_color \/ pixels img x y = bg_color) ->
  apply_rounded_style bg_color qr_color img
  = Ok (Canvas (width img) (height img) bg_color []) /\
  apply_dots_style bg_color qr_color img
  = Ok (Canvas (width img) (height img) bg_color []).
Proof.
  intros Hq Hb Hp.
  assert (Hnone : forall m cell, 0 < m -> draw_modules img m cell = Ok []).
  { intros m cell Hm. destruct (draw_modules_spec img m cell Hm) as (shapes & E & H).
    rewrite E. f_equal. destruct shapes as [|s r]; [reflexivity|]. exfalso.
    destruct (proj1 (H s) (or_introl eq_refl)) as (x & y & _ & Hblack & _).
    destruct (Hp x y); congruence. }
  unfold apply_rounded_style, apply_dots_style.
  rewrite !Hnone by lia. split; reflexivity.
Qed.

Lemma styles_blank_unless_black_witness :
  apply_rounded_style default_bg_color default_qr_color red_diagonal
  = Ok (Canvas 9 9 default_bg_color []) /\
  apply_dots_style default_bg_color default_qr_color red_diagonal
  = Ok (Canvas 9 9 default_bg_color []).
Proof.
  apply (styles_blank_unless_black default_bg_color default_qr_color red_diagonal).
  - discriminate.
  - discriminate.
  - intros x y. simpl. destruct (_ =? _); auto.
Defined.

(** Drawn in black, the same image keeps its modules. *)
Example dots_of_black_diagonal :
  apply_dots_style default_bg_color default_qr_color black_diagonal
  = Ok (Canvas 9 9 default_bg_color
          [ ellipse 1 1 1 1 default_qr_color; ellipse 4 4 4 4 default_qr_color;
            ellipse 7 7 7 7 default_qr_color ]).
Proof. vm_compute. reflexivity. Qed.

(** ** The time zone of the window *)

Lemma current_returns_object str_of_value w j :
  current str_of_value w = Ok j -> exists kv, j = JObj kv.
Proof.
  unfold current. intros H. bind_inv H. bind_inv H. bind_inv H. bind_inv H.
  destruct (negb _); [bind_inv H; discriminate|]. injection H as <-.
  destruct a1; try discriminate. eauto.
Qed.

(** X23.  For every payload that a task on the client hands to the
    window, the name of the time zone is computed without an exception
    ([current] returns an object, so [curr.get] exists), and the name is
    "UTC" unless the IP lookup or the current conditions give a text; a
    search, whose payload has no ["tz"], with current conditions whose
    ["timezone"] is a number (an offset in seconds), gets "UTC". *)
Theorem time_zone_of_payload
  (str_of_value : json -> string) (decode_samples : json -> result (list sample))
  (net : network) (units q : string) (p : payload) :
  In (result_emit p)
     (run (search_task (weather_client str_of_value decode_samples net) units q)) \/
  In (result_emit p)
     (run (location_task str_of_value (weather_client str_of_value decode_samples net) units)) ->
  exists s,
    tzname_of (p_tz p) (p_current p) = Ok s /\
    (s = "UTC" \/ p_tz p = Some (JStr s) \/
     exists kv, p_current p = JObj kv /\ dict_get kv "timezone" = Some (JStr s)) /\
    (In (result_emit p)
        (run (search_task (weather_client str_of_value decode_samples net) units q)) ->
     forall kv z, p_current p = JObj kv -> dict_get kv "timezone" = Some (JInt z) ->
                  s = "UTC").
Proof.
  intros H.
  assert (Hc : exists kv, p_current p = JObj kv).
  { destruct H as [H|H].
    - destruct (search_task _ units q) as [p'|e] eqn:E; simpl in H;
        destruct H as [H|[]]; [|discriminate]. injection H as ->.
      unfold search_task in E. bind_inv E. destruct a as [[lat lon] label].
      bind_inv E. bind_inv E. bind_inv E. injection E as <-. simpl in *.
      now apply current_returns_object in Hstep0.
    - destruct (location_task _ _ units) as [p'|e] eqn:E; simpl in H;
        destruct H as [H|[]]; [|discriminate]. injection H as ->.
      unfold location_task in E. bind_inv E.
      destruct (negb (truthy a)); [discriminate|].
      do 8 bind_inv E. bind_inv E. injection E as <-. simpl in *.
      now apply current_returns_object in Hstep5. }
  destruct Hc as (kv & Hkv).
  assert (Hsearch :
            In (result_emit p)
               (run (search_task (weather_client str_of_value decode_samples net) units q)) ->
            p_tz p = None).
  { intros Hs. destruct (search_task _ units q) as [p'|e] eqn:E; simpl in Hs;
      destruct Hs as [Hs|[]]; [|discriminate]. injection Hs as ->.
    unfold search_task in E. bind_inv E. destruct a as [[lat lon] label].
    bind_inv E. bind_inv E. bind_inv E. now injection E as <-. }
  unfold tzname_of. rewrite Hkv.
  destruct (p_tz p) as [tz|] eqn:Etz.
  - destruct tz as [| | | |s| |]; cbn [is_none py_get bind];
      try (eexists; split; [reflexivity|]; split;
           [now left | intros Hs; apply Hsearch in Hs; discriminate]).
    + destruct (dict_get kv "timezone") as [[| | | |s| |]|] eqn:Ek;
        (eexists; split; [reflexivity|]; split;
         [first [now left | right; right; eauto]
         | intros Hs; apply Hsearch in Hs; discriminate]).
    + exists s. split; [reflexivity|]. split; [now right; left|].
      intros Hs. apply Hsearch in Hs. discriminate.
  - cbn [is_none py_get bind].
    destruct (dict_get kv "timezone") as [[| | | |s| |]|] eqn:Ek;
      (eexists; split; [reflexivity|]; split;
       [first [now left | right; right; eauto]
       | intros _ kv' z0 Ekv Ez; injection Ekv as <-; rewrite Ek in Ez;
         first [discriminate | reflexivity]]).
Qed.

Lemma time_zone_of_payload_witness :
  exists p,
    run (search_task (weather_client (fun _ => "") (fun _ => Ok six_days) offset_zone)
           "metric" "Paris")
    = [result_emit p] /\
    tzname_of (p_tz p) (p_current p) = Ok "UTC".
Proof.
  eexists. split; [vm_compute; reflexivity|].
  match goal with
  | |- tzname_of (p_tz ?p) _ = _ =>
      destruct (time_zone_of_payload (fun _ => "") (fun _ => Ok six_days) offset_zone
                  "metric" "Paris" p) as (s & Hs & _ & Hutc)
  end.
  - left. vm_compute. now left.
  - rewrite Hs. f_equal. apply (Hutc ltac:(vm_compute; now left) _ 3600 eq_refl). reflexivity.
Defined.
